(** * read_snapshot.cpp: loading one particle species from a Gadget snapshot

    A shallow embedding of [load_snapshot], [alloc_parts] and [free_parts]
    of [src/read_snapshot.cpp], the properties of the loader that the
    specification states, and further properties of the code.

    - C [float] and [double] are IEEE-754 binary32 and binary64 values,
      computed with the reference operations of [SpecFloat] (round to
      nearest even, every operation rounded to its type: no excess
      precision, no fused multiply-add).
    - [int64_t], [int] and [size_t] arithmetic is arithmetic on [Z] with the
      wrap-around written out.
    - The function body is a computation in a small monad over the caller's
      memory (the [pdata] buffer, the six [double] out-parameters) and a
      trace of the calls made to [malloc] and to the snapshot reader; a
      computation returns, ends the process ([exit]) or has undefined
      behaviour (an access outside an allocated array).
    - The diagnostic [printf]s are left out of [load_snapshot]: they change
      neither the memory nor the control flow. The array entries the
      closing ones read are [report].
    - A new array has the content the allocator gives it; the memory does
      not record which cells were written. Undefined behaviour is an
      access through a null pointer or outside an array, and a double
      [free]; which cells a load returns or prints without having written
      them is stated by theorems of their own.
    - [free] does not change the pointer it is given. [free_parts] and the
      allocation it undoes are computations over the memory and the list
      of the fields whose pointer dangles; every field owns the array it
      points to, as [alloc_parts] leaves the buffer. *)

From Stdlib Require Import ZArith Bool String List Lia SpecFloat.
Import ListNotations.

Local Open Scope Z_scope.

(* ================================================================= *)
(** ** Machine integers *)

Module MachineInt.

Definition wrap_signed (bits : Z) (z : Z) : Z :=
  (z + 2 ^ (bits - 1)) mod 2 ^ bits - 2 ^ (bits - 1).

(** [int64_t] and [int] results, and conversions to them. *)
Definition int64 (z : Z) : Z := wrap_signed 64 z.
Definition int32 (z : Z) : Z := wrap_signed 32 z.

(** [size_t] results, and conversions to [size_t]. *)
Definition size_t (z : Z) : Z := z mod 2 ^ 64.

Definition INT64_MAX : Z := 2 ^ 63 - 1.
Definition INT_MAX : Z := 2 ^ 31 - 1.

Definition in_int64 (z : Z) : Prop := - 2 ^ 63 <= z <= INT64_MAX.

(** [sizeof(float)] *)
Definition sizeof_float : Z := 4.

End MachineInt.
Import MachineInt.

(* ================================================================= *)
(** ** Floating point *)

(** Both C types are carried by [spec_float]; the format is fixed by the
    operation that produces a value. *)
Definition float : Type := spec_float.
Definition double : Type := spec_float.

Module Fmt.
(** Conversion to the format [(prec, emax)]: exact when the value is
    representable, rounded to nearest even otherwise. *)
Definition cast (prec emax : Z) (x : spec_float) : spec_float :=
  match x with
  | S754_finite s m e => binary_round prec emax s m e
  | _ => x
  end.

(** The C operator [!=]: true on unordered operands. *)
Definition neb (x y : spec_float) : bool := negb (SFeqb x y).
End Fmt.

Module Single.
Definition prec : Z := 24.
Definition emax : Z := 128.
Definition of_Z (z : Z) : float := binary_normalize prec emax z 0 false.
Definition of_double (x : double) : float := Fmt.cast prec emax x.
Definition add : float -> float -> float := SFadd prec emax.
Definition mul : float -> float -> float := SFmul prec emax.
Definition div : float -> float -> float := SFdiv prec emax.
Definition zero : float := S754_zero false.
(** The [float] nearest to the decimal [n / 10^d]. *)
Definition dec (n : Z) (d : Z) : float := div (of_Z n) (of_Z (10 ^ d)).
End Single.

Module Double.
Definition prec : Z := 53.
Definition emax : Z := 1024.
Definition of_Z (z : Z) : double := binary_normalize prec emax z 0 false.
Definition of_float (x : float) : double := Fmt.cast prec emax x.
Definition add : double -> double -> double := SFadd prec emax.
Definition sub : double -> double -> double := SFsub prec emax.
Definition mul : double -> double -> double := SFmul prec emax.
Definition div : double -> double -> double := SFdiv prec emax.
Definition sqrt : double -> double := SFsqrt prec emax.
Definition zero : double := S754_zero false.
(** The [double] nearest to the decimal [n / 10^d]. *)
Definition dec (n : Z) (d : Z) : double := div (of_Z n) (of_Z (10 ^ d)).
(** A [double] used as a condition: [if (x)] is [if (x != 0)]. *)
Definition truthy (x : double) : bool := Fmt.neb x zero.
End Double.

(* ================================================================= *)
(** ** The snapshot reader (GadgetReader) *)

(** Modelled from the spec: the number of particle types of
    [gadgetreader.hpp], which is not part of the sources ("exactly 6
    entries, one per recognized particle type"). *)
Definition N_TYPE : Z := 6.

(** Modelled from the spec: the header type of [gadgetreader.hpp]. The
    scalars are the ones [load_snapshot] reads, [double]s as in the Gadget
    header they come from; [mass] is indexed by particle type. *)
Record gadget_header : Type := {
  mass : nat -> double;
  time : double;
  redshift : double;
  BoxSize : double;
  HubbleParam : double;
  Omega0 : double;
  OmegaLambda : double;
  flag_cooling : Z
}.

(** Modelled from the spec: an opened snapshot ([GadgetReader::GSnap]), as
    the loader sees it: its header, its particle count per type, and for
    every block tag and particle type the stored values of that type in
    particle order. *)
Record GSnap : Type := {
  GetHeader : gadget_header;
  GetNpart : nat -> Z;
  block : string -> nat -> list float
}.

(** Modelled from the spec: the number of values a block stores per
    particle ("position: 3 floats/particle; velocity: 3 floats/particle",
    one for every other field). *)
Definition floats_per_particle (tag : string) : nat :=
  if (String.eqb tag "POS " || String.eqb tag "VEL ")%bool%string then 3%nat else 1%nat.

Definition types : list nat := seq 0 (Z.to_nat N_TYPE).

(** Modelled from the spec: the values of a block once the types named in
    the skip mask are omitted ("a bitmask over particle types telling the
    container reader which types' data to omit"). *)
Definition block_data (snap : GSnap) (tag : string) (skip : Z) : list float :=
  flat_map (fun t => if Z.testbit skip (Z.of_nat t) then [] else block snap tag t)
           types.

(** Modelled from the spec: the values [GetBlock] copies to its destination
    ("copies a tag's raw data for a given particle-index range into a
    caller-supplied buffer"): the particles [start, start + count) of the
    block, as far as the block holds them. *)
Definition block_range (snap : GSnap) (tag : string) (count start skip : Z)
  : list float :=
  let w := floats_per_particle tag in
  firstn (w * Z.to_nat count) (skipn (w * Z.to_nat start) (block_data snap tag skip)).

(* ================================================================= *)
(** ** Memory and the monad of the loader *)

(** A pointer to a [float] array is NULL ([None]) or owns the array it
    points to. *)
Definition buffer : Type := option (list float).

(** [pdata] of [global_vars.h]: the fields [alloc_parts] allocates. *)
Record pdata : Type := mk_pdata {
  Vel : buffer;
  Pos : buffer;
  Mass : buffer;
  U : buffer;
  NH0 : buffer;
  Ne : buffer;
  NHep : buffer;
  h : buffer
}.

Inductive field : Type := FVel | FPos | FMass | FU | FNH0 | FNe | FNHep | Fh.

Definition get_field (f : field) (p : pdata) : buffer :=
  match f with
  | FVel => Vel p | FPos => Pos p | FMass => Mass p | FU => U p
  | FNH0 => NH0 p | FNe => Ne p | FNHep => NHep p | Fh => h p
  end.

Definition set_field (f : field) (b : buffer) (p : pdata) : pdata :=
  match f with
  | FVel => mk_pdata b (Pos p) (Mass p) (U p) (NH0 p) (Ne p) (NHep p) (h p)
  | FPos => mk_pdata (Vel p) b (Mass p) (U p) (NH0 p) (Ne p) (NHep p) (h p)
  | FMass => mk_pdata (Vel p) (Pos p) b (U p) (NH0 p) (Ne p) (NHep p) (h p)
  | FU => mk_pdata (Vel p) (Pos p) (Mass p) b (NH0 p) (Ne p) (NHep p) (h p)
  | FNH0 => mk_pdata (Vel p) (Pos p) (Mass p) (U p) b (Ne p) (NHep p) (h p)
  | FNe => mk_pdata (Vel p) (Pos p) (Mass p) (U p) (NH0 p) b (NHep p) (h p)
  | FNHep => mk_pdata (Vel p) (Pos p) (Mass p) (U p) (NH0 p) (Ne p) b (h p)
  | Fh => mk_pdata (Vel p) (Pos p) (Mass p) (U p) (NH0 p) (Ne p) (NHep p) b
  end.

Definition field_eq_dec (f g : field) : {f = g} + {f <> g}.
Proof. decide equality. Defined.

(** The six [double *] out-parameters of [load_snapshot]. *)
Record outputs : Type := mk_outputs {
  o_atime : double;
  o_redshift : double;
  o_Hz : double;
  o_box100 : double;
  o_h100 : double;
  o_omegab : double
}.

(** What the call does to the world outside its memory. *)
Inductive event : Type :=
| Malloc (size : Z) (ok : bool)
| GetBlockCall (tag : string) (count start skip : Z).

Record state : Type := mk_state {
  P : pdata;
  out : outputs;
  trace : list event
}.

Inductive outcome (A : Type) : Type :=
| Ok (a : A) (s : state)
| Exited (code : Z) (s : state)
| Undefined.
Arguments Ok {A} a s.
Arguments Exited {A} code s.
Arguments Undefined {A}.

Definition M (A : Type) : Type := state -> outcome A.

Definition ret {A} (a : A) : M A := fun s => Ok a s.

Definition bind {A B} (m : M A) (k : A -> M B) : M B :=
  fun s =>
    match m s with
    | Ok a s' => k a s'
    | Exited c s' => Exited c s'
    | Undefined => Undefined
    end.

Declare Scope loader_scope.
Delimit Scope loader_scope with loader.
Notation "x <- m ;; k" := (bind m (fun x => k))
  (at level 61, m at next level, right associativity) : loader_scope.
Notation "m ;; k" := (bind m (fun _ => k))
  (at level 61, right associativity) : loader_scope.
Local Open Scope loader_scope.

(** [exit(code)] *)
Definition exit {A} (code : Z) : M A := fun s => Exited code s.

Definition undefined {A} : M A := fun _ => Undefined.

Definition log (e : event) : M unit :=
  fun s => Ok tt (mk_state (P s) (out s) (trace s ++ [e])).

Definition get_P (f : field) : M buffer := fun s => Ok (get_field f (P s)) s.

Definition set_P (f : field) (b : buffer) : M unit :=
  fun s => Ok tt (mk_state (set_field f b (P s)) (out s) (trace s)).

Definition get_out {A} (proj : outputs -> A) : M A := fun s => Ok (proj (out s)) s.

Definition set_out (upd : outputs -> outputs) : M unit :=
  fun s => Ok tt (mk_state (P s) (upd (out s)) (trace s)).

Definition set_atime (v : double) (o : outputs) : outputs :=
  mk_outputs v (o_redshift o) (o_Hz o) (o_box100 o) (o_h100 o) (o_omegab o).
Definition set_redshift (v : double) (o : outputs) : outputs :=
  mk_outputs (o_atime o) v (o_Hz o) (o_box100 o) (o_h100 o) (o_omegab o).
Definition set_Hz (v : double) (o : outputs) : outputs :=
  mk_outputs (o_atime o) (o_redshift o) v (o_box100 o) (o_h100 o) (o_omegab o).
Definition set_box100 (v : double) (o : outputs) : outputs :=
  mk_outputs (o_atime o) (o_redshift o) (o_Hz o) v (o_h100 o) (o_omegab o).
Definition set_h100 (v : double) (o : outputs) : outputs :=
  mk_outputs (o_atime o) (o_redshift o) (o_Hz o) (o_box100 o) v (o_omegab o).
Definition set_omegab (v : double) (o : outputs) : outputs :=
  mk_outputs (o_atime o) (o_redshift o) (o_Hz o) (o_box100 o) (o_h100 o) v.

(** [P->f[i]] as a value: defined inside the array only. *)
Definition load (f : field) (i : nat) : M float :=
  b <- get_P f ;;
  match b with
  | Some l => match nth_error l i with
              | Some v => ret v
              | None => undefined
              end
  | None => undefined
  end.

Fixpoint update {A} (l : list A) (i : nat) (v : A) : option (list A) :=
  match l, i with
  | [], _ => None
  | _ :: l', O => Some (v :: l')
  | x :: l', S i' => option_map (cons x) (update l' i' v)
  end.

(** [P->f[i] = v]: defined inside the array only. *)
Definition store (f : field) (i : nat) (v : float) : M unit :=
  b <- get_P f ;;
  match b with
  | Some l => match update l i v with
              | Some l' => set_P f (Some l')
              | None => undefined
              end
  | None => undefined
  end.

(** [for (int i = from; i < from + n; i++) body(i)]. The counter is an
    [int] compared with an [int64_t] bound; in every loop of the loader an
    array of fewer than [2^31] floats is indexed by [i] and the access
    outside it is undefined before [i] can overflow. *)
Fixpoint for_range (from n : nat) (body : nat -> M unit) : M unit :=
  match n with
  | O => ret tt
  | S n' => body from ;; for_range (S from) n' body
  end.

(** Copying [data] to the start of an array. *)
Definition overwrite (data dest : list float) : option (list float) :=
  if (length data <=? length dest)%nat
  then Some (data ++ skipn (length data) dest)
  else None.

(* ================================================================= *)
(** ** Snapshots to run the loader on *)

Module Example.

(** [n] consecutive integers as floats. *)
Definition ramp (n : nat) (from : Z) : list float :=
  map (fun i => Single.of_Z (from + Z.of_nat i)) (seq 0 n).

(** A present-day flat header: [a = 1], [Omega0 = 0.3],
    [OmegaLambda = 0.7], [h = 0.7]; the gas mass entry is [m0] and the
    entry of type 1 is 0.9. *)
Definition header (m0 : double) (cooling : Z) : gadget_header :=
  {| mass := fun t => match t with
                      | 0%nat => m0
                      | 1%nat => Double.dec 9 1
                      | _ => Double.zero
                      end;
     time := Double.of_Z 1;
     redshift := Double.zero;
     BoxSize := Double.of_Z 60000;
     HubbleParam := Double.dec 7 1;
     Omega0 := Double.dec 3 1;
     OmegaLambda := Double.dec 7 1;
     flag_cooling := cooling |}.

(** [n] gas particles with the masses [masses] in the MASS block and the
    ionisation fractions 0.1, 0.05 and 0.02, and two particles of type 1
    that have positions and velocities only. *)
Definition gas (n : nat) (m0 : double) (cooling : Z) (masses : list float)
  : GSnap :=
  {| GetHeader := header m0 cooling;
     GetNpart := fun t => match t with
                          | 0%nat => Z.of_nat n
                          | 1%nat => 2
                          | _ => 0
                          end;
     block := fun tag t =>
       match t with
       | 0%nat =>
           if String.eqb tag "POS " then ramp (3 * n) 0
           else if String.eqb tag "VEL " then ramp (3 * n) 1000
           else if String.eqb tag "MASS" then masses
           else if String.eqb tag "NHP " then repeat (Single.dec 1 1) n
           else if String.eqb tag "NHEP" then repeat (Single.dec 5 2) n
           else if String.eqb tag "NHEQ" then repeat (Single.dec 2 2) n
           else ramp n 7
       | 1%nat =>
           if String.eqb tag "POS " then ramp 6 5000
           else if String.eqb tag "VEL " then ramp 6 6000
           else []
       | _ => []
       end |}.

(** [pow] on the exponent the loader uses. *)
Definition square (x _ : double) : double := Double.mul x x.

(** An allocator that returns zeroed memory and refuses more than
    [2^40] bytes. *)
Definition allocator (_ : list event) (size : Z) : option (nat -> float) :=
  if size <=? 2 ^ 40 then Some (fun _ => Single.zero) else None.

(** The caller's memory before the first call. *)
Definition blank : state :=
  mk_state (mk_pdata None None None None None None None None)
    (mk_outputs Double.zero Double.zero Double.zero Double.zero Double.zero
       Double.zero)
    [].

(** Four gas particles of mass 0.1 (as a float) in the MASS block. *)
Definition four : GSnap := gas 4 Double.zero 1 (repeat (Single.dec 1 1) 4).

(** Four gas particles whose mass 0.1 is in the header. *)
Definition four_uniform : GSnap := gas 4 (Double.dec 1 1) 1 [].

(** A hundred gas particles, the first fifty of mass 1 and the others of
    mass 2. *)
Definition two_masses : GSnap :=
  gas 100 Double.zero 0
      (repeat (Single.of_Z 1) 50 ++ repeat (Single.of_Z 2) 50).

(** A hundred gas particles of mass 1. *)
Definition hundred : GSnap := gas 100 Double.zero 1 (repeat (Single.of_Z 1) 100).

(** The same without cooling: the loader reads no ionisation block. *)
Definition hundred_cold : GSnap :=
  gas 100 Double.zero 0 (repeat (Single.of_Z 1) 100).

(** An allocator whose memory is not zeroed: every float of a new array
    holds the size that was asked for. *)
Definition stale (_ : list event) (size : Z) : option (nat -> float) :=
  Some (fun _ => Single.of_Z size).

(** An allocator that grants the first [k] calls made, whatever they
    are, and refuses every later request. *)
Definition budget (k : nat) (calls : list event) (_ : Z)
  : option (nat -> float) :=
  if (length calls <? k)%nat then Some (fun _ => Single.zero) else None.

(** Two gas particles whose mass in the header is not a number. *)
Definition unweighable : GSnap := gas 2 S754_nan 0 [].

(** The caller's memory after earlier use: old pointers in the buffer,
    old values in the out-parameters. *)
Definition used : state :=
  mk_state
    (mk_pdata (Some [Single.of_Z 1]) (Some []) None
       (Some [Single.of_Z 2; Single.of_Z 3]) None None
       (Some [Single.of_Z 4]) (Some [Single.of_Z 5]))
    (mk_outputs (Double.of_Z 1) (Double.of_Z 2) (Double.of_Z 3)
       (Double.of_Z 4) (Double.of_Z 5) (Double.of_Z 6))
    [].

End Example.

(* ================================================================= *)
(** ** The loader *)

Section Loader.

(** The build configuration: the particle type [PARTTYPE] of
    [parameters.h], and whether [GADGET3] and [HELIUM] are defined. *)
Variable PARTTYPE : nat.
Variable GADGET3 HELIUM : bool.

(** [pow] of the C library. *)
Variable pow : double -> double -> double.

(** The allocator behind [malloc]: from the calls made so far and the
    size asked for, NULL ([None]) or the initial content of the new
    array, index by index. *)
Variable allocator : list event -> Z -> option (nat -> float).

(** The number of floats an allocation of [size] bytes holds. *)
Definition cells (size : Z) : nat := Z.to_nat (size / sizeof_float).

(** [malloc(size)]: the call is recorded with its result. *)
Definition malloc (size : Z) : M buffer :=
  fun s =>
    match allocator (trace s) size with
    | Some init =>
        (log (Malloc size true) ;;
         ret (Some (map init (seq 0 (cells size))))) s
    | None => (log (Malloc size false) ;; ret None) s
    end.

Definition is_null (b : buffer) : bool :=
  match b with Some _ => false | None => true end.

(** [(P->f = (float * ) malloc(size))] used as a condition. *)
Definition alloc_field (f : field) (size : Z) : M bool :=
  p <- malloc size ;;
  set_P f p ;;
  ret (negb (is_null p)).

(** The C operator [&&]: the right operand runs only after a true left
    operand. *)
Definition and_then (a b : M bool) : M bool :=
  x <- a ;; if x then b else ret false.
Infix "<&&>" := and_then (at level 41, right associativity).

(** [alloc_parts], lines 160-172. [np * 3] is an [int] product; both
    sizes are [size_t] products with [sizeof(float)]. *)
Definition vector_size (np : Z) : Z :=
  size_t (size_t (int32 (np * 3)) * sizeof_float).
Definition scalar_size (np : Z) : Z :=
  size_t (size_t np * sizeof_float).

Definition alloc_parts (np : Z) : M bool :=
  alloc_field FVel (vector_size np) <&&>
  alloc_field FPos (vector_size np) <&&>
  alloc_field FMass (scalar_size np) <&&>
  alloc_field FU (scalar_size np) <&&>
  alloc_field FNH0 (scalar_size np) <&&>
  alloc_field FNe (scalar_size np) <&&>
  (if HELIUM
   then alloc_field FNHep (scalar_size np) <&&> alloc_field Fh (scalar_size np)
   else alloc_field Fh (scalar_size np)).

(** [snap.GetBlock(tag, P->dest, count, start, skip)]: the call is
    recorded and the values of the range are copied to the start of the
    destination array. *)
Definition GetBlock (snap : GSnap) (tag : string) (dest : field)
           (count start skip : Z) : M unit :=
  log (GetBlockCall tag count start skip) ;;
  b <- get_P dest ;;
  match b with
  | Some l =>
      match overwrite (block_range snap tag count start skip) l with
      | Some l' => set_P dest (Some l')
      | None => undefined
      end
  | None => undefined
  end.

(** Lines 35-39: the header scalars and the Hubble rate. *)
Definition hubble (h100 atime Om OL : double) : double :=
  Double.div
    (Double.mul
       (Double.mul (Double.of_Z 100) h100)
       (Double.sqrt
          (Double.add
             (Double.add (Double.of_Z 1)
                (Double.mul Om
                   (Double.sub (Double.div (Double.of_Z 1) atime) (Double.of_Z 1))))
             (Double.mul OL
                (Double.sub (pow atime (Double.of_Z 2)) (Double.of_Z 1))))))
    atime.

Definition read_header (snap : GSnap) : M unit :=
  let hd := GetHeader snap in
  set_out (set_atime (time hd)) ;;
  set_out (set_redshift (redshift hd)) ;;
  set_out (set_box100 (BoxSize hd)) ;;
  set_out (set_h100 (HubbleParam hd)) ;;
  h100 <- get_out o_h100 ;;
  atime <- get_out o_atime ;;
  set_out (set_Hz (hubble h100 atime (Omega0 hd) (OmegaLambda hd))).

(** Lines 40-43: [NumPart]. *)
Definition resolve_count (snap : GSnap) (StartPart MaxRead : Z) : Z :=
  if MaxRead >? 0
  then Z.min MaxRead (int64 (GetNpart snap PARTTYPE - StartPart))
  else int64 (GetNpart snap PARTTYPE - StartPart).

(** Lines 54-58. *)
Definition allocate (NumPart : Z) : M unit :=
  ok <- alloc_parts (int32 NumPart) ;;
  if ok then ret tt else exit 1.

(** [(1<<N_TYPE)-1-(1<<PARTTYPE)] *)
Definition other_types : Z :=
  Z.shiftl 1 N_TYPE - 1 - Z.shiftl 1 (Z.of_nat PARTTYPE).

(** Lines 60-61. *)
Definition read_kinematics (snap : GSnap) (NumPart StartPart : Z) : M unit :=
  GetBlock snap "POS " FPos NumPart StartPart other_types ;;
  GetBlock snap "VEL " FVel NumPart StartPart other_types.

(** Lines 68-71: the mask of the MASS block. *)
Definition mass_skip (hd : gadget_header) : Z :=
  fold_left
    (fun skip i =>
       if Double.truthy (mass hd i) then skip - Z.shiftl 1 (Z.of_nat i) else skip)
    types other_types.

(** Lines 63-73. *)
Definition resolve_mass (snap : GSnap) (NumPart StartPart : Z) : M unit :=
  let hd := GetHeader snap in
  if Double.truthy (mass hd PARTTYPE)
  then for_range 0 (Z.to_nat NumPart)
         (fun i => store FMass i (Single.of_double (mass hd PARTTYPE)))
  else GetBlock snap "MASS" FMass NumPart StartPart (mass_skip hd).

(** Lines 74-78: the body of the loop, and the loop. *)
Definition check_entry (i : nat) : M unit :=
  mi <- load FMass i ;;
  m0 <- load FMass 0 ;;
  if Fmt.neb mi m0 then exit 0 else ret tt.

Definition check_mass (NumPart : Z) : M unit :=
  for_range 0 (Z.to_nat NumPart) check_entry.

(** Line 79. The [float] operand is converted to [double]. *)
Definition baryon (m0 : float) (mass1 Om : double) : double :=
  Double.mul
    (Double.div (Double.of_float m0) (Double.add (Double.of_float m0) mass1))
    Om.

Definition baryon_fraction (snap : GSnap) : M unit :=
  let hd := GetHeader snap in
  m0 <- load FMass 0 ;;
  set_out (set_omegab (baryon m0 (mass hd 1) (Omega0 hd))).

(** Lines 97-99 and 101-103: [Ne[k] += scale(h[k])]. *)
Definition accumulate (NumPart : Z) (scale : float -> float) : M unit :=
  for_range 0 (Z.to_nat NumPart)
    (fun k =>
       ne <- load FNe k ;;
       hk <- load Fh k ;;
       store FNe k (Single.add ne (scale hk))).

(** Lines 86-113. *)
Definition read_cooling (snap : GSnap) (NumPart StartPart : Z) : M unit :=
  (if GADGET3
   then GetBlock snap "NE  " FNe NumPart StartPart 0
   else
     GetBlock snap "NHP " FNe NumPart StartPart 0 ;;
     GetBlock snap "NHEP" Fh NumPart StartPart 0 ;;
     accumulate NumPart (fun x => x) ;;
     GetBlock snap "NHEQ" Fh NumPart StartPart 0 ;;
     accumulate NumPart (fun x => Single.mul (Single.of_Z 2) x)) ;;
  (if HELIUM
   then GetBlock snap "NHE " FNHep NumPart StartPart 0
   else ret tt) ;;
  GetBlock snap "NH  " FNH0 NumPart StartPart 0.

(** Lines 81-116. *)
Definition read_gas (snap : GSnap) (NumPart StartPart : Z) : M unit :=
  if Nat.eqb PARTTYPE 0
  then
    GetBlock snap "U   " FU NumPart StartPart 0 ;;
    (if flag_cooling (GetHeader snap) =? 0
     then ret tt
     else read_cooling snap NumPart StartPart) ;;
    GetBlock snap "HSML" Fh NumPart StartPart 0
  else ret tt.

(** [load_snapshot], lines 24-158. The snapshot stands for the file
    [fname] once opened; the result is what the function returns. *)
Definition load_snapshot (snap : GSnap) (StartPart MaxRead : Z) : M Z :=
  read_header snap ;;
  let NumPart := resolve_count snap StartPart MaxRead in
  if NumPart =? 0
  then ret 0
  else
    allocate NumPart ;;
    read_kinematics snap NumPart StartPart ;;
    resolve_mass snap NumPart StartPart ;;
    check_mass NumPart ;;
    baryon_fraction snap ;;
    read_gas snap NumPart StartPart ;;
    ret NumPart.


(* =============================================================== *)
(** ** Describing what a step does *)

(** The array a field points to, empty for NULL. *)
Definition array (f : field) (s : state) : list float :=
  match get_field f (P s) with Some l => l | None => [] end.

(** A step that leaves the out-parameters alone, makes the calls [evs]
    and writes to the fields [fs] only. *)
Record effect (fs : list field) (evs : list event) (s s' : state) : Prop := {
  eff_out : out s' = out s;
  eff_trace : trace s' = trace s ++ evs;
  eff_fields : forall f, ~ In f fs -> get_field f (P s') = get_field f (P s)
}.

(** The field points to an array that starts with the values [d]. *)
Definition holds (f : field) (d : list float) (s : state) : Prop :=
  exists l, get_field f (P s) = Some l /\
            forall k v, nth_error d k = Some v -> nth_error l k = Some v.

(** The field points to an array of [n] floats. *)
Definition sized (f : field) (n : nat) (s : state) : Prop :=
  exists l, get_field f (P s) = Some l /\ length l = n.

(** A step that neither frees nor resizes an array. *)
Definition keeps_sizes (s s' : state) : Prop :=
  forall f n, sized f n s -> sized f n s'.

(** The fields [alloc_parts] allocates, in its order, and the size it
    asks for each. *)
Definition required_fields : list field :=
  [FVel; FPos; FMass; FU; FNH0; FNe] ++ (if HELIUM then [FNHep] else []) ++ [Fh].

Definition field_size (np : Z) (f : field) : Z :=
  match f with
  | FVel | FPos => vector_size np
  | _ => scalar_size np
  end.

(** What [malloc] returns in state [s]. *)
Definition fresh_array (s : state) (size : Z) : buffer :=
  option_map (fun init => map init (seq 0 (cells size))) (allocator (trace s) size).

(** A chain [a1 && a2 && ...] of allocations. *)
Fixpoint alloc_chain (l : list (field * Z)) : M bool :=
  match l with
  | [] => ret true
  | (f, size) :: l' => alloc_field f size <&&> alloc_chain l'
  end.

Definition failed (e : event) : Prop := exists size, e = Malloc size false.

Definition granted (fz : field * Z) : event := Malloc (snd fz) true.

Fixpoint zip_with {A B C} (f : A -> B -> C) (l1 : list A) (l2 : list B)
  : list C :=
  match l1, l2 with
  | a :: l1', b :: l2' => f a b :: zip_with f l1' l2'
  | _, _ => []
  end.

(** The values and the calls of each stage of a load of [n] particles
    from index [st] on. *)
Definition mass_values (snap : GSnap) (n st : Z) : list float :=
  let hd := GetHeader snap in
  if Double.truthy (mass hd PARTTYPE)
  then repeat (Single.of_double (mass hd PARTTYPE)) (Z.to_nat n)
  else block_range snap "MASS" n st (mass_skip hd).

Definition mass_events (snap : GSnap) (n st : Z) : list event :=
  let hd := GetHeader snap in
  if Double.truthy (mass hd PARTTYPE)
  then []
  else [GetBlockCall "MASS" n st (mass_skip hd)].

Definition electron_values (snap : GSnap) (n st : Z) : list float :=
  if GADGET3
  then block_range snap "NE  " n st 0
  else
    zip_with (fun ne x => Single.add ne (Single.mul (Single.of_Z 2) x))
      (zip_with (fun ne x => Single.add ne x)
         (block_range snap "NHP " n st 0) (block_range snap "NHEP" n st 0))
      (block_range snap "NHEQ" n st 0).

Definition cooling_events (n st : Z) : list event :=
  (if GADGET3
   then [GetBlockCall "NE  " n st 0]
   else [GetBlockCall "NHP " n st 0; GetBlockCall "NHEP" n st 0;
         GetBlockCall "NHEQ" n st 0]) ++
  (if HELIUM then [GetBlockCall "NHE " n st 0] else []) ++
  [GetBlockCall "NH  " n st 0].

Definition gas_events (snap : GSnap) (n st : Z) : list event :=
  if Nat.eqb PARTTYPE 0
  then [GetBlockCall "U   " n st 0] ++
       (if flag_cooling (GetHeader snap) =? 0 then [] else cooling_events n st) ++
       [GetBlockCall "HSML" n st 0]
  else [].

Definition load_events (snap : GSnap) (n st : Z) : list event :=
  map (fun f => Malloc (field_size (int32 n) f) true) required_fields ++
  [GetBlockCall "POS " n st other_types; GetBlockCall "VEL " n st other_types] ++
  mass_events snap n st ++
  gas_events snap n st.

(** The mass entries [i] and [0] of the array compare equal ([==]). *)
Definition same_mass (s : state) (i : nat) : Prop :=
  exists mi m0, nth_error (array FMass s) i = Some mi /\
                nth_error (array FMass s) 0 = Some m0 /\
                Fmt.neb mi m0 = false.

(** The mass entries [i] and [0] of the array compare different ([!=]). *)
Definition other_mass (s : state) (i : nat) : Prop :=
  exists mi m0, nth_error (array FMass s) i = Some mi /\
                nth_error (array FMass s) 0 = Some m0 /\
                Fmt.neb mi m0 = true.

(** The out-parameters lines 35-39 write. *)
Definition header_written (snap : GSnap) (s' : state) : Prop :=
  let hd := GetHeader snap in
  o_atime (out s') = time hd /\
  o_redshift (out s') = redshift hd /\
  o_Hz (out s') =
    hubble (HubbleParam hd) (time hd) (Omega0 hd) (OmegaLambda hd) /\
  o_box100 (out s') = BoxSize hd /\
  o_h100 (out s') = HubbleParam hd.

(** The memory a load of [n <> 0] particles from index [st] on leaves
    behind when it returns. *)
Record loaded (snap : GSnap) (n st : Z) (s s' : state) : Prop := {
  ld_trace : trace s' = trace s ++ load_events snap n st;
  ld_omegab :
    exists m0,
      nth_error (array FMass s') 0 = Some m0 /\
      o_omegab (out s') =
        baryon m0 (mass (GetHeader snap) 1) (Omega0 (GetHeader snap));
  ld_uniform : forall i, (i < Z.to_nat n)%nat -> same_mass s' i;
  ld_pos : holds FPos (block_range snap "POS " n st other_types) s';
  ld_vel : holds FVel (block_range snap "VEL " n st other_types) s';
  ld_mass : holds FMass (mass_values snap n st) s';
  ld_sized :
    forall f, In f required_fields -> sized f (cells (field_size (int32 n) f)) s';
  ld_gas :
    PARTTYPE = 0%nat ->
    holds FU (block_range snap "U   " n st 0) s' /\
    holds Fh (block_range snap "HSML" n st 0) s' /\
    (flag_cooling (GetHeader snap) <> 0 ->
     holds FNe (electron_values snap n st) s' /\
     holds FNH0 (block_range snap "NH  " n st 0) s' /\
     (HELIUM = true -> holds FNHep (block_range snap "NHE " n st 0) s'))
}.

(** Lines 35-73 of a load that reads particles: everything up to the
    mass array. *)
Definition load_masses (snap : GSnap) (StartPart MaxRead : Z) : M unit :=
  let NumPart := resolve_count snap StartPart MaxRead in
  read_header snap ;;
  allocate NumPart ;;
  read_kinematics snap NumPart StartPart ;;
  resolve_mass snap NumPart StartPart.

(** The fields a load fills from the snapshot, and the values it
    leaves in each for the window of [n] particles from [st] on. The
    other fields are allocated and left as [malloc] returned them. *)
Definition populated_fields (snap : GSnap) : list field :=
  [FPos; FVel; FMass] ++
  (if Nat.eqb PARTTYPE 0
   then [FU; Fh] ++
        (if flag_cooling (GetHeader snap) =? 0
         then []
         else [FNe; FNH0] ++ (if HELIUM then [FNHep] else []))
   else []).

Definition field_values (snap : GSnap) (f : field) (n st : Z) : list float :=
  match f with
  | FPos => block_range snap "POS " n st other_types
  | FVel => block_range snap "VEL " n st other_types
  | FMass => mass_values snap n st
  | FU => block_range snap "U   " n st 0
  | Fh => block_range snap "HSML" n st 0
  | FNe => electron_values snap n st
  | FNH0 => block_range snap "NH  " n st 0
  | FNHep => block_range snap "NHE " n st 0
  end.

(** The number of floats per particle in a field of [pdata]. *)
Definition width (f : field) : nat :=
  match f with FPos | FVel => 3%nat | _ => 1%nat end.

(** The blocks a load reads, each with its skip mask. *)
Definition blocks_read (snap : GSnap) : list (string * Z) :=
  [("POS "%string, other_types); ("VEL "%string, other_types)] ++
  (if Double.truthy (mass (GetHeader snap) PARTTYPE)
   then []
   else [("MASS"%string, mass_skip (GetHeader snap))]) ++
  (if Nat.eqb PARTTYPE 0
   then [("U   "%string, 0)] ++
        (if flag_cooling (GetHeader snap) =? 0
         then []
         else (if GADGET3
               then [("NE  "%string, 0)]
               else [("NHP "%string, 0); ("NHEP"%string, 0); ("NHEQ"%string, 0)]) ++
              (if HELIUM then [("NHE "%string, 0)] else []) ++
              [("NH  "%string, 0)]) ++
        [("HSML"%string, 0)]
   else []).

(** Every block the load reads holds the values of [total] particles. *)
Definition complete (snap : GSnap) (total : nat) : Prop :=
  forall tag skip,
    In (tag, skip) (blocks_read snap) ->
    (floats_per_particle tag * total <= length (block_data snap tag skip))%nat.

(** The pagination property as the specification states it: on a
    snapshot, the loads of [0, 50), of [50, 100) and of [0, 100) all
    return, and every field of the single load is the two pages in a
    row. *)
Definition pagination_as_stated (snap : GSnap) (s1 s2 s : state) : Prop :=
  exists p1 p2 p,
    load_snapshot snap 0 50 s1 = Ok 50 p1 /\
    load_snapshot snap 50 50 s2 = Ok 50 p2 /\
    load_snapshot snap 0 100 s = Ok 100 p /\
    forall f, In f required_fields -> array f p = array f p1 ++ array f p2.

(** The header fill as the specification states it: the mass of every
    loaded particle is the header entry of the type itself. *)
Definition header_fill_as_stated (snap : GSnap) (r : Z) (s' : state) : Prop :=
  forall i, (i < Z.to_nat r)%nat ->
            nth_error (array FMass s') i
            = Some (mass (GetHeader snap) PARTTYPE).

(** Every array of the buffer has the size of [n] particles. *)
Definition fits (n : Z) (s : state) : Prop :=
  forall f, In f required_fields -> sized f (width f * Z.to_nat n) s.

(** The allocator grants every request of a load of [n] particles. *)
Definition grants (n : Z) : Prop :=
  forall tr f, In f required_fields ->
               allocator tr (field_size (int32 n) f) <> None.

(** A step that returns on buffers of the size of [n] particles, and
    leaves them at that size. *)
Definition runs (n : Z) (m : M unit) : Prop :=
  forall s, fits n s -> exists s', m s = Ok tt s' /\ fits n s'.

(** Every value of the list compares equal ([==]) to the first. *)
Definition uniform (l : list float) : Prop :=
  forall i mi, nth_error l i = Some mi ->
               exists m0, nth_error l 0 = Some m0 /\ Fmt.neb mi m0 = false.

(* =============================================================== *)
(** ** The names of the blocks *)

(** Lines 30-31: the block names the reader is given when [GADGET3] is
    not defined. *)
Definition BlockNames : list string :=
  ["HEAD"; "POS "; "VEL "; "ID  "; "MASS"; "U   "; "RHO "; "NHP "; "NHEP";
   "NHEQ"; "NH  "; "NHE "; "HSML"; "SFR "]%string.

(* =============================================================== *)
(** ** The closing diagnostics *)

(** [P->f[i]] as a value, for an [int64_t] index. *)
Definition load_at (f : field) (i : Z) : M float :=
  if i <? 0 then undefined else load f (Z.to_nat i).

(** Lines 118-126: the array entries the closing [printf]s read, in the
    order they are printed. Nothing is printed unless the window starts
    at particle 0. The value of an entry is what the cell holds, whether
    the load wrote it or [malloc] left it: the memory does not record
    which cells were written, so that a read of a cell that was never
    written returns here, with the content the allocator gave it. *)
Definition report (NumPart StartPart : Z) : M (list float) :=
  if StartPart =? 0
  then
    p0 <- load FPos 0 ;;
    p1 <- load FPos 1 ;;
    p2 <- load FPos 2 ;;
    v0 <- load FVel 0 ;;
    v1 <- load FVel 1 ;;
    v2 <- load FVel 2 ;;
    m0 <- load FMass 0 ;;
    u <- load_at FU (int64 (NumPart - 1)) ;;
    ne <- load_at FNe (int64 (NumPart - 1)) ;;
    nh0 <- load_at FNH0 (int64 (NumPart - 1)) ;;
    hsml <- load_at Fh (int64 (NumPart - 1)) ;;
    ret [p0; p1; p2; v0; v1; v2; m0; u; ne; nh0; hsml]
  else ret [].

(** The entries lines 119-125 print for a load of [NumPart] particles:
    field and index. *)
Definition printed_entries (NumPart : Z) : list (field * Z) :=
  [(FPos, 0); (FPos, 1); (FPos, 2); (FVel, 0); (FVel, 1); (FVel, 2);
   (FMass, 0); (FU, NumPart - 1); (FNe, NumPart - 1); (FNH0, NumPart - 1);
   (Fh, NumPart - 1)].

(* =============================================================== *)
(** ** The lifetime of the arrays *)

(** [free] leaves the pointer it is given where it is: the field dangles
    until it is assigned again. The functions that acquire and release
    the buffer are computations over the memory and the list of the
    fields whose pointer dangles. *)
Definition L (A : Type) : Type := list field -> M (A * list field).

Definition ret_L {A} (a : A) : L A := fun d => ret (a, d).

Definition bind_L {A B} (m : L A) (k : A -> L B) : L B :=
  fun d => r <- m d ;; k (fst r) (snd r).

Notation "m ;;; k" := (bind_L m (fun _ => k))
  (at level 61, right associativity) : loader_scope.

Definition dangles (f : field) (d : list field) : bool :=
  if in_dec field_eq_dec f d then true else false.

(** [free(P->f)]: no operation on a null pointer, undefined on a pointer
    that was freed before. *)
Definition free (f : field) : L unit :=
  fun d =>
    b <- get_P f ;;
    if is_null b then ret (tt, d)
    else if dangles f d then undefined
    else ret (tt, f :: d).

(** [free_parts], lines 174-187. *)
Definition free_parts : L unit :=
  free FVel ;;;
  free FPos ;;;
  free FMass ;;;
  free FU ;;;
  free FNH0 ;;;
  free FNe ;;;
  free Fh ;;;
  (if HELIUM then free FNHep else ret_L tt).

(** [(P->f = (float * ) malloc(size))] with the lifetime of the pointer:
    the assignment replaces the pointer the field held, so the field
    dangles no more. *)
Definition alloc_field_L (f : field) (size : Z) : L bool :=
  fun d => ok <- alloc_field f size ;; ret (ok, remove field_eq_dec f d).

Definition and_then_L (a b : L bool) : L bool :=
  bind_L a (fun x => if x then b else ret_L false).
Infix "<&&&>" := and_then_L (at level 41, right associativity).

(** [alloc_parts], lines 160-172, with the lifetime of its pointers. *)
Definition alloc_parts_L (np : Z) : L bool :=
  alloc_field_L FVel (vector_size np) <&&&>
  alloc_field_L FPos (vector_size np) <&&&>
  alloc_field_L FMass (scalar_size np) <&&&>
  alloc_field_L FU (scalar_size np) <&&&>
  alloc_field_L FNH0 (scalar_size np) <&&&>
  alloc_field_L FNe (scalar_size np) <&&&>
  (if HELIUM
   then alloc_field_L FNHep (scalar_size np) <&&&>
        alloc_field_L Fh (scalar_size np)
   else alloc_field_L Fh (scalar_size np)).

(** The fields [free_parts] passes to [free], in its order. *)
Definition released_fields : list field :=
  [FVel; FPos; FMass; FU; FNH0; FNe; Fh] ++ (if HELIUM then [FNHep] else []).

Fixpoint free_chain (l : list field) : L unit :=
  match l with
  | [] => ret_L tt
  | f :: l' => free f ;;; free_chain l'
  end.

Fixpoint alloc_chain_L (l : list (field * Z)) : L bool :=
  match l with
  | [] => ret_L true
  | (f, size) :: l' => alloc_field_L f size <&&&> alloc_chain_L l'
  end.

(** The field holds a pointer to an array that has not been freed. *)
Definition live (f : field) (d : list field) (s : state) : Prop :=
  get_field f (P s) <> None /\ ~ In f d.

(** The field holds a pointer to an array that has been freed. *)
Definition dangling (f : field) (d : list field) (s : state) : Prop :=
  get_field f (P s) <> None /\ In f d.

(* =============================================================== *)
(** ** Describing what a load does *)

(** The bytes asked of [malloc] in a list of calls. *)
Definition bytes_requested (evs : list event) : Z :=
  fold_right
    (fun e sum => match e with Malloc size _ => size + sum | _ => sum end)
    0 evs.

(** The calls made before the allocation of field [f] in [alloc_parts]
    when every earlier allocation is granted. *)
Fixpoint requests_before (np : Z) (f : field) (l : list field) : list event :=
  match l with
  | [] => []
  | g :: l' =>
      if field_eq_dec f g then []
      else Malloc (field_size np g) true :: requests_before np f l'
  end.

(** Two memories with the same history of calls, the same arrays in the
    fields [alloc_parts] allocates and the same header scalars. *)
Definition same_buffer (s1 s2 : state) : Prop :=
  trace s1 = trace s2 /\
  (forall f, In f required_fields -> get_field f (P s1) = get_field f (P s2)) /\
  o_atime (out s1) = o_atime (out s2) /\
  o_redshift (out s1) = o_redshift (out s2) /\
  o_Hz (out s1) = o_Hz (out s2) /\
  o_box100 (out s1) = o_box100 (out s2) /\
  o_h100 (out s1) = o_h100 (out s2).

(** Two outcomes of the same kind, with the same result, in memories
    related by [R]. *)
Definition alike {A} (R : state -> state -> Prop) (o1 o2 : outcome A) : Prop :=
  match o1, o2 with
  | Ok a t1, Ok b t2 => a = b /\ R t1 t2
  | Exited c t1, Exited c' t2 => c = c' /\ R t1 t2
  | Undefined, Undefined => True
  | _, _ => False
  end.

(** A computation that cannot tell two such memories apart. *)
Definition blind {A} (m : M A) : Prop :=
  forall s1 s2, same_buffer s1 s2 -> alike same_buffer (m s1) (m s2).

(* =============================================================== *)
(** ** Sequencing *)

Lemma bind_Ok {A B} (m : M A) (k : A -> M B) s b s2 :
  bind m k s = Ok b s2 ->
  exists a s1, m s = Ok a s1 /\ k a s1 = Ok b s2.
Proof.
  unfold bind. destruct (m s) as [a s1| |]; try discriminate.
  intros H. exists a, s1. split; [reflexivity | exact H].
Qed.

Lemma bind_Exited {A B} (m : M A) (k : A -> M B) s c s2 :
  bind m k s = Exited c s2 ->
  m s = Exited c s2 \/ exists a s1, m s = Ok a s1 /\ k a s1 = Exited c s2.
Proof.
  unfold bind. destruct (m s) as [a s1|c' s1|]; try discriminate.
  - intros H. right. exists a, s1. split; [reflexivity | exact H].
  - intros H. injection H as -> ->. left. reflexivity.
Qed.

Lemma bind_Ok_intro {A B} (m : M A) (k : A -> M B) s a s1 :
  m s = Ok a s1 -> bind m k s = k a s1.
Proof. unfold bind. intros ->. reflexivity. Qed.

Lemma bind_Exited_intro {A B} (m : M A) (k : A -> M B) s c s1 :
  m s = Exited c s1 -> bind m k s = Exited c s1.
Proof. unfold bind. intros ->. reflexivity. Qed.

Lemma bind_assoc {A B C} (m : M A) (k : A -> M B) (k' : B -> M C) s :
  bind (bind m k) k' s = bind m (fun a => bind (k a) k') s.
Proof. unfold bind. destruct (m s); reflexivity. Qed.

(* =============================================================== *)
(** ** Fields and arrays *)

Lemma get_set_same f b p : get_field f (set_field f b p) = b.
Proof. destruct f; reflexivity. Qed.

Lemma get_set_other f g b p :
  f <> g -> get_field f (set_field g b p) = get_field f p.
Proof. destruct f, g; intros H; try reflexivity; contradiction H; reflexivity. Qed.

Lemma update_length {A} (l : list A) i v l' :
  update l i v = Some l' -> length l' = length l.
Proof.
  revert i l'. induction l as [|x l IH]; intros [|i] l' H; simpl in H;
    try discriminate.
  - injection H as <-. reflexivity.
  - destruct (update l i v) as [l1|] eqn:E; simpl in H; try discriminate.
    injection H as <-. simpl. f_equal. eapply IH. exact E.
Qed.

Lemma update_in_range {A} (l : list A) i v :
  (i < length l)%nat -> exists l', update l i v = Some l'.
Proof.
  revert i. induction l as [|x l IH]; intros [|i] H; simpl in *; try lia.
  - eexists. reflexivity.
  - destruct (IH i) as [l' E]; [lia|]. rewrite E. eexists. reflexivity.
Qed.

Lemma update_Some_range {A} (l : list A) i v l' :
  update l i v = Some l' -> (i < length l)%nat.
Proof.
  revert i l'. induction l as [|x l IH]; intros [|i] l' H; simpl in *;
    try discriminate; try lia.
  destruct (update l i v) eqn:E; simpl in H; try discriminate.
  apply IH in E. lia.
Qed.

Lemma nth_error_update_same {A} (l : list A) i v l' :
  update l i v = Some l' -> nth_error l' i = Some v.
Proof.
  revert i l'. induction l as [|x l IH]; intros [|i] l' H; simpl in H;
    try discriminate.
  - injection H as <-. reflexivity.
  - destruct (update l i v) as [l1|] eqn:E; simpl in H; try discriminate.
    injection H as <-. simpl. eapply IH. exact E.
Qed.

Lemma nth_error_update_other {A} (l : list A) i v l' j :
  update l i v = Some l' -> j <> i -> nth_error l' j = nth_error l j.
Proof.
  revert i l' j. induction l as [|x l IH]; intros [|i] l' j H Hj; simpl in H;
    try discriminate.
  - injection H as <-. destruct j; [contradiction Hj|]; reflexivity.
  - destruct (update l i v) as [l1|] eqn:E; simpl in H; try discriminate.
    injection H as <-. destruct j; simpl; [reflexivity|].
    eapply IH; [exact E | lia].
Qed.

Lemma overwrite_Some data dest l' :
  overwrite data dest = Some l' ->
  (length data <= length dest)%nat /\ l' = data ++ skipn (length data) dest.
Proof.
  unfold overwrite. destruct (Nat.leb_spec (length data) (length dest)).
  - intros H0. injection H0 as <-. split; [assumption | reflexivity].
  - discriminate.
Qed.

Lemma overwrite_length data dest l' :
  overwrite data dest = Some l' -> length l' = length dest.
Proof.
  intros H. apply overwrite_Some in H as [Hle ->].
  rewrite length_app, length_skipn. lia.
Qed.

Lemma overwrite_nth_data data dest l' k :
  overwrite data dest = Some l' -> (k < length data)%nat ->
  nth_error l' k = nth_error data k.
Proof.
  intros H Hk. apply overwrite_Some in H as [Hle ->].
  apply nth_error_app1. exact Hk.
Qed.

Lemma overwrite_exact data dest l' :
  overwrite data dest = Some l' -> length data = length dest -> l' = data.
Proof.
  intros H Hlen. apply overwrite_Some in H as [Hle ->].
  rewrite Hlen, skipn_all. apply app_nil_r.
Qed.


(* =============================================================== *)
(** ** Effects, composed *)

Lemma effect_refl s : effect [] [] s s.
Proof. split; [reflexivity | symmetry; apply app_nil_r | reflexivity]. Qed.

Lemma effect_trans fs1 evs1 fs2 evs2 s s1 s2 :
  effect fs1 evs1 s s1 -> effect fs2 evs2 s1 s2 ->
  effect (fs1 ++ fs2) (evs1 ++ evs2) s s2.
Proof.
  intros [O1 T1 F1] [O2 T2 F2]. split.
  - congruence.
  - rewrite T2, T1. symmetry. apply app_assoc.
  - intros f Hf. rewrite F2, F1; [reflexivity | |];
      intros Hin; apply Hf, in_or_app; auto.
Qed.

Lemma effect_weaken fs fs' evs s s' :
  effect fs evs s s' -> incl fs fs' -> effect fs' evs s s'.
Proof.
  intros [O T F] Hincl. split; [exact O | exact T |].
  intros f Hf. apply F. intros Hin. apply Hf, Hincl, Hin.
Qed.

Lemma holds_frame f d fs evs s s' :
  effect fs evs s s' -> ~ In f fs -> holds f d s -> holds f d s'.
Proof.
  intros E Hf (l & Hl & Hd). exists l. split; [|exact Hd].
  rewrite (eff_fields _ _ _ _ E f Hf). exact Hl.
Qed.

Lemma sized_frame f n fs evs s s' :
  effect fs evs s s' -> ~ In f fs -> sized f n s -> sized f n s'.
Proof.
  intros E Hf (l & Hl & Hn). exists l. split; [|exact Hn].
  rewrite (eff_fields _ _ _ _ E f Hf). exact Hl.
Qed.

Lemma holds_nth f d s k v :
  holds f d s -> nth_error d k = Some v -> nth_error (array f s) k = Some v.
Proof.
  intros (l & Hl & Hd) Hk. unfold array. rewrite Hl. apply Hd, Hk.
Qed.

Lemma holds_sized f d s :
  holds f d s -> sized f (length d) s -> get_field f (P s) = Some d.
Proof.
  intros (l & Hl & Hd) (l' & Hl' & Hn). rewrite Hl in Hl'.
  injection Hl' as <-. rewrite Hl. f_equal. apply nth_error_ext. intros k.
  destruct (nth_error d k) as [v|] eqn:E.
  - apply Hd, E.
  - apply nth_error_None. apply nth_error_None in E. lia.
Qed.

Lemma keeps_sizes_refl s : keeps_sizes s s.
Proof. intros f n H. exact H. Qed.

Lemma keeps_sizes_trans s s1 s2 :
  keeps_sizes s s1 -> keeps_sizes s1 s2 -> keeps_sizes s s2.
Proof. intros H1 H2 f n H. apply H2, H1, H. Qed.

(* =============================================================== *)
(** ** Array accesses and loops *)

Lemma load_Ok f i s v s' :
  load f i s = Ok v s' ->
  s' = s /\ exists l, get_field f (P s) = Some l /\ nth_error l i = Some v.
Proof.
  unfold load, bind, get_P. destruct (get_field f (P s)) as [l|]; [|discriminate].
  destruct (nth_error l i) as [x|] eqn:E; [|discriminate].
  unfold ret. intros H. injection H as <- <-. split; [reflexivity|].
  exists l. split; [reflexivity | exact E].
Qed.

Lemma load_in_range f i s l v :
  get_field f (P s) = Some l -> nth_error l i = Some v -> load f i s = Ok v s.
Proof. unfold load, bind, get_P. intros -> ->. reflexivity. Qed.

Lemma load_not_Exited f i s c s' : load f i s <> Exited c s'.
Proof.
  unfold load, bind, get_P. destruct (get_field f (P s)) as [l|]; [|discriminate].
  destruct (nth_error l i); discriminate.
Qed.

Lemma store_Ok f i v s s' :
  store f i v s = Ok tt s' ->
  effect [f] [] s s' /\
  exists l l', get_field f (P s) = Some l /\ update l i v = Some l' /\
               get_field f (P s') = Some l'.
Proof.
  unfold store, bind, get_P. destruct (get_field f (P s)) as [l|] eqn:Hl;
    [|discriminate].
  destruct (update l i v) as [l'|] eqn:E; [|discriminate].
  unfold set_P. intros H. injection H as <-. split.
  - split; simpl; [reflexivity | symmetry; apply app_nil_r |].
    intros g Hg. apply get_set_other. intros ->. apply Hg. left. reflexivity.
  - exists l, l'. simpl. rewrite get_set_same. auto.
Qed.

Lemma store_not_Exited f i v s c s' : store f i v s <> Exited c s'.
Proof.
  unfold store, bind, get_P. destruct (get_field f (P s)) as [l|]; [|discriminate].
  destruct (update l i v); discriminate.
Qed.

(** The invariant rule of the counted loop, for the runs that return. *)
Lemma for_range_Ok (I : nat -> state -> Prop) body n :
  forall from s s',
    for_range from n body s = Ok tt s' ->
    I from s ->
    (forall i si si', (from <= i < from + n)%nat ->
                      I i si -> body i si = Ok tt si' -> I (S i) si') ->
    I (from + n)%nat s'.
Proof.
  induction n as [|n IH]; intros from s s' H H0 Hstep; simpl in H.
  - unfold ret in H. injection H as <-. rewrite Nat.add_0_r. exact H0.
  - apply bind_Ok in H as ([] & s1 & Hb & Hrest).
    replace (from + S n)%nat with (S from + n)%nat by lia.
    eapply IH; [exact Hrest | |].
    + eapply Hstep; [lia | exact H0 | exact Hb].
    + intros i si si' Hi. apply Hstep. lia.
Qed.

Lemma for_range_not_Exited body n :
  (forall i s c s', body i s <> Exited c s') ->
  forall from s c s', for_range from n body s <> Exited c s'.
Proof.
  intros Hbody. induction n as [|n IH]; intros from s c s' H; simpl in H.
  - discriminate.
  - apply bind_Exited in H as [H | (a & s1 & _ & H)].
    + exact (Hbody _ _ _ _ H).
    + exact (IH _ _ _ _ H).
Qed.


(* =============================================================== *)
(** ** The snapshot reader *)

Lemma GetBlock_Ok snap tag dest c st k s s' :
  GetBlock snap tag dest c st k s = Ok tt s' ->
  effect [dest] [GetBlockCall tag c st k] s s' /\
  holds dest (block_range snap tag c st k) s' /\
  keeps_sizes s s'.
Proof.
  unfold GetBlock, bind, log, get_P. simpl.
  destruct (get_field dest (P s)) as [l|] eqn:Hl; [|discriminate].
  destruct (overwrite _ l) as [l'|] eqn:E; [|discriminate].
  unfold set_P. simpl. intros H. injection H as <-. split; [|split].
  - split; simpl; [reflexivity | reflexivity |].
    intros g Hg. apply get_set_other. intros ->. apply Hg. left. reflexivity.
  - exists l'. simpl. rewrite get_set_same. split; [reflexivity|].
    intros j v Hj. rewrite (overwrite_nth_data _ _ _ j E); [exact Hj|].
    apply nth_error_Some. congruence.
  - intros f n (l0 & H0 & Hn). destruct (field_eq_dec f dest) as [->|Hne].
    + exists l'. simpl. rewrite get_set_same.
      split; [reflexivity|]. apply overwrite_length in E. congruence.
    + exists l0. simpl. rewrite get_set_other by exact Hne. auto.
Qed.

Lemma GetBlock_not_Exited snap tag dest c st k s code s' :
  GetBlock snap tag dest c st k s <> Exited code s'.
Proof.
  unfold GetBlock, bind, log, get_P. simpl.
  destruct (get_field dest (P s)) as [l|]; [|discriminate].
  destruct (overwrite _ l); discriminate.
Qed.

(* =============================================================== *)
(** ** Allocation *)

Lemma alloc_field_eq f size s :
  alloc_field f size s =
  Ok (negb (is_null (fresh_array s size)))
     (mk_state (set_field f (fresh_array s size) (P s)) (out s)
               (trace s ++ [Malloc size (negb (is_null (fresh_array s size)))])).
Proof.
  unfold alloc_field, malloc, fresh_array, bind.
  destruct (allocator (trace s) size); reflexivity.
Qed.

Lemma fresh_array_sized s size l :
  fresh_array s size = Some l -> length l = cells size.
Proof.
  unfold fresh_array. destruct (allocator (trace s) size); simpl; [|discriminate].
  intros H. injection H as <-. rewrite length_map. apply length_seq.
Qed.

Lemma and_then_true (a : M bool) s : (a <&&> ret true) s = a s.
Proof. unfold and_then, bind. destruct (a s) as [[|] ?| |]; reflexivity. Qed.

Lemma and_then_ext (a b b' : M bool) :
  (forall s, b s = b' s) -> forall s, (a <&&> b) s = (a <&&> b') s.
Proof.
  intros H s. unfold and_then, bind. destruct (a s) as [[|] s1| |]; auto.
Qed.

Lemma alloc_parts_chain np s :
  alloc_parts np s =
  alloc_chain (map (fun f => (f, field_size np f)) required_fields) s.
Proof.
  unfold alloc_parts, required_fields. revert s.
  destruct HELIUM; cbn [map app alloc_chain field_size];
    repeat (apply and_then_ext; intros ?);
    symmetry; apply and_then_true.
Qed.


Lemma alloc_field_effect f size s :
  effect [f] [Malloc size (negb (is_null (fresh_array s size)))] s
    (mk_state (set_field f (fresh_array s size) (P s)) (out s)
              (trace s ++ [Malloc size (negb (is_null (fresh_array s size)))])).
Proof.
  split; simpl; [reflexivity | reflexivity |].
  intros g Hg. apply get_set_other. intros ->. apply Hg. left. reflexivity.
Qed.

Lemma granted_not_failed l : ~ Exists failed (map granted l).
Proof.
  intros H. apply Exists_exists in H as (e & Hin & size & ->).
  apply in_map_iff in Hin as (fz & Habs & _). discriminate.
Qed.

(** A chain of allocations stops at the first NULL and succeeds exactly
    when every allocation of the chain was made and granted. *)
Lemma alloc_chain_spec l :
  NoDup (map fst l) ->
  forall s, exists b s' evs,
    alloc_chain l s = Ok b s' /\
    effect (map fst l) evs s s' /\
    (b = false <-> Exists failed evs) /\
    (b = true <-> evs = map granted l) /\
    (b = true -> forall f size, In (f, size) l -> sized f (cells size) s') /\
    (b = false -> exists f, In f (map fst l) /\ get_field f (P s') = None).
Proof.
  induction l as [|[f size] l IH]; intros Hnd s.
  - exists true, s, []. simpl. split; [reflexivity|].
    split; [apply effect_refl|].
    split; [split; [discriminate | intros H; inversion H]|].
    split; [split; reflexivity|].
    split; [intros _ g z []|discriminate].
  - inversion Hnd as [|? ? Hnotin Hnd']; subst.
    simpl. unfold and_then at 1.
    rewrite (bind_Ok_intro _ _ _ _ _ (alloc_field_eq f size s)).
    pose proof (alloc_field_effect f size s) as E1.
    destruct (fresh_array s size) as [a|] eqn:Ha; simpl in *.
    + set (s1 := mk_state _ _ _) in *.
      destruct (IH Hnd' s1) as (b & s' & evs & Hrun & E2 & Hf & Ht & Hs & Hn).
      exists b, s', (Malloc size true :: evs).
      split; [exact Hrun|].
      split; [exact (effect_trans _ _ _ _ _ _ _ E1 E2)|].
      split; [|split; [|split]].
      * rewrite Hf. split; intros H.
        -- apply Exists_cons_tl. exact H.
        -- inversion H as [? ? [z Hz]|]; [discriminate | assumption].
      * rewrite Ht. unfold granted at 2. simpl. split; intros H.
        -- rewrite H. reflexivity.
        -- injection H as H. exact H.
      * intros Hb g z [Hin|Hin].
        -- injection Hin as <- <-.
           apply (sized_frame _ _ _ _ _ _ E2 Hnotin).
           exists a. unfold s1. simpl. rewrite get_set_same.
           split; [reflexivity|]. eapply fresh_array_sized. exact Ha.
        -- apply Hs; assumption.
      * intros Hb. destruct (Hn Hb) as (g & Hg & Hnull).
        exists g. split; [right; exact Hg | exact Hnull].
    + do 2 eexists. exists [Malloc size false].
      split; [reflexivity|].
      split; [apply (effect_weaken _ _ _ _ _ E1);
              intros g [<-|[]]; left; reflexivity|].
      split; [split; [intros _; apply Exists_cons_hd; exists size; reflexivity
                     | reflexivity]|].
      split; [split; discriminate|].
      split; [discriminate|].
      intros _. exists f. split; [left; reflexivity|].
      simpl. apply get_set_same.
Qed.


Lemma required_fields_NoDup : NoDup required_fields.
Proof.
  unfold required_fields.
  destruct HELIUM; simpl; repeat constructor; simpl; intuition discriminate.
Qed.

Lemma alloc_parts_spec np s :
  exists b s' evs,
    alloc_parts np s = Ok b s' /\
    effect required_fields evs s s' /\
    (b = false <-> Exists failed evs) /\
    (b = true <->
     evs = map (fun f => Malloc (field_size np f) true) required_fields) /\
    (b = true <->
     forall f, In f required_fields -> sized f (cells (field_size np f)) s').
Proof.
  set (l := map (fun f => (f, field_size np f)) required_fields).
  assert (Hfst : map fst l = required_fields).
  { unfold l. rewrite map_map. apply map_id. }
  assert (Hnd : NoDup (map fst l)).
  { rewrite Hfst. apply required_fields_NoDup. }
  destruct (alloc_chain_spec l Hnd s)
    as (b & s' & evs & Hrun & E & Hf & Ht & Hs & Hn).
  exists b, s', evs. rewrite alloc_parts_chain. fold l.
  rewrite Hfst in E, Hn.
  split; [exact Hrun|]. split; [exact E|]. split; [exact Hf|].
  split; [|split].
  - rewrite Ht. unfold l. rewrite map_map. reflexivity.
  - intros Hb f Hin. apply Hs; [exact Hb|].
    unfold l. apply in_map_iff. exists f. auto.
  - intros Hall. destruct b; [reflexivity|].
    destruct (Hn eq_refl) as (f & Hin & Hnull).
    destruct (Hall f Hin) as (a & Ha & _). congruence.
Qed.

Lemma allocate_Ok n s s' :
  allocate n s = Ok tt s' ->
  effect required_fields
    (map (fun f => Malloc (field_size (int32 n) f) true) required_fields) s s' /\
  forall f, In f required_fields ->
            sized f (cells (field_size (int32 n) f)) s'.
Proof.
  unfold allocate. intros H.
  destruct (alloc_parts_spec (int32 n) s) as (b & s1 & evs & Hrun & E & _ & Ht & Hs).
  rewrite (bind_Ok_intro _ _ _ _ _ Hrun) in H.
  destruct b; [|discriminate]. unfold ret in H. injection H as <-.
  destruct Ht as [Ht _]. rewrite (Ht eq_refl) in E.
  split; [exact E | apply Hs; reflexivity].
Qed.

Lemma allocate_Exited n s c s' :
  allocate n s = Exited c s' ->
  c = 1 /\ exists evs, effect required_fields evs s s' /\ Exists failed evs.
Proof.
  unfold allocate. intros H.
  destruct (alloc_parts_spec (int32 n) s) as (b & s1 & evs & Hrun & E & Hf & _).
  rewrite (bind_Ok_intro _ _ _ _ _ Hrun) in H.
  destruct b; [discriminate|]. unfold exit in H. injection H as <- <-.
  split; [reflexivity|]. exists evs. split; [exact E | apply Hf; reflexivity].
Qed.


(* =============================================================== *)
(** ** The loops of the loader *)

Lemma effect_again f s s1 s2 :
  effect [f] [] s s1 -> effect [f] [] s1 s2 -> effect [f] [] s s2.
Proof.
  intros E1 E2. apply (effect_weaken ([f] ++ [f])).
  - exact (effect_trans _ _ _ _ _ _ _ E1 E2).
  - intros g [<-|[<-|[]]]; left; reflexivity.
Qed.

Lemma store_keeps_sizes f i v s s' :
  store f i v s = Ok tt s' -> keeps_sizes s s'.
Proof.
  intros H. apply store_Ok in H as (E & l & l' & Hl & Hu & Hl').
  intros g n (l0 & H0 & Hn). destruct (field_eq_dec g f) as [->|Hne].
  - exists l'. split; [exact Hl'|]. apply update_length in Hu. congruence.
  - exists l0. split; [|exact Hn].
    rewrite (eff_fields _ _ _ _ E); [exact H0|].
    intros [<-|[]]. apply Hne. reflexivity.
Qed.

Lemma nth_error_zip_with {A B C} (f : A -> B -> C) l1 l2 k v :
  nth_error (zip_with f l1 l2) k = Some v ->
  exists a b, nth_error l1 k = Some a /\ nth_error l2 k = Some b /\ v = f a b.
Proof.
  revert l2 k. induction l1 as [|a l1 IH]; intros [|b l2] [|k] H; simpl in H;
    try discriminate.
  - injection H as <-. exists a, b. auto.
  - apply IH in H. exact H.
Qed.

Lemma zip_with_nth {A B C} (f : A -> B -> C) l1 l2 k a b :
  nth_error l1 k = Some a -> nth_error l2 k = Some b ->
  nth_error (zip_with f l1 l2) k = Some (f a b).
Proof.
  revert l2 k. induction l1 as [|x l1 IH]; intros [|y l2] [|k] H1 H2;
    simpl in *; try discriminate.
  - congruence.
  - apply IH; assumption.
Qed.

(** Lines 64-65: the first [n] entries become [v]. *)
Lemma fill_mass_Ok n v s s' :
  for_range 0 n (fun i => store FMass i v) s = Ok tt s' ->
  get_field FMass (P s) <> None ->
  effect [FMass] [] s s' /\ keeps_sizes s s' /\ holds FMass (repeat v n) s'.
Proof.
  intros H Halloc.
  pose (I := fun (i : nat) (si : state) =>
               effect [FMass] [] s si /\ keeps_sizes s si /\
               exists li, get_field FMass (P si) = Some li /\
                          forall k, (k < i)%nat -> nth_error li k = Some v).
  assert (HI : I (0 + n)%nat s').
  { apply (for_range_Ok I _ _ _ _ _ H).
    - split; [|split].
      + apply (effect_weaken []); [apply effect_refl | intros ? []].
      + apply keeps_sizes_refl.
      + destruct (get_field FMass (P s)) as [l|]; [|contradiction Halloc; reflexivity].
        exists l. split; [reflexivity | intros k Hk; lia].
    - intros i si si' _ (E & K & li & Hli & Hpre) Hstore.
      pose proof (store_keeps_sizes _ _ _ _ _ Hstore) as K'.
      apply store_Ok in Hstore as (E' & l & l' & Hl & Hu & Hl').
      split; [exact (effect_again _ _ _ _ E E')|].
      split; [exact (keeps_sizes_trans _ _ _ K K')|].
      exists l'. split; [exact Hl'|]. intros k Hk.
      assert (l = li) by congruence. subst l.
      destruct (Nat.eq_dec k i) as [->|Hne].
      + eapply nth_error_update_same. exact Hu.
      + rewrite (nth_error_update_other _ _ _ _ _ Hu Hne). apply Hpre. lia. }
  destruct HI as (E & K & li & Hli & Hpre).
  split; [exact E|]. split; [exact K|].
  exists li. split; [exact Hli|]. intros k x Hk.
  assert (Hlt : (k < n)%nat).
  { rewrite <- (repeat_length v n). apply nth_error_Some. congruence. }
  rewrite nth_error_repeat in Hk by exact Hlt. rewrite <- Hk. apply Hpre, Hlt.
Qed.

(** Lines 97-99 and 101-103: entry [k] of [Ne] becomes
    [Ne[k] + scale(h[k])] for every [k < n]. *)
Lemma accumulate_Ok n scale s s' dne dh :
  accumulate n scale s = Ok tt s' ->
  holds FNe dne s -> holds Fh dh s -> (length dne <= Z.to_nat n)%nat ->
  effect [FNe] [] s s' /\ keeps_sizes s s' /\
  holds FNe (zip_with (fun ne x => Single.add ne (scale x)) dne dh) s'.
Proof.
  unfold accumulate. intros H (l & Hl & Hdne) (lh & Hlh & Hdh) Hlen.
  pose (I := fun (i : nat) (si : state) =>
               effect [FNe] [] s si /\ keeps_sizes s si /\
               exists li, get_field FNe (P si) = Some li /\
                 (forall k a b, (k < i)%nat -> nth_error l k = Some a ->
                                nth_error lh k = Some b ->
                                nth_error li k = Some (Single.add a (scale b))) /\
                 (forall k, (i <= k)%nat -> nth_error li k = nth_error l k)).
  assert (HI : I (0 + Z.to_nat n)%nat s').
  { apply (for_range_Ok I _ _ _ _ _ H).
    - split; [|split].
      + apply (effect_weaken []); [apply effect_refl | intros ? []].
      + apply keeps_sizes_refl.
      + exists l. split; [exact Hl|]. split; [intros; lia | reflexivity].
    - intros i si si' _ (E & K & li & Hli & Hdone & Htodo) Hbody.
      apply bind_Ok in Hbody as (ne & s1 & Hne & Hbody).
      apply load_Ok in Hne as (-> & l1 & Hl1 & Hne).
      apply bind_Ok in Hbody as (hk & s2 & Hhk & Hstore).
      apply load_Ok in Hhk as (-> & l2 & Hl2 & Hhk).
      pose proof (store_keeps_sizes _ _ _ _ _ Hstore) as K'.
      apply store_Ok in Hstore as (E' & l3 & l' & Hl3 & Hu & Hl').
      assert (l1 = li) by congruence. assert (l3 = li) by congruence. subst l1 l3.
      assert (l2 = lh).
      { rewrite (eff_fields _ _ _ _ E) in Hl2; [congruence|].
        intros [Habs|[]]; discriminate. }
      subst l2.
      split; [exact (effect_again _ _ _ _ E E')|].
      split; [exact (keeps_sizes_trans _ _ _ K K')|].
      exists l'. split; [exact Hl'|]. split.
      + intros k a b Hk Ha Hb. destruct (Nat.eq_dec k i) as [->|Hki].
        * rewrite (nth_error_update_same _ _ _ _ Hu).
          rewrite Htodo in Hne by lia. congruence.
        * rewrite (nth_error_update_other _ _ _ _ _ Hu Hki).
          apply Hdone; [lia | assumption | assumption].
      + intros k Hk. rewrite (nth_error_update_other _ _ _ _ _ Hu) by lia.
        apply Htodo. lia. }
  destruct HI as (E & K & li & Hli & Hdone & _).
  split; [exact E|]. split; [exact K|].
  exists li. split; [exact Hli|]. intros k x Hk.
  apply nth_error_zip_with in Hk as (a & b & Ha & Hb & ->).
  apply Hdone; [|apply Hdne, Ha|apply Hdh, Hb].
  assert (k < length dne)%nat by (apply nth_error_Some; congruence). lia.
Qed.

Lemma accumulate_not_Exited n scale s c s' :
  accumulate n scale s <> Exited c s'.
Proof.
  unfold accumulate. apply for_range_not_Exited.
  intros i si c' si' H.
  apply bind_Exited in H as [H|(ne & s1 & _ & H)];
    [exact (load_not_Exited _ _ _ _ _ H)|].
  apply bind_Exited in H as [H|(hk & s2 & _ & H)];
    [exact (load_not_Exited _ _ _ _ _ H)|].
  exact (store_not_Exited _ _ _ _ _ _ H).
Qed.


(** The counted loop, for the runs that end the process. *)
Lemma for_range_Exited (I : nat -> state -> Prop) body n :
  forall from s c s',
    for_range from n body s = Exited c s' ->
    I from s ->
    (forall i si si', (from <= i < from + n)%nat ->
                      I i si -> body i si = Ok tt si' -> I (S i) si') ->
    exists i si, (from <= i < from + n)%nat /\ I i si /\
                 body i si = Exited c s'.
Proof.
  induction n as [|n IH]; intros from s c s' H H0 Hstep; simpl in H.
  - discriminate.
  - apply bind_Exited in H as [H | ([] & s1 & Hb & Hrest)].
    + exists from, s. split; [lia|]. split; assumption.
    + destruct (IH (S from) s1 c s' Hrest) as (i & si & Hi & HIi & Hex).
      * eapply Hstep; [lia | exact H0 | exact Hb].
      * intros j sj sj' Hj. apply Hstep. lia.
      * exists i, si. split; [lia|]. split; assumption.
Qed.

Lemma check_entry_Ok i s s' :
  check_entry i s = Ok tt s' -> s' = s /\ same_mass s i.
Proof.
  unfold check_entry. intros H.
  apply bind_Ok in H as (mi & s1 & Hmi & H).
  apply load_Ok in Hmi as (-> & l & Hl & Hmi).
  apply bind_Ok in H as (m0 & s2 & Hm0 & H).
  apply load_Ok in Hm0 as (-> & l0 & Hl0 & Hm0).
  assert (l0 = l) by congruence. subst l0.
  destruct (Fmt.neb mi m0) eqn:E; [discriminate|].
  unfold ret in H. injection H as <-. split; [reflexivity|].
  exists mi, m0. unfold array. rewrite Hl. auto.
Qed.

Lemma check_entry_Exited i s c s' :
  check_entry i s = Exited c s' -> c = 0 /\ s' = s /\ other_mass s i.
Proof.
  unfold check_entry. intros H.
  apply bind_Exited in H as [H|(mi & s1 & Hmi & H)];
    [destruct (load_not_Exited _ _ _ _ _ H)|].
  apply load_Ok in Hmi as (-> & l & Hl & Hmi).
  apply bind_Exited in H as [H|(m0 & s2 & Hm0 & H)];
    [destruct (load_not_Exited _ _ _ _ _ H)|].
  apply load_Ok in Hm0 as (-> & l0 & Hl0 & Hm0).
  assert (l0 = l) by congruence. subst l0.
  destruct (Fmt.neb mi m0) eqn:E; [|discriminate].
  unfold exit in H. injection H as <- <-.
  split; [reflexivity|]. split; [reflexivity|].
  exists mi, m0. unfold array. rewrite Hl. auto.
Qed.

Lemma check_mass_Ok n s s' :
  check_mass n s = Ok tt s' ->
  s' = s /\ forall i, (i < Z.to_nat n)%nat -> same_mass s i.
Proof.
  unfold check_mass. intros H.
  pose (I := fun (i : nat) (si : state) =>
               si = s /\ forall j, (j < i)%nat -> same_mass s j).
  apply (for_range_Ok I) in H.
  - exact H.
  - split; [reflexivity | intros; lia].
  - intros i si si' _ (-> & Hpre) Hbody.
    apply check_entry_Ok in Hbody as (-> & Hi).
    split; [reflexivity|]. intros j Hj.
    destruct (Nat.eq_dec j i) as [->|]; [exact Hi | apply Hpre; lia].
Qed.

Lemma check_mass_Exited n s c s' :
  check_mass n s = Exited c s' ->
  c = 0 /\ s' = s /\ exists i, (i < Z.to_nat n)%nat /\ other_mass s i.
Proof.
  unfold check_mass. intros H.
  apply (for_range_Exited (fun _ si => si = s)) in H.
  - destruct H as (i & si & Hi & -> & Hbody).
    apply check_entry_Exited in Hbody as (-> & -> & Hother).
    split; [reflexivity|]. split; [reflexivity|]. exists i. split; [lia|exact Hother].
  - reflexivity.
  - intros i si si' _ -> Hbody. apply check_entry_Ok in Hbody as [-> _]. reflexivity.
Qed.

Lemma check_from_fatal n :
  forall from s i,
    (from <= i < from + n)%nat -> other_mass s i ->
    for_range from n check_entry s = Exited 0 s.
Proof.
  induction n as [|n IH]; intros from s i Hi Hother; [lia|].
  simpl. destruct Hother as (mi & m0 & Hmi & Hm0 & Hne).
  unfold array in Hmi, Hm0.
  destruct (get_field FMass (P s)) as [l|] eqn:Hl;
    [|destruct i; discriminate].
  destruct (nth_error l from) as [mf|] eqn:Hmf.
  - assert (Hentry : check_entry from s =
                     if Fmt.neb mf m0 then Exited 0 s else Ok tt s).
    { unfold check_entry.
      rewrite (bind_Ok_intro _ _ _ _ _ (load_in_range _ _ _ _ _ Hl Hmf)).
      rewrite (bind_Ok_intro _ _ _ _ _ (load_in_range _ _ _ _ _ Hl Hm0)).
      destruct (Fmt.neb mf m0); reflexivity. }
    destruct (Fmt.neb mf m0) eqn:E.
    + apply bind_Exited_intro. exact Hentry.
    + rewrite (bind_Ok_intro _ _ _ _ _ Hentry).
      apply (IH (S from) s i).
      * assert (i <> from) by (intros ->; congruence). lia.
      * exists mi, m0. unfold array. rewrite Hl. auto.
  - apply nth_error_None in Hmf.
    assert (i < length l)%nat by (apply nth_error_Some; congruence). lia.
Qed.

Lemma check_mass_fatal n s i :
  (i < Z.to_nat n)%nat -> other_mass s i -> check_mass n s = Exited 0 s.
Proof.
  intros Hi Hother. unfold check_mass.
  apply (check_from_fatal _ 0%nat s i); [lia | exact Hother].
Qed.


(* =============================================================== *)
(** ** The stages of the loader *)

Ltac widen E :=
  eapply effect_weaken; [exact E | intros ? ?; simpl in *; tauto].

Lemma read_header_eq snap s :
  read_header snap s =
  Ok tt (mk_state (P s)
           (mk_outputs (time (GetHeader snap)) (redshift (GetHeader snap))
              (hubble (HubbleParam (GetHeader snap)) (time (GetHeader snap))
                      (Omega0 (GetHeader snap)) (OmegaLambda (GetHeader snap)))
              (BoxSize (GetHeader snap)) (HubbleParam (GetHeader snap))
              (o_omegab (out s)))
           (trace s)).
Proof. reflexivity. Qed.

Lemma read_kinematics_Ok snap n st s s' :
  read_kinematics snap n st s = Ok tt s' ->
  effect [FPos; FVel]
    [GetBlockCall "POS " n st other_types; GetBlockCall "VEL " n st other_types]
    s s' /\
  keeps_sizes s s' /\
  holds FPos (block_range snap "POS " n st other_types) s' /\
  holds FVel (block_range snap "VEL " n st other_types) s'.
Proof.
  unfold read_kinematics. intros H.
  apply bind_Ok in H as ([] & s1 & H1 & H2).
  apply GetBlock_Ok in H1 as (E1 & D1 & K1).
  apply GetBlock_Ok in H2 as (E2 & D2 & K2).
  split; [exact (effect_trans _ _ _ _ _ _ _ E1 E2)|].
  split; [exact (keeps_sizes_trans _ _ _ K1 K2)|].
  split; [|exact D2].
  apply (holds_frame _ _ _ _ _ _ E2); [|exact D1].
  intros [Habs|[]]; discriminate.
Qed.

Lemma read_kinematics_not_Exited snap n st s c s' :
  read_kinematics snap n st s <> Exited c s'.
Proof.
  unfold read_kinematics. intros H.
  apply bind_Exited in H as [H|(a & s1 & _ & H)];
    exact (GetBlock_not_Exited _ _ _ _ _ _ _ _ _ H).
Qed.

Lemma resolve_mass_Ok snap n st s s' :
  resolve_mass snap n st s = Ok tt s' ->
  get_field FMass (P s) <> None ->
  effect [FMass] (mass_events snap n st) s s' /\
  keeps_sizes s s' /\
  holds FMass (mass_values snap n st) s'.
Proof.
  unfold resolve_mass, mass_events, mass_values. intros H Halloc.
  destruct (Double.truthy (mass (GetHeader snap) PARTTYPE)).
  - apply fill_mass_Ok in H; assumption.
  - apply GetBlock_Ok in H as (E & D & K). auto.
Qed.

Lemma resolve_mass_not_Exited snap n st s c s' :
  resolve_mass snap n st s <> Exited c s'.
Proof.
  unfold resolve_mass.
  destruct (Double.truthy (mass (GetHeader snap) PARTTYPE)).
  - apply for_range_not_Exited. intros i si c' si'. apply store_not_Exited.
  - apply GetBlock_not_Exited.
Qed.

Lemma baryon_fraction_Ok snap s s' :
  baryon_fraction snap s = Ok tt s' ->
  exists m0,
    nth_error (array FMass s) 0 = Some m0 /\
    s' = mk_state (P s)
           (set_omegab
              (baryon m0 (mass (GetHeader snap) 1) (Omega0 (GetHeader snap)))
              (out s))
           (trace s).
Proof.
  unfold baryon_fraction. intros H.
  apply bind_Ok in H as (m0 & s1 & Hm0 & H).
  apply load_Ok in Hm0 as (-> & l & Hl & Hm0).
  unfold set_out in H. injection H as <-.
  exists m0. unfold array. rewrite Hl. auto.
Qed.

Lemma baryon_fraction_not_Exited snap s c s' :
  baryon_fraction snap s <> Exited c s'.
Proof.
  unfold baryon_fraction. intros H.
  apply bind_Exited in H as [H|(m0 & s1 & _ & H)];
    [exact (load_not_Exited _ _ _ _ _ H) | discriminate].
Qed.

Lemma block_range_length snap tag n st k :
  (length (block_range snap tag n st k)
   <= floats_per_particle tag * Z.to_nat n)%nat.
Proof. unfold block_range. apply firstn_le_length. Qed.

Lemma electron_Ok snap n st s s' :
  (if GADGET3
   then GetBlock snap "NE  " FNe n st 0
   else
     GetBlock snap "NHP " FNe n st 0 ;;
     GetBlock snap "NHEP" Fh n st 0 ;;
     accumulate n (fun x => x) ;;
     GetBlock snap "NHEQ" Fh n st 0 ;;
     accumulate n (fun x => Single.mul (Single.of_Z 2) x)) s = Ok tt s' ->
  effect [FNe; Fh]
    (if GADGET3
     then [GetBlockCall "NE  " n st 0]
     else [GetBlockCall "NHP " n st 0; GetBlockCall "NHEP" n st 0;
           GetBlockCall "NHEQ" n st 0]) s s' /\
  keeps_sizes s s' /\
  holds FNe (electron_values snap n st) s'.
Proof.
  unfold electron_values. destruct GADGET3; intros H.
  - apply GetBlock_Ok in H as (E & D & K).
    split; [widen E|]. auto.
  - apply bind_Ok in H as ([] & s1 & H1 & H).
    apply bind_Ok in H as ([] & s2 & H2 & H).
    apply bind_Ok in H as ([] & s3 & H3 & H).
    apply bind_Ok in H as ([] & s4 & H4 & H5).
    apply GetBlock_Ok in H1 as (E1 & D1 & K1).
    apply GetBlock_Ok in H2 as (E2 & D2 & K2).
    assert (D1' : holds FNe (block_range snap "NHP " n st 0) s2).
    { apply (holds_frame _ _ _ _ _ _ E2); [|exact D1].
      intros [Habs|[]]; discriminate. }
    assert (Hlen : forall tag, floats_per_particle tag = 1%nat ->
              (length (block_range snap tag n st 0) <= Z.to_nat n)%nat).
    { intros tag Hw. pose proof (block_range_length snap tag n st 0) as Hl.
      rewrite Hw in Hl. lia. }
    apply (accumulate_Ok _ _ _ _ _ _) with (1 := H3) (2 := D1') (3 := D2)
      in Hlen as (E3 & K3 & D3); [|reflexivity].
    apply GetBlock_Ok in H4 as (E4 & D4 & K4).
    assert (D3' : holds FNe
                    (zip_with (fun ne x => Single.add ne x)
                       (block_range snap "NHP " n st 0)
                       (block_range snap "NHEP" n st 0)) s4).
    { apply (holds_frame _ _ _ _ _ _ E4); [|exact D3].
      intros [Habs|[]]; discriminate. }
    eapply accumulate_Ok in H5 as (E5 & K5 & D5); [|exact D3'|exact D4|].
    + split; [|split; [|exact D5]].
      * pose proof (effect_trans _ _ _ _ _ _ _ E1
                      (effect_trans _ _ _ _ _ _ _ E2
                         (effect_trans _ _ _ _ _ _ _ E3
                            (effect_trans _ _ _ _ _ _ _ E4 E5)))) as E.
        widen E.
      * exact (keeps_sizes_trans _ _ _ K1
                 (keeps_sizes_trans _ _ _ K2
                    (keeps_sizes_trans _ _ _ K3
                       (keeps_sizes_trans _ _ _ K4 K5)))).
    + clear. pose proof (block_range_length snap "NHP " n st 0) as Hl.
      change (floats_per_particle "NHP ") with 1%nat in Hl.
      revert Hl. generalize (block_range snap "NHP " n st 0) as l1.
      generalize (block_range snap "NHEP" n st 0) as l2.
      intros l2 l1. revert l2. generalize (Z.to_nat n) as m.
      induction l1 as [|a l1 IH]; intros m [|b l2] Hl; simpl in *; try lia.
      specialize (IH (pred m) l2). lia.
Qed.


Lemma read_cooling_Ok snap n st s s' :
  read_cooling snap n st s = Ok tt s' ->
  effect [FNe; Fh; FNHep; FNH0] (cooling_events n st) s s' /\
  keeps_sizes s s' /\
  holds FNe (electron_values snap n st) s' /\
  holds FNH0 (block_range snap "NH  " n st 0) s' /\
  (HELIUM = true -> holds FNHep (block_range snap "NHE " n st 0) s').
Proof.
  unfold read_cooling, cooling_events. intros H.
  apply bind_Ok in H as ([] & s1 & H1 & H).
  apply bind_Ok in H as ([] & s2 & H2 & H3).
  apply electron_Ok in H1 as (E1 & K1 & D1).
  apply GetBlock_Ok in H3 as (E3 & D3 & K3).
  destruct HELIUM.
  - apply GetBlock_Ok in H2 as (E2 & D2 & K2).
    pose proof (effect_trans _ _ _ _ _ _ _ E1
                  (effect_trans _ _ _ _ _ _ _ E2 E3)) as E.
    split; [widen E|].
    split; [exact (keeps_sizes_trans _ _ _ K1 (keeps_sizes_trans _ _ _ K2 K3))|].
    split; [|split; [exact D3|]].
    + apply (holds_frame _ _ _ _ _ _ E3); [intros [Habs|[]]; discriminate|].
      apply (holds_frame _ _ _ _ _ _ E2); [intros [Habs|[]]; discriminate|].
      exact D1.
    + intros _. apply (holds_frame _ _ _ _ _ _ E3); [|exact D2].
      intros [Habs|[]]; discriminate.
  - unfold ret in H2. injection H2 as <-.
    pose proof (effect_trans _ _ _ _ _ _ _ E1 E3) as E.
    split; [widen E|].
    split; [exact (keeps_sizes_trans _ _ _ K1 K3)|].
    split; [|split; [exact D3|discriminate]].
    apply (holds_frame _ _ _ _ _ _ E3); [intros [Habs|[]]; discriminate|].
    exact D1.
Qed.

Lemma read_cooling_not_Exited snap n st s c s' :
  read_cooling snap n st s <> Exited c s'.
Proof.
  unfold read_cooling. intros H.
  apply bind_Exited in H as [H|([] & s1 & _ & H)].
  - destruct GADGET3; [exact (GetBlock_not_Exited _ _ _ _ _ _ _ _ _ H)|].
    apply bind_Exited in H as [H|([] & s1 & _ & H)];
      [exact (GetBlock_not_Exited _ _ _ _ _ _ _ _ _ H)|].
    apply bind_Exited in H as [H|([] & s2 & _ & H)];
      [exact (GetBlock_not_Exited _ _ _ _ _ _ _ _ _ H)|].
    apply bind_Exited in H as [H|([] & s3 & _ & H)];
      [exact (accumulate_not_Exited _ _ _ _ _ H)|].
    apply bind_Exited in H as [H|([] & s4 & _ & H)];
      [exact (GetBlock_not_Exited _ _ _ _ _ _ _ _ _ H)|].
    exact (accumulate_not_Exited _ _ _ _ _ H).
  - apply bind_Exited in H as [H|([] & s2 & _ & H)].
    + destruct HELIUM; [exact (GetBlock_not_Exited _ _ _ _ _ _ _ _ _ H)|].
      discriminate.
    + exact (GetBlock_not_Exited _ _ _ _ _ _ _ _ _ H).
Qed.

Lemma read_gas_Ok snap n st s s' :
  read_gas snap n st s = Ok tt s' ->
  effect [FU; FNe; Fh; FNHep; FNH0] (gas_events snap n st) s s' /\
  keeps_sizes s s' /\
  (PARTTYPE = 0%nat ->
   holds FU (block_range snap "U   " n st 0) s' /\
   holds Fh (block_range snap "HSML" n st 0) s' /\
   (flag_cooling (GetHeader snap) <> 0 ->
    holds FNe (electron_values snap n st) s' /\
    holds FNH0 (block_range snap "NH  " n st 0) s' /\
    (HELIUM = true -> holds FNHep (block_range snap "NHE " n st 0) s'))).
Proof.
  unfold read_gas, gas_events. intros H.
  destruct (Nat.eqb_spec PARTTYPE 0) as [Hgas|Hother].
  - apply bind_Ok in H as ([] & s1 & H1 & H).
    apply bind_Ok in H as ([] & s2 & H2 & H3).
    apply GetBlock_Ok in H1 as (E1 & D1 & K1).
    apply GetBlock_Ok in H3 as (E3 & D3 & K3).
    destruct (Z.eqb_spec (flag_cooling (GetHeader snap)) 0) as [Hoff|Hon].
    + unfold ret in H2. injection H2 as <-.
      pose proof (effect_trans _ _ _ _ _ _ _ E1 E3) as E.
      split; [widen E|].
      split; [exact (keeps_sizes_trans _ _ _ K1 K3)|].
      intros _. split; [|split; [exact D3|intros Habs; contradiction]].
      apply (holds_frame _ _ _ _ _ _ E3); [|exact D1].
      intros [Habs|[]]; discriminate.
    + apply read_cooling_Ok in H2 as (E2 & K2 & DNe & DNH & DHe).
      pose proof (effect_trans _ _ _ _ _ _ _ E1
                    (effect_trans _ _ _ _ _ _ _ E2 E3)) as E.
      split; [widen E|].
      split; [exact (keeps_sizes_trans _ _ _ K1 (keeps_sizes_trans _ _ _ K2 K3))|].
      intros _. split; [|split; [exact D3|intros _; split; [|split]]].
      * apply (holds_frame _ _ _ _ _ _ E3); [intros [Habs|[]]; discriminate|].
        apply (holds_frame _ _ _ _ _ _ E2); [|exact D1].
        intros [Habs|[Habs|[Habs|[Habs|[]]]]]; discriminate.
      * apply (holds_frame _ _ _ _ _ _ E3); [|exact DNe].
        intros [Habs|[]]; discriminate.
      * apply (holds_frame _ _ _ _ _ _ E3); [|exact DNH].
        intros [Habs|[]]; discriminate.
      * intros Hhe. apply (holds_frame _ _ _ _ _ _ E3); [|exact (DHe Hhe)].
        intros [Habs|[]]; discriminate.
  - unfold ret in H. injection H as <-.
    split; [apply (effect_weaken []); [apply effect_refl | intros ? []]|].
    split; [apply keeps_sizes_refl|]. intros Habs. contradiction.
Qed.

Lemma read_gas_not_Exited snap n st s c s' :
  read_gas snap n st s <> Exited c s'.
Proof.
  unfold read_gas. intros H.
  destruct (Nat.eqb PARTTYPE 0); [|discriminate].
  apply bind_Exited in H as [H|([] & s1 & _ & H)];
    [exact (GetBlock_not_Exited _ _ _ _ _ _ _ _ _ H)|].
  apply bind_Exited in H as [H|([] & s2 & _ & H)].
  - destruct (flag_cooling (GetHeader snap) =? 0); [discriminate|].
    exact (read_cooling_not_Exited _ _ _ _ _ _ H).
  - exact (GetBlock_not_Exited _ _ _ _ _ _ _ _ _ H).
Qed.


(* =============================================================== *)
(** ** The whole load *)

Lemma load_snapshot_split snap st mx s :
  resolve_count snap st mx <> 0 ->
  load_snapshot snap st mx s =
  (load_masses snap st mx ;;
   check_mass (resolve_count snap st mx) ;;
   baryon_fraction snap ;;
   read_gas snap (resolve_count snap st mx) st ;;
   ret (resolve_count snap st mx)) s.
Proof.
  intros Hn. unfold load_snapshot, load_masses.
  apply Z.eqb_neq in Hn. rewrite !(bind_Ok_intro _ _ _ _ _ (read_header_eq snap s)).
  rewrite Hn. set (s0 := mk_state _ _ _).
  rewrite (bind_assoc (read_header snap)).
  rewrite (bind_Ok_intro _ _ _ _ _ (read_header_eq snap s)). fold s0.
  rewrite !bind_assoc. unfold bind.
  destruct (allocate _ s0) as [[] s1| |]; try reflexivity.
  destruct (read_kinematics _ _ _ s1) as [[] s2| |]; reflexivity.
Qed.

Lemma array_frame f fs evs s s' :
  effect fs evs s s' -> ~ In f fs -> array f s' = array f s.
Proof.
  intros E Hf. unfold array. rewrite (eff_fields _ _ _ _ E f Hf). reflexivity.
Qed.

Lemma load_snapshot_Ok snap st mx s r s' :
  load_snapshot snap st mx s = Ok r s' ->
  r = resolve_count snap st mx /\
  header_written snap s' /\
  (resolve_count snap st mx = 0 ->
   P s' = P s /\ trace s' = trace s /\ o_omegab (out s') = o_omegab (out s)) /\
  (resolve_count snap st mx <> 0 ->
   loaded snap (resolve_count snap st mx) st s s').
Proof.
  unfold load_snapshot. rewrite (bind_Ok_intro _ _ _ _ _ (read_header_eq snap s)).
  set (n := resolve_count snap st mx). set (s0 := mk_state _ _ _).
  destruct (Z.eqb_spec n 0) as [Hz|Hnz]; intros H.
  - unfold ret in H. injection H as <- <-. unfold header_written, s0. simpl.
    split; [congruence|]. split; [auto 6|]. split; [auto|]. intros Habs.
    contradiction.
  - apply bind_Ok in H as ([] & s1 & H1 & H).
    apply bind_Ok in H as ([] & s2 & H2 & H).
    apply bind_Ok in H as ([] & s3 & H3 & H).
    apply bind_Ok in H as ([] & s4 & H4 & H).
    apply bind_Ok in H as ([] & s5 & H5 & H).
    apply bind_Ok in H as ([] & s6 & H6 & H).
    unfold ret in H. injection H as <- <-.
    apply allocate_Ok in H1 as (E1 & S1).
    apply read_kinematics_Ok in H2 as (E2 & K2 & DPos & DVel).
    apply resolve_mass_Ok in H3 as (E3 & K3 & DMass).
    2:{ destruct (K2 FMass _ (S1 FMass ltac:(unfold required_fields; simpl; tauto)))
          as (l & Hl & _). congruence. }
    apply check_mass_Ok in H4 as (-> & Huni).
    apply baryon_fraction_Ok in H5 as (m0 & Hm0 & ->).
    apply read_gas_Ok in H6 as (E6 & K6 & DGas).
    set (s5 := mk_state (P s3) _ (trace s3)) in *.
      assert (Hout : out s6 = set_omegab
                     (baryon m0 (mass (GetHeader snap) 1) (Omega0 (GetHeader snap)))
                     (out s0)).
    { rewrite (eff_out _ _ _ _ E6). unfold s5. simpl.
      rewrite (eff_out _ _ _ _ E3), (eff_out _ _ _ _ E2), (eff_out _ _ _ _ E1).
      reflexivity. }
    assert (HMass : array FMass s6 = array FMass s3).
    { rewrite (array_frame _ _ _ _ _ E6); [reflexivity|].
      intros [Habs|[Habs|[Habs|[Habs|[Habs|[]]]]]]; discriminate. }
    split; [reflexivity|]. split; [|split; [intros Habs; contradiction|]].
    + unfold header_written. rewrite Hout. unfold s0. simpl. auto.
    + intros _. split.
      * rewrite (eff_trace _ _ _ _ E6). unfold s5. simpl.
        rewrite (eff_trace _ _ _ _ E3), (eff_trace _ _ _ _ E2),
          (eff_trace _ _ _ _ E1).
        unfold load_events, s0. simpl trace. rewrite <- !app_assoc. reflexivity.
      * exists m0. rewrite HMass, Hout. simpl. auto.
      * intros i Hi. destruct (Huni i Hi) as (mi & m0' & ? & ? & ?).
        exists mi, m0'. rewrite HMass. auto.
      * apply (holds_frame _ _ _ _ _ _ E6);
          [intros [Habs|[Habs|[Habs|[Habs|[Habs|[]]]]]]; discriminate|].
        change (holds FPos (block_range snap "POS " n st other_types) s3).
        apply (holds_frame _ _ _ _ _ _ E3); [|exact DPos].
        intros [Habs|[]]; discriminate.
      * apply (holds_frame _ _ _ _ _ _ E6);
          [intros [Habs|[Habs|[Habs|[Habs|[Habs|[]]]]]]; discriminate|].
        change (holds FVel (block_range snap "VEL " n st other_types) s3).
        apply (holds_frame _ _ _ _ _ _ E3); [|exact DVel].
        intros [Habs|[]]; discriminate.
      * apply (holds_frame _ _ _ _ _ _ E6);
          [intros [Habs|[Habs|[Habs|[Habs|[Habs|[]]]]]]; discriminate|].
        exact DMass.
      * intros f Hf. apply K6. exact (K3 f _ (K2 f _ (S1 f Hf))).
      * exact DGas.
Qed.


(* =============================================================== *)
(** ** The particle window *)

Lemma int64_small z : in_int64 z -> int64 z = z.
Proof.
  unfold in_int64, INT64_MAX, int64, wrap_signed. intros H.
  rewrite Z.mod_small; lia.
Qed.

Lemma resolve_count_at_end snap mx :
  resolve_count snap (GetNpart snap PARTTYPE) mx = 0.
Proof.
  unfold resolve_count. rewrite Z.sub_diag. change (int64 0) with 0.
  destruct (Z.gtb_spec mx 0); lia.
Qed.

(** C2. When the particle count of the type and the start index are
    non-negative [int64_t] values, the resolved count is
    [min(MaxRead, available - StartPart)] for a positive [MaxRead] and
    [available - StartPart] for [MaxRead <= 0]; and a load that returns
    returns this count. *)
Theorem resolved_count_is_returned snap st mx :
  0 <= GetNpart snap PARTTYPE <= INT64_MAX ->
  0 <= st <= INT64_MAX ->
  (0 < mx ->
   resolve_count snap st mx = Z.min mx (GetNpart snap PARTTYPE - st)) /\
  (mx <= 0 -> resolve_count snap st mx = GetNpart snap PARTTYPE - st) /\
  (forall s r s',
      load_snapshot snap st mx s = Ok r s' -> r = resolve_count snap st mx).
Proof.
  intros Ha Hs.
  assert (Hr : int64 (GetNpart snap PARTTYPE - st) = GetNpart snap PARTTYPE - st).
  { apply int64_small. unfold in_int64, INT64_MAX in *. lia. }
  unfold resolve_count. rewrite Hr. split; [|split].
  - intros Hm. destruct (Z.gtb_spec mx 0); [reflexivity | lia].
  - intros Hm. destruct (Z.gtb_spec mx 0); [lia | reflexivity].
  - intros s r s' H. apply load_snapshot_Ok in H as [-> _].
    unfold resolve_count. rewrite Hr. reflexivity.
Qed.

(** C10. A load whose resolved count is 0 returns 0 after writing the
    expansion factor, the redshift, the Hubble rate, the box size and
    h100; the baryon fraction and the particle buffer are as they were,
    and neither [malloc] nor the reader was called. *)
Theorem zero_count_writes_header_scalars_only snap st mx s :
  resolve_count snap st mx = 0 ->
  exists s',
    load_snapshot snap st mx s = Ok 0 s' /\
    o_atime (out s') = time (GetHeader snap) /\
    o_redshift (out s') = redshift (GetHeader snap) /\
    o_Hz (out s') =
      hubble (HubbleParam (GetHeader snap)) (time (GetHeader snap))
             (Omega0 (GetHeader snap)) (OmegaLambda (GetHeader snap)) /\
    o_box100 (out s') = BoxSize (GetHeader snap) /\
    o_h100 (out s') = HubbleParam (GetHeader snap) /\
    o_omegab (out s') = o_omegab (out s) /\
    P s' = P s /\
    trace s' = trace s.
Proof.
  intros Hn. unfold load_snapshot.
  rewrite (bind_Ok_intro _ _ _ _ _ (read_header_eq snap s)), Hn. simpl.
  eexists. split; [reflexivity|]. simpl. repeat split; reflexivity.
Qed.

(** C9. [alloc_parts] always returns; it returns 0 exactly when one of
    the allocations it made returned NULL, and 1 exactly when it made the
    allocation of every field (velocity, position, mass, internal energy,
    neutral hydrogen, electron fraction, helium when [HELIUM] is defined,
    smoothing length) and each was granted, which is exactly when every
    one of these fields points to an array of the size asked for. *)
Theorem alloc_parts_all_or_nothing np s :
  exists b s' evs,
    alloc_parts np s = Ok b s' /\
    trace s' = trace s ++ evs /\
    (b = false <-> Exists failed evs) /\
    (b = true <->
     evs = map (fun f => Malloc (field_size np f) true) required_fields) /\
    (b = true <->
     forall f, In f required_fields -> sized f (cells (field_size np f)) s').
Proof.
  destruct (alloc_parts_spec np s) as (b & s' & evs & Hrun & E & Hf & Ht & Hs).
  exists b, s', evs. split; [exact Hrun|]. split; [exact (eff_trace _ _ _ _ E)|].
  auto.
Qed.

Lemma alloc_parts_refused np s :
  allocator (trace s) (vector_size np) = None ->
  alloc_parts np s =
  Ok false (mk_state (set_field FVel None (P s)) (out s)
              (trace s ++ [Malloc (vector_size np) false])).
Proof.
  intros Hno. unfold alloc_parts, and_then at 1.
  rewrite (bind_Ok_intro _ _ _ _ _ (alloc_field_eq FVel (vector_size np) s)).
  unfold fresh_array. rewrite Hno. reflexivity.
Qed.

(** C1, on the code: with 100 particles of the type and [StartPart = 101]
    the resolved count is -1, for every [MaxRead]; the load does not
    return 0 (it returns -1 if it returns), and it asks [malloc] for
    [2^64 - 12] bytes: when that request is refused the process exits
    with status 1. *)
Theorem start_past_the_end snap mx s :
  GetNpart snap PARTTYPE = 100 ->
  resolve_count snap 101 mx = -1 /\
  (forall r s', load_snapshot snap 101 mx s = Ok r s' -> r = -1) /\
  (allocator (trace s) (2 ^ 64 - 12) = None ->
   exists s',
     load_snapshot snap 101 mx s = Exited 1 s' /\
     trace s' = trace s ++ [Malloc (2 ^ 64 - 12) false]).
Proof.
  intros Hn.
  assert (Hc : resolve_count snap 101 mx = -1).
  { unfold resolve_count. rewrite Hn. change (int64 (100 - 101)) with (-1).
    destruct (Z.gtb_spec mx 0); lia. }
  split; [exact Hc|]. split.
  - intros r s' H. apply load_snapshot_Ok in H as [-> _]. exact Hc.
  - intros Hno. unfold load_snapshot.
    rewrite (bind_Ok_intro _ _ _ _ _ (read_header_eq snap s)), Hc.
    change (-1 =? 0) with false. cbv iota.
    set (s0 := mk_state _ _ _).
    assert (Ha : allocate (-1) s0 =
                 Exited 1 (mk_state (set_field FVel None (P s0)) (out s0)
                             (trace s0 ++ [Malloc (2 ^ 64 - 12) false]))).
    { unfold allocate.
      rewrite (bind_Ok_intro _ _ _ _ _
                 (alloc_parts_refused (int32 (-1)) s0 Hno)).
      reflexivity. }
    rewrite (bind_Exited_intro _ _ _ _ _ Ha).
    eexists. split; reflexivity.
Qed.


(* =============================================================== *)
(** ** Masses *)

(** The mask of the MASS block names the types other than [PARTTYPE]
    whose header mass is zero, when the header mass of [PARTTYPE] is
    zero. *)
Lemma mass_skip_bits hd t :
  (PARTTYPE < 6)%nat -> (t < 6)%nat ->
  Double.truthy (mass hd PARTTYPE) = false ->
  Z.testbit (mass_skip hd) (Z.of_nat t) =
  (negb (Double.truthy (mass hd t)) && negb (Nat.eqb t PARTTYPE))%bool.
Proof.
  unfold mass_skip, other_types, types, N_TYPE.
  generalize PARTTYPE. intros p Hp Ht.
  change (Z.to_nat 6) with 6%nat. cbn [seq fold_left].
  assert (Hcases : forall k : nat, (k < 6)%nat ->
            (k = 0 \/ k = 1 \/ k = 2 \/ k = 3 \/ k = 4 \/ k = 5)%nat)
    by (intros; lia).
  destruct (Hcases p Hp) as [-> | [-> | [-> | [-> | [-> | ->]]]]];
    destruct (Hcases t Ht) as [-> | [-> | [-> | [-> | [-> | ->]]]]];
    generalize (Double.truthy (mass hd 0)) as b0;
    generalize (Double.truthy (mass hd 1)) as b1;
    generalize (Double.truthy (mass hd 2)) as b2;
    generalize (Double.truthy (mass hd 3)) as b3;
    generalize (Double.truthy (mass hd 4)) as b4;
    generalize (Double.truthy (mass hd 5)) as b5;
    intros b5 b4 b3 b2 b1 b0 Hz;
    destruct b0, b1, b2, b3, b4, b5; try discriminate Hz; reflexivity.
Qed.


Lemma no_mass_call_elsewhere snap n st c b k :
  ~ In (GetBlockCall "MASS" c b k)
       (map (fun f => Malloc (field_size (int32 n) f) true) required_fields ++
        [GetBlockCall "POS " n st other_types;
         GetBlockCall "VEL " n st other_types] ++
        gas_events snap n st).
Proof.
  intros H. apply in_app_or in H as [H|H].
  - apply in_map_iff in H as (f & Habs & _). discriminate.
  - apply in_app_or in H as [H|H].
    + destruct H as [H|[H|[]]]; discriminate.
    + unfold gas_events, cooling_events in H.
      destruct (Nat.eqb PARTTYPE 0); [|destruct H].
      destruct (flag_cooling (GetHeader snap) =? 0), GADGET3, HELIUM;
        simpl in H; intuition discriminate.
Qed.

(** C3, as the code has it. When the header mass of the type is
    non-zero, every one of the [r] loaded particles has as its mass that
    header value converted to [float], as the assignment of line 65
    stores a [double] in the [float] array (rounded to nearest), and the
    load makes no MASS call to the reader. Otherwise the load reads the
    MASS block for the [r] particles from [StartPart] on, with a mask in
    which the bit of a type is set exactly when the type is not
    [PARTTYPE] and its header mass is zero: the mask names no type with
    a non-zero header mass. *)
Theorem mass_from_header_or_block snap st mx s r s' :
  (PARTTYPE < 6)%nat ->
  load_snapshot snap st mx s = Ok r s' ->
  r <> 0 ->
  exists evs,
    trace s' = trace s ++ evs /\
    (Double.truthy (mass (GetHeader snap) PARTTYPE) = true ->
     (forall i, (i < Z.to_nat r)%nat ->
                nth_error (array FMass s') i =
                Some (Single.of_double (mass (GetHeader snap) PARTTYPE))) /\
     (forall c b k, ~ In (GetBlockCall "MASS" c b k) evs)) /\
    (Double.truthy (mass (GetHeader snap) PARTTYPE) = false ->
     In (GetBlockCall "MASS" r st (mass_skip (GetHeader snap))) evs /\
     holds FMass (block_range snap "MASS" r st (mass_skip (GetHeader snap))) s' /\
     (forall t, (t < 6)%nat ->
        Z.testbit (mass_skip (GetHeader snap)) (Z.of_nat t) =
        (negb (Double.truthy (mass (GetHeader snap) t))
         && negb (Nat.eqb t PARTTYPE))%bool)).
Proof.
  intros Hp H Hr. apply load_snapshot_Ok in H as (-> & _ & _ & L).
  specialize (L Hr). set (n := resolve_count snap st mx) in *.
  destruct L as [Htrace _ _ _ _ Hmass _ _].
  exists (load_events snap n st). split; [exact Htrace|].
  unfold load_events, mass_events, mass_values in *. split; intros Hm;
    rewrite Hm in *.
  - split.
    + intros i Hi. apply (holds_nth _ _ _ _ _ Hmass).
      apply nth_error_repeat. exact Hi.
    + intros c b k. apply no_mass_call_elsewhere.
  - split; [|split].
    + apply in_or_app. right. apply in_or_app. right. left. reflexivity.
    + exact Hmass.
    + intros t Ht. apply mass_skip_bits; assumption.
Qed.

(** C4. Once the mass array is resolved, for a positive count [n]: the
    load ends the process with status 0 there exactly when the mass of
    some particle [i < n] compares different ([!=]) from the mass of
    particle 0, and it ends the process in no other way; hence in the
    array of every load that returns, the mass of every loaded particle
    compares equal to the mass of particle 0. *)
Theorem mass_uniformity_check snap st mx s s1 :
  0 < resolve_count snap st mx ->
  load_masses snap st mx s = Ok tt s1 ->
  (load_snapshot snap st mx s = Exited 0 s1 <->
   exists i, (i < Z.to_nat (resolve_count snap st mx))%nat /\ other_mass s1 i) /\
  (forall c s', load_snapshot snap st mx s = Exited c s' -> c = 0 /\ s' = s1) /\
  (forall r s',
      load_snapshot snap st mx s = Ok r s' ->
      forall i, (i < Z.to_nat r)%nat -> same_mass s' i).
Proof.
  intros Hn Hm.
  assert (Hexit : forall c s',
             load_snapshot snap st mx s = Exited c s' ->
             c = 0 /\ s' = s1 /\
             exists i, (i < Z.to_nat (resolve_count snap st mx))%nat /\
                       other_mass s1 i).
  { intros c s'. rewrite load_snapshot_split by lia.
    rewrite (bind_Ok_intro _ _ _ _ _ Hm). intros H.
    apply bind_Exited in H as [H|([] & s2 & _ & H)].
    - apply check_mass_Exited in H. exact H.
    - apply bind_Exited in H as [H|([] & s3 & _ & H)];
        [destruct (baryon_fraction_not_Exited _ _ _ _ H)|].
      apply bind_Exited in H as [H|([] & s4 & _ & H)];
        [destruct (read_gas_not_Exited _ _ _ _ _ _ H) | discriminate]. }
  split; [split|split].
  - intros H. apply Hexit in H as (_ & _ & Hex). exact Hex.
  - intros (i & Hi & Hother). rewrite load_snapshot_split by lia.
    rewrite (bind_Ok_intro _ _ _ _ _ Hm). apply bind_Exited_intro.
    eapply check_mass_fatal; eassumption.
  - intros c s' H. apply Hexit in H as (Hc & Hs & _). auto.
  - intros r s' H. apply load_snapshot_Ok in H as (-> & _ & _ & L).
    exact (ld_uniform _ _ _ _ _ (L ltac:(lia))).
Qed.

(** C6. The Hubble rate a load returns is
    [100 h100 sqrt(1 + Omega0 (1/a - 1) + OmegaLambda (a^2 - 1)) / a] on
    the header values, every operation in [double] and [a^2] the value
    [pow(a, 2)] of the C library, whatever that library computes. With
    [a = 1], [Omega0 = 0.3], [OmegaLambda = 0.7] and [h100 = 0.7] it is
    70, [pow(1, 2)] being 1 (as the C standard has it for [pow(+1, y)]):
    the rate at [a = 1] is [100 h100 sqrt(1)], and [100 * 0.7] is 70 in
    [double]. *)
Theorem hubble_rate_formula snap st mx s r s' :
  load_snapshot snap st mx s = Ok r s' ->
  o_Hz (out s') =
    Double.div
      (Double.mul
         (Double.mul (Double.of_Z 100) (HubbleParam (GetHeader snap)))
         (Double.sqrt
            (Double.add
               (Double.add (Double.of_Z 1)
                  (Double.mul (Omega0 (GetHeader snap))
                     (Double.sub
                        (Double.div (Double.of_Z 1) (time (GetHeader snap)))
                        (Double.of_Z 1))))
               (Double.mul (OmegaLambda (GetHeader snap))
                  (Double.sub (pow (time (GetHeader snap)) (Double.of_Z 2))
                     (Double.of_Z 1))))))
      (time (GetHeader snap)) /\
  (pow (Double.of_Z 1) (Double.of_Z 2) = Double.of_Z 1 ->
   time (GetHeader snap) = Double.of_Z 1 ->
   Omega0 (GetHeader snap) = Double.dec 3 1 ->
   OmegaLambda (GetHeader snap) = Double.dec 7 1 ->
   HubbleParam (GetHeader snap) = Double.dec 7 1 ->
   o_Hz (out s') = Double.of_Z 70).
Proof.
  intros H. apply load_snapshot_Ok in H as (_ & Hhd & _).
  destruct Hhd as (_ & _ & HHz & _).
  split; [exact HHz|].
  intros Hpow Ha HOm HOL Hh. rewrite HHz. unfold hubble.
  rewrite Ha, HOm, HOL, Hh, Hpow. vm_compute. reflexivity.
Qed.

(** C7, as the code has it. The baryon fraction of a load that returns a
    positive count is [mass[0] / (mass[0] + header.mass[1]) * Omega0],
    computed in [double] from the [float] mass of the first loaded
    particle. With [mass[0]] the [float] nearest 0.1, [header.mass[1]]
    the [double] nearest 0.9 and [Omega0] the [double] nearest 0.3 it is
    the [double] [8646911400515469 * 2^-58], about 0.0300000004: above
    0.03 by less than [1e-9]. *)
Theorem baryon_fraction_formula snap st mx s r s' :
  load_snapshot snap st mx s = Ok r s' ->
  0 < r ->
  exists m0,
    nth_error (array FMass s') 0 = Some m0 /\
    o_omegab (out s') =
      Double.mul
        (Double.div (Double.of_float m0)
           (Double.add (Double.of_float m0) (mass (GetHeader snap) 1)))
        (Omega0 (GetHeader snap)) /\
    (m0 = Single.dec 1 1 ->
     mass (GetHeader snap) 1 = Double.dec 9 1 ->
     Omega0 (GetHeader snap) = Double.dec 3 1 ->
     o_omegab (out s') = S754_finite false 8646911400515469 (-58) /\
     SFltb (Double.dec 3 2) (o_omegab (out s')) = true /\
     SFltb (o_omegab (out s')) (Double.add (Double.dec 3 2) (Double.dec 1 9))
     = true).
Proof.
  intros H Hr. apply load_snapshot_Ok in H as (-> & _ & _ & L).
  destruct (ld_omegab _ _ _ _ _ (L ltac:(lia))) as (m0 & Hm0 & Hob).
  exists m0. split; [exact Hm0|]. split; [exact Hob|].
  intros -> H1 HOm. rewrite Hob, H1, HOm. vm_compute. auto.
Qed.

(** C8. In a load of gas particles with the cooling flag set and the
    three ionisation blocks ([GADGET3] not defined), the electron
    fraction of particle [k] is [(NHP[k] + NHEP[k]) + 2 * NHEQ[k]], in
    [float] arithmetic, on the values the reader delivers for the window;
    with 0.1, 0.05 and 0.02 it is 0.19 (each the nearest [float]). *)
Theorem electron_fraction_from_species snap st mx s r s' k a b c :
  PARTTYPE = 0%nat ->
  GADGET3 = false ->
  flag_cooling (GetHeader snap) <> 0 ->
  load_snapshot snap st mx s = Ok r s' ->
  nth_error (block_range snap "NHP " r st 0) k = Some a ->
  nth_error (block_range snap "NHEP" r st 0) k = Some b ->
  nth_error (block_range snap "NHEQ" r st 0) k = Some c ->
  nth_error (array FNe s') k =
    Some (Single.add (Single.add a b) (Single.mul (Single.of_Z 2) c)) /\
  (a = Single.dec 1 1 -> b = Single.dec 5 2 -> c = Single.dec 2 2 ->
   nth_error (array FNe s') k = Some (Single.dec 19 2)).
Proof.
  intros Hgas Hfmt Hcool H Ha Hb Hc.
  apply load_snapshot_Ok in H as (-> & _ & _ & L).
  set (n := resolve_count snap st mx) in *.
  assert (Hn : n <> 0).
  { intros Hz. rewrite Hz in Ha. unfold block_range in Ha.
    change (Z.to_nat 0) with 0%nat in Ha. rewrite Nat.mul_0_r in Ha.
    destruct k; discriminate. }
  destruct (ld_gas _ _ _ _ _ (L Hn) Hgas) as (_ & _ & Hc').
  destruct (Hc' Hcool) as (HNe & _).
  unfold electron_values in HNe. rewrite Hfmt in HNe.
  assert (Hk : nth_error (array FNe s') k =
               Some (Single.add (Single.add a b) (Single.mul (Single.of_Z 2) c))).
  { apply (holds_nth _ _ _ _ _ HNe).
    apply (zip_with_nth
             (fun ne x => Single.add ne (Single.mul (Single.of_Z 2) x))
             _ _ k (Single.add a b) c); [|exact Hc].
    apply (zip_with_nth (fun ne x => Single.add ne x) _ _ k a b); assumption. }
  split; [exact Hk|]. intros -> -> ->. rewrite Hk. vm_compute. reflexivity.
Qed.


(* =============================================================== *)
(** ** Windows of a complete snapshot *)

Lemma firstn_add {A} (l : list A) n m :
  firstn (n + m) l = firstn n l ++ firstn m (skipn n l).
Proof.
  revert l. induction n as [|n IH]; intros [|x l]; simpl.
  - reflexivity.
  - reflexivity.
  - rewrite firstn_nil. reflexivity.
  - f_equal. apply IH.
Qed.

Lemma block_range_split snap tag a b st k :
  0 <= a -> 0 <= b -> 0 <= st ->
  block_range snap tag (a + b) st k =
  block_range snap tag a st k ++ block_range snap tag b (st + a) k.
Proof.
  intros Ha Hb Hst. unfold block_range.
  rewrite !Z2Nat.inj_add by assumption.
  rewrite Nat.mul_add_distr_l, firstn_add, skipn_skipn.
  do 3 f_equal. lia.
Qed.

Lemma block_range_complete snap tag n st k total :
  (floats_per_particle tag * total <= length (block_data snap tag k))%nat ->
  (Z.to_nat st + Z.to_nat n <= total)%nat ->
  length (block_range snap tag n st k)
  = (floats_per_particle tag * Z.to_nat n)%nat.
Proof.
  intros Hc Hw. unfold block_range. rewrite length_firstn, length_skipn. nia.
Qed.

Lemma zip_with_app {A B C} (f : A -> B -> C) l1 l1' l2 l2' :
  length l1 = length l2 ->
  zip_with f (l1 ++ l1') (l2 ++ l2') = zip_with f l1 l2 ++ zip_with f l1' l2'.
Proof.
  revert l2. induction l1 as [|a l1 IH]; intros [|b l2] H; simpl in *;
    try discriminate.
  - reflexivity.
  - f_equal. apply IH. lia.
Qed.

Lemma zip_with_length {A B C} (f : A -> B -> C) l1 l2 :
  length (zip_with f l1 l2) = Nat.min (length l1) (length l2).
Proof.
  revert l2. induction l1 as [|a l1 IH]; intros [|b l2]; simpl; auto.
Qed.

Lemma populated_required snap f :
  In f (populated_fields snap) -> In f required_fields.
Proof.
  unfold populated_fields, required_fields.
  destruct (Nat.eqb PARTTYPE 0), (flag_cooling (GetHeader snap) =? 0), HELIUM;
    simpl; tauto.
Qed.

Lemma loaded_holds snap n st s s' f :
  loaded snap n st s s' -> In f (populated_fields snap) ->
  holds f (field_values snap f n st) s'.
Proof.
  intros L. pose proof (ld_gas _ _ _ _ _ L) as G.
  pose proof (ld_pos _ _ _ _ _ L) as DPos.
  pose proof (ld_vel _ _ _ _ _ L) as DVel.
  pose proof (ld_mass _ _ _ _ _ L) as DMass.
  unfold populated_fields.
  destruct (Nat.eqb_spec PARTTYPE 0) as [Hgas|Hother].
  - destruct (G Hgas) as (DU & Dh & C).
    destruct (Z.eqb_spec (flag_cooling (GetHeader snap)) 0) as [Hoff|Hon].
    + cbn [app In]. intros H.
      repeat (destruct H as [<-|H]; [cbn [field_values]; assumption|]).
      destruct H.
    + destruct (C Hon) as (DNe & DNH & DHe).
      destruct HELIUM; [specialize (DHe eq_refl)|]; cbn [app In]; intros H;
        repeat (destruct H as [<-|H]; [cbn [field_values]; assumption|]);
        destruct H.
  - cbn [app In]. intros H.
    repeat (destruct H as [<-|H]; [cbn [field_values]; assumption|]).
    destruct H.
Qed.

Lemma cells_of_field n f :
  0 <= n -> 3 * n <= INT_MAX ->
  cells (field_size (int32 n) f) = (width f * Z.to_nat n)%nat.
Proof.
  unfold INT_MAX. intros H0 H3.
  assert (Hn : int32 n = n).
  { unfold int32, wrap_signed. rewrite Z.mod_small; lia. }
  assert (Hn3 : int32 (n * 3) = n * 3).
  { unfold int32, wrap_signed. rewrite Z.mod_small; lia. }
  assert (Hv : cells (vector_size n) = (3 * Z.to_nat n)%nat).
  { unfold cells, vector_size, size_t, sizeof_float. rewrite Hn3.
    rewrite (Z.mod_small (n * 3)) by lia. rewrite Z.mod_small by lia.
    replace (n * 3 * 4) with (3 * n * 4) by lia. rewrite Z.div_mul by lia. lia. }
  assert (Hs : cells (scalar_size n) = (1 * Z.to_nat n)%nat).
  { unfold cells, scalar_size, size_t, sizeof_float.
    rewrite (Z.mod_small n) by lia. rewrite Z.mod_small by lia.
    rewrite Z.div_mul by lia. lia. }
  rewrite Hn. destruct f; simpl field_size; simpl width; assumption.
Qed.


Ltac split_flags snap :=
  destruct (Double.truthy (mass (GetHeader snap) PARTTYPE));
  destruct (Nat.eqb PARTTYPE 0);
  destruct (flag_cooling (GetHeader snap) =? 0);
  destruct GADGET3; destruct HELIUM.

Ltac by_block B :=
  rewrite ?zip_with_length, ?repeat_length;
  rewrite ?B by (cbn [app In]; auto 12);
  cbv [floats_per_particle String.eqb Ascii.eqb Bool.eqb orb]; lia.

Lemma field_values_length snap f n st total :
  complete snap total ->
  (Z.to_nat st + Z.to_nat n <= total)%nat ->
  In f (populated_fields snap) ->
  length (field_values snap f n st) = (width f * Z.to_nat n)%nat.
Proof.
  intros Hc Hw.
  assert (B : forall tag k,
             In (tag, k) (blocks_read snap) ->
             length (block_range snap tag n st k)
             = (floats_per_particle tag * Z.to_nat n)%nat).
  { intros tag k Hin.
    apply (block_range_complete _ _ _ _ _ total); [apply Hc, Hin | exact Hw]. }
  clear Hc. revert B. unfold blocks_read, populated_fields.
  destruct f; cbn [field_values width]; unfold mass_values, electron_values;
    split_flags snap; intros B Hin; cbn [app In] in Hin;
    try (exfalso; intuition discriminate); by_block B.
Qed.


Lemma field_values_split snap f a b st total :
  complete snap total ->
  0 <= a -> 0 <= b -> 0 <= st ->
  (Z.to_nat st + Z.to_nat a <= total)%nat ->
  In f (populated_fields snap) ->
  field_values snap f (a + b) st =
  field_values snap f a st ++ field_values snap f b (st + a).
Proof.
  intros Hc Ha Hb Hst Hw.
  assert (B : forall tag k,
             In (tag, k) (blocks_read snap) ->
             length (block_range snap tag a st k)
             = (floats_per_particle tag * Z.to_nat a)%nat).
  { intros tag k Hin.
    apply (block_range_complete _ _ _ _ _ total); [apply Hc, Hin | exact Hw]. }
  clear Hc. revert B. unfold blocks_read, populated_fields.
  destruct f; cbn [field_values]; unfold mass_values, electron_values;
    split_flags snap; intros B Hin; cbn [app In] in Hin;
    try (exfalso; intuition discriminate);
    rewrite ?(fun tag k => block_range_split snap tag a b st k Ha Hb Hst);
    rewrite ?Z2Nat.inj_add, ?repeat_app by assumption;
    try reflexivity;
    rewrite !zip_with_app; try reflexivity; by_block B.
Qed.

(** The array of a populated field after a load of a window that the
    snapshot covers, for a count whose triple is an [int]. *)
Lemma loaded_array snap n st s s' f total :
  loaded snap n st s s' ->
  complete snap total ->
  0 < n -> 3 * n <= INT_MAX -> 0 <= st ->
  (Z.to_nat st + Z.to_nat n <= total)%nat ->
  In f (populated_fields snap) ->
  array f s' = field_values snap f n st.
Proof.
  intros L Hc Hn H3 Hst Hw Hf.
  pose proof (loaded_holds _ _ _ _ _ _ L Hf) as Hh.
  pose proof (ld_sized _ _ _ _ _ L f (populated_required _ _ Hf)) as Hs.
  rewrite cells_of_field in Hs by lia.
  rewrite <- (field_values_length snap f n st total Hc Hw Hf) in Hs.
  unfold array. rewrite (holds_sized _ _ _ Hh Hs). reflexivity.
Qed.


(* =============================================================== *)
(** ** Loads that run to the end *)

Lemma load_runs f i s m :
  sized f m s -> (i < m)%nat -> exists v, load f i s = Ok v s.
Proof.
  intros (l & Hl & Hm) Hi. destruct (nth_error l i) as [v|] eqn:E.
  - exists v. eapply load_in_range; eassumption.
  - apply nth_error_None in E. lia.
Qed.

Lemma store_runs f i v s m :
  sized f m s -> (i < m)%nat -> exists s', store f i v s = Ok tt s'.
Proof.
  intros (l & Hl & Hm) Hi. unfold store, bind, get_P. rewrite Hl.
  destruct (update_in_range l i v) as [l' E]; [lia|]. rewrite E.
  eexists. reflexivity.
Qed.

(** The counted loop returns when its body does, under an invariant. *)
Lemma for_range_runs (I : state -> Prop) body n :
  forall from s,
    I s ->
    (forall i si, (from <= i < from + n)%nat -> I si ->
                  exists si', body i si = Ok tt si' /\ I si') ->
    exists s', for_range from n body s = Ok tt s' /\ I s'.
Proof.
  induction n as [|n IH]; intros from s H0 Hbody; simpl.
  - exists s. split; [reflexivity | exact H0].
  - destruct (Hbody from s ltac:(lia) H0) as (s1 & Hb & H1).
    rewrite (bind_Ok_intro _ _ _ _ _ Hb).
    apply IH; [exact H1|]. intros i si Hi. apply Hbody. lia.
Qed.

Lemma GetBlock_runs snap tag dest c st k s m :
  sized dest m s ->
  (floats_per_particle tag * Z.to_nat c <= m)%nat ->
  exists s', GetBlock snap tag dest c st k s = Ok tt s'.
Proof.
  intros (l & Hl & Hm) Hlen. unfold GetBlock, bind, log, get_P. simpl.
  rewrite Hl. unfold overwrite.
  pose proof (block_range_length snap tag c st k) as Hd.
  destruct (Nat.leb_spec (length (block_range snap tag c st k)) (length l));
    [|lia].
  eexists. reflexivity.
Qed.

Lemma fits_kept n s s' : keeps_sizes s s' -> fits n s -> fits n s'.
Proof. intros K F f Hf. apply K, F, Hf. Qed.

Lemma fits_field n s f :
  fits n s -> In f required_fields -> sized f (width f * Z.to_nat n) s.
Proof. intros F Hf. apply F, Hf. Qed.

Lemma core_fields_required f :
  In f [FVel; FPos; FMass; FU; FNH0; FNe; Fh] -> In f required_fields.
Proof.
  unfold required_fields. destruct HELIUM; simpl; tauto.
Qed.

Lemma fits_core n s f :
  fits n s -> In f [FVel; FPos; FMass; FU; FNH0; FNe; Fh] ->
  sized f (width f * Z.to_nat n) s.
Proof. intros F Hf. apply F, core_fields_required, Hf. Qed.

Lemma runs_bind n (m k : M unit) :
  runs n m -> runs n k -> runs n (m ;; k).
Proof.
  intros Hm Hk s F. destruct (Hm s F) as (s1 & H1 & F1).
  rewrite (bind_Ok_intro _ _ _ _ _ H1). apply Hk, F1.
Qed.

Lemma runs_ret n : runs n (ret tt).
Proof. intros s F. exists s. split; [reflexivity | exact F]. Qed.

Lemma GetBlock_fits snap tag dest n st k :
  In dest required_fields ->
  (floats_per_particle tag <=? width dest)%nat = true ->
  runs n (GetBlock snap tag dest n st k).
Proof.
  intros Hdest Hw s F. apply Nat.leb_le in Hw.
  destruct (GetBlock_runs snap tag dest n st k s _ (F dest Hdest)) as (s' & H);
    [nia|].
  exists s'. split; [exact H|].
  apply GetBlock_Ok in H as (_ & _ & K). exact (fits_kept _ _ _ K F).
Qed.

Lemma fill_mass_runs n v :
  runs n (for_range 0 (Z.to_nat n) (fun i => store FMass i v)).
Proof.
  intros s F. apply (for_range_runs (fits n)); [exact F|].
  intros i si Hi Fi.
  destruct (store_runs FMass i v si _
              (fits_core n si FMass Fi ltac:(simpl; tauto)))
    as (si' & Hs); [simpl; lia|].
  exists si'. split; [exact Hs|].
  exact (fits_kept _ _ _ (store_keeps_sizes _ _ _ _ _ Hs) Fi).
Qed.

Lemma accumulate_runs n scale : runs n (accumulate n scale).
Proof.
  intros s F. unfold accumulate. apply (for_range_runs (fits n)); [exact F|].
  intros i si Hi Fi.
  destruct (load_runs FNe i si _
              (fits_core n si FNe Fi ltac:(simpl; tauto)))
    as (ne & Hne); [simpl; lia|].
  destruct (load_runs Fh i si _
              (fits_core n si Fh Fi ltac:(simpl; tauto)))
    as (hk & Hhk); [simpl; lia|].
  destruct (store_runs FNe i (Single.add ne (scale hk)) si _
              (fits_core n si FNe Fi ltac:(simpl; tauto)))
    as (si' & Hs); [simpl; lia|].
  exists si'. split.
  - rewrite (bind_Ok_intro _ _ _ _ _ Hne), (bind_Ok_intro _ _ _ _ _ Hhk). exact Hs.
  - exact (fits_kept _ _ _ (store_keeps_sizes _ _ _ _ _ Hs) Fi).
Qed.

Lemma read_kinematics_runs snap n st : runs n (read_kinematics snap n st).
Proof.
  unfold read_kinematics.
  apply runs_bind; apply GetBlock_fits;
    first [reflexivity | apply core_fields_required; simpl; tauto].
Qed.

Lemma resolve_mass_runs snap n st : runs n (resolve_mass snap n st).
Proof.
  unfold resolve_mass. destruct (Double.truthy (mass (GetHeader snap) PARTTYPE)).
  - apply fill_mass_runs.
  - apply GetBlock_fits; [apply core_fields_required; simpl; tauto | reflexivity].
Qed.

Lemma baryon_fraction_runs snap n :
  0 < n -> runs n (baryon_fraction snap).
Proof.
  intros Hn s F. unfold baryon_fraction.
  destruct (load_runs FMass 0 s _ (fits_core n s FMass F ltac:(simpl; tauto)))
    as (m0 & Hm0); [simpl; lia|].
  rewrite (bind_Ok_intro _ _ _ _ _ Hm0). eexists. split; [reflexivity|].
  exact F.
Qed.

Lemma read_cooling_runs snap n st : runs n (read_cooling snap n st).
Proof.
  unfold read_cooling.
  assert (Hcore : forall tag dest k,
             In dest [FVel; FPos; FMass; FU; FNH0; FNe; Fh] ->
             (floats_per_particle tag <=? width dest)%nat = true ->
             runs n (GetBlock snap tag dest n st k)).
  { intros tag dest k Hin. apply GetBlock_fits, core_fields_required, Hin. }
  apply runs_bind; [|apply runs_bind].
  - destruct GADGET3.
    + apply Hcore; [simpl; tauto | reflexivity].
    + apply runs_bind; [apply Hcore; [simpl; tauto | reflexivity]|].
      apply runs_bind; [apply Hcore; [simpl; tauto | reflexivity]|].
      apply runs_bind; [apply accumulate_runs|].
      apply runs_bind; [apply Hcore; [simpl; tauto | reflexivity]|].
      apply accumulate_runs.
  - destruct HELIUM eqn:Hh.
    + apply GetBlock_fits; [|reflexivity].
      unfold required_fields. rewrite Hh. simpl. tauto.
    + apply runs_ret.
  - apply Hcore; [simpl; tauto | reflexivity].
Qed.

Lemma read_gas_runs snap n st : runs n (read_gas snap n st).
Proof.
  unfold read_gas. destruct (Nat.eqb PARTTYPE 0); [|apply runs_ret].
  apply runs_bind; [|apply runs_bind].
  - apply GetBlock_fits; [apply core_fields_required; simpl; tauto | reflexivity].
  - destruct (flag_cooling (GetHeader snap) =? 0);
      [apply runs_ret | apply read_cooling_runs].
  - apply GetBlock_fits; [apply core_fields_required; simpl; tauto | reflexivity].
Qed.

Lemma check_from_passes n :
  forall from s,
    (forall i, (from <= i < from + n)%nat -> same_mass s i) ->
    for_range from n check_entry s = Ok tt s.
Proof.
  induction n as [|n IH]; intros from s Hall; simpl; [reflexivity|].
  destruct (Hall from ltac:(lia)) as (mi & m0 & Hmi & Hm0 & Heq).
  unfold array in Hmi, Hm0.
  destruct (get_field FMass (P s)) as [l|] eqn:Hl; [|destruct from; discriminate].
  assert (Hentry : check_entry from s = Ok tt s).
  { unfold check_entry.
    rewrite (bind_Ok_intro _ _ _ _ _ (load_in_range _ _ _ _ _ Hl Hmi)).
    rewrite (bind_Ok_intro _ _ _ _ _ (load_in_range _ _ _ _ _ Hl Hm0)).
    rewrite Heq. reflexivity. }
  rewrite (bind_Ok_intro _ _ _ _ _ Hentry).
  apply IH. intros i Hi. apply Hall. lia.
Qed.

Lemma check_mass_passes n s :
  (forall i, (i < Z.to_nat n)%nat -> same_mass s i) -> check_mass n s = Ok tt s.
Proof.
  intros Hall. unfold check_mass. apply check_from_passes.
  intros i Hi. apply Hall. lia.
Qed.

Lemma alloc_chain_granted l :
  (forall tr f size, In (f, size) l -> allocator tr size <> None) ->
  forall s, exists s', alloc_chain l s = Ok true s'.
Proof.
  induction l as [|[f size] l IH]; intros Hg s; simpl.
  - exists s. reflexivity.
  - unfold and_then at 1.
    rewrite (bind_Ok_intro _ _ _ _ _ (alloc_field_eq f size s)).
    unfold fresh_array.
    destruct (allocator (trace s) size) as [init|] eqn:E.
    + simpl. apply IH. intros tr g z Hin. apply (Hg tr g z). right. exact Hin.
    + destruct (Hg (trace s) f size (or_introl eq_refl) E).
Qed.

Lemma allocate_runs n s :
  grants n -> exists s', allocate n s = Ok tt s'.
Proof.
  intros Hg. unfold allocate.
  destruct (alloc_chain_granted
              (map (fun f => (f, field_size (int32 n) f)) required_fields))
    with (s := s) as (s' & H).
  - intros tr f size Hin. apply in_map_iff in Hin as (g & Heq & Hin).
    injection Heq as <- <-. apply Hg, Hin.
  - rewrite <- alloc_parts_chain in H.
    rewrite (bind_Ok_intro _ _ _ _ _ H). exists s'. reflexivity.
Qed.

Lemma allocate_fits n s s' :
  0 <= n -> 3 * n <= INT_MAX -> allocate n s = Ok tt s' -> fits n s'.
Proof.
  intros H0 H3 H. apply allocate_Ok in H as (_ & Hs).
  intros f Hf. rewrite <- cells_of_field by assumption. apply Hs, Hf.
Qed.

Lemma load_masses_Ok snap st mx s s1 :
  load_masses snap st mx s = Ok tt s1 ->
  (forall f, In f required_fields ->
             sized f (cells (field_size (int32 (resolve_count snap st mx)) f)) s1) /\
  holds FMass (mass_values snap (resolve_count snap st mx) st) s1.
Proof.
  unfold load_masses. rewrite (bind_Ok_intro _ _ _ _ _ (read_header_eq snap s)).
  intros H.
  apply bind_Ok in H as ([] & s2 & H1 & H).
  apply bind_Ok in H as ([] & s3 & H2 & H3).
  apply allocate_Ok in H1 as (_ & S1).
  apply read_kinematics_Ok in H2 as (_ & K2 & _).
  apply resolve_mass_Ok in H3 as (_ & K3 & DMass).
  - split; [|exact DMass]. intros f Hf. apply K3, K2, S1, Hf.
  - destruct (K2 FMass _ (S1 FMass (core_fields_required FMass
                                       ltac:(simpl; tauto))))
      as (l & Hl & _). congruence.
Qed.

Lemma load_masses_runs snap st mx s :
  0 <= resolve_count snap st mx ->
  3 * resolve_count snap st mx <= INT_MAX ->
  grants (resolve_count snap st mx) ->
  exists s1, load_masses snap st mx s = Ok tt s1 /\
             fits (resolve_count snap st mx) s1.
Proof.
  intros H0 H3 Hg. unfold load_masses.
  rewrite (bind_Ok_intro _ _ _ _ _ (read_header_eq snap s)).
  set (n := resolve_count snap st mx) in *. set (s0 := mk_state _ _ _).
  destruct (allocate_runs n s0 Hg) as (s2 & Ha).
  rewrite (bind_Ok_intro _ _ _ _ _ Ha).
  apply (runs_bind n (read_kinematics snap n st) (resolve_mass snap n st)).
  - apply read_kinematics_runs.
  - apply resolve_mass_runs.
  - exact (allocate_fits _ _ _ H0 H3 Ha).
Qed.

(** With arrays of the right size and a mass array that passes the check,
    the load returns the resolved count. *)
Lemma load_snapshot_returns snap st mx s s1 :
  0 < resolve_count snap st mx ->
  load_masses snap st mx s = Ok tt s1 ->
  fits (resolve_count snap st mx) s1 ->
  (forall i, (i < Z.to_nat (resolve_count snap st mx))%nat -> same_mass s1 i) ->
  exists s', load_snapshot snap st mx s = Ok (resolve_count snap st mx) s'.
Proof.
  intros Hn Hm F Hu. rewrite load_snapshot_split by lia.
  rewrite (bind_Ok_intro _ _ _ _ _ Hm).
  rewrite (bind_Ok_intro _ _ _ _ _ (check_mass_passes _ _ Hu)).
  destruct (baryon_fraction_runs snap _ Hn s1 F) as (s2 & H2 & F2).
  rewrite (bind_Ok_intro _ _ _ _ _ H2).
  destruct (read_gas_runs snap (resolve_count snap st mx) st s2 F2)
    as (s3 & H3 & _).
  rewrite (bind_Ok_intro _ _ _ _ _ H3). exists s3. reflexivity.
Qed.

Lemma mass_check_decides n s :
  fits n s ->
  (forall i, (i < Z.to_nat n)%nat -> same_mass s i) \/
  (exists i, (i < Z.to_nat n)%nat /\ other_mass s i).
Proof.
  intros F.
  destruct (fits_core n s FMass F ltac:(simpl; tauto)) as (l & Hl & Hlen).
  simpl in Hlen.
  assert (Hstep : forall k, (k <= Z.to_nat n)%nat ->
             (forall i, (i < k)%nat -> same_mass s i) \/
             (exists i, (i < Z.to_nat n)%nat /\ other_mass s i)).
  { induction k as [|k IH]; intros Hk; [left; intros; lia|].
    destruct (IH ltac:(lia)) as [Hall|Hex]; [|right; exact Hex].
    destruct (nth_error l k) as [mk|] eqn:Ek;
      [|apply nth_error_None in Ek; lia].
    destruct (nth_error l 0) as [m0|] eqn:E0;
      [|apply nth_error_None in E0; lia].
    destruct (Fmt.neb mk m0) eqn:E.
    - right. exists k. split; [lia|]. exists mk, m0. unfold array. rewrite Hl. auto.
    - left. intros i Hi. destruct (Nat.eq_dec i k) as [->|]; [|apply Hall; lia].
      exists mk, m0. unfold array. rewrite Hl. auto. }
  apply Hstep. lia.
Qed.

(** A load of a positive count whose triple is an [int], with an
    allocator that grants its requests, has no undefined behaviour: it
    returns the count, or exits with status 0 at the mass check. *)
Theorem load_snapshot_defined snap st mx s :
  0 < resolve_count snap st mx ->
  3 * resolve_count snap st mx <= INT_MAX ->
  grants (resolve_count snap st mx) ->
  exists s1,
    load_masses snap st mx s = Ok tt s1 /\
    ((exists s', load_snapshot snap st mx s = Ok (resolve_count snap st mx) s') \/
     load_snapshot snap st mx s = Exited 0 s1).
Proof.
  intros Hn H3 Hg.
  destruct (load_masses_runs snap st mx s ltac:(lia) H3 Hg) as (s1 & Hm & F).
  exists s1. split; [exact Hm|].
  destruct (mass_check_decides _ _ F) as [Hall|(i & Hi & Hother)].
  - left. eapply load_snapshot_returns; eassumption.
  - right. rewrite load_snapshot_split by lia.
    rewrite (bind_Ok_intro _ _ _ _ _ Hm). apply bind_Exited_intro.
    eapply check_mass_fatal; eassumption.
Qed.

(* =============================================================== *)
(** ** Equal masses *)

Lemma SFeqb_finite s1 m1 e1 s2 m2 e2 :
  SFeqb (S754_finite s1 m1 e1) (S754_finite s2 m2 e2) = true ->
  s1 = s2 /\ m1 = m2 /\ e1 = e2.
Proof.
  unfold SFeqb, SFcompare.
  destruct s1, s2; try discriminate;
    destruct (Z.compare_spec e1 e2) as [He| |]; try discriminate; intros H;
    (assert (Hm : Pos.compare m1 m2 = Eq);
     [ unfold Pos.compare; destruct (Pos.compare_cont Eq m1 m2);
       try discriminate; reflexivity
     | apply Pos.compare_eq in Hm; auto ]).
Qed.

Lemma SFeqb_finite_refl s m e :
  SFeqb (S754_finite s m e) (S754_finite s m e) = true.
Proof.
  unfold SFeqb, SFcompare. rewrite Z.compare_refl.
  change (Pos.compare_cont Eq m m) with (Pos.compare m m).
  rewrite Pos.compare_refl. destruct s; reflexivity.
Qed.

(** Two values that compare equal to a third compare equal. *)
Lemma equal_to_the_same a b c :
  Fmt.neb a c = false -> Fmt.neb b c = false -> Fmt.neb a b = false.
Proof.
  unfold Fmt.neb. intros Ha Hb.
  apply negb_false_iff in Ha, Hb. apply negb_false_iff.
  destruct a as [[]|[]| |[] ma ea], c as [[]|[]| |[] mc ec];
    try discriminate Ha;
    destruct b as [[]|[]| |[] mb eb];
    try discriminate Hb; try reflexivity;
    apply SFeqb_finite in Ha as (_ & -> & ->);
    apply SFeqb_finite in Hb as (_ & -> & ->);
    apply SFeqb_finite_refl.
Qed.

Lemma uniform_app l1 l2 : uniform (l1 ++ l2) -> uniform l1 /\ uniform l2.
Proof.
  intros Hu. split; intros i mi Hi.
  - assert (Hlt : (i < length l1)%nat) by (apply nth_error_Some; congruence).
    destruct (Hu i mi) as (m0 & H0 & Heq).
    { rewrite nth_error_app1 by exact Hlt. exact Hi. }
    exists m0. split; [|exact Heq].
    rewrite nth_error_app1 in H0 by lia. exact H0.
  - destruct l1 as [|x l1]; [exact (Hu i mi Hi)|].
    assert (Hlt : (i < length l2)%nat) by (apply nth_error_Some; congruence).
    destruct (nth_error l2 0) as [h2|] eqn:E2;
      [|apply nth_error_None in E2; lia].
    exists h2. split; [reflexivity|].
    destruct (Hu (length (x :: l1) + i)%nat mi) as (m0 & H0 & Heq).
    { rewrite nth_error_app2 by lia.
      replace (length (x :: l1) + i - length (x :: l1))%nat with i by lia.
      exact Hi. }
    destruct (Hu (length (x :: l1) + 0)%nat h2) as (m0' & H0' & Heq').
    { rewrite nth_error_app2 by lia.
      replace (length (x :: l1) + 0 - length (x :: l1))%nat with 0%nat by lia.
      exact E2. }
    assert (m0' = m0) by congruence. subst m0'.
    exact (equal_to_the_same _ _ _ Heq Heq').
Qed.

Lemma uniform_same_mass s :
  uniform (array FMass s) ->
  forall i, (i < length (array FMass s))%nat -> same_mass s i.
Proof.
  intros Hu i Hi. destruct (nth_error (array FMass s) i) as [mi|] eqn:E;
    [|apply nth_error_None in E; lia].
  destruct (Hu i mi E) as (m0 & H0 & Heq). exists mi, m0. auto.
Qed.

Lemma same_mass_uniform s n :
  length (array FMass s) = n ->
  (forall i, (i < n)%nat -> same_mass s i) -> uniform (array FMass s).
Proof.
  intros Hlen Hall i mi Hi.
  assert (Hlt : (i < n)%nat) by (rewrite <- Hlen; apply nth_error_Some; congruence).
  destruct (Hall i Hlt) as (mi' & m0 & Hi' & H0 & Heq).
  exists m0. split; [exact H0|]. congruence.
Qed.

Lemma mass_is_populated snap : In FMass (populated_fields snap).
Proof. unfold populated_fields. apply in_or_app. left. simpl. tauto. Qed.

(** A window the snapshot covers, with uniform masses and an allocator
    that grants its requests, is loaded. *)
Lemma window_returns snap st mx n total s :
  resolve_count snap st mx = n ->
  complete snap total ->
  0 < n -> 3 * n <= INT_MAX -> 0 <= st ->
  (Z.to_nat st + Z.to_nat n <= total)%nat ->
  grants n ->
  uniform (field_values snap FMass n st) ->
  exists p, load_snapshot snap st mx s = Ok n p.
Proof.
  intros Hc Hcomplete Hn H3 Hst Hw Hg Hu.
  destruct (load_masses_runs snap st mx s) as (s1 & Hm & F);
    try (rewrite Hc; first [lia | assumption]).
  destruct (load_masses_Ok _ _ _ _ _ Hm) as (Hs & Hh).
  rewrite Hc in *.
  assert (Harr : array FMass s1 = field_values snap FMass n st).
  { pose proof (Hs FMass (core_fields_required FMass ltac:(simpl; tauto))) as Hsz.
    rewrite cells_of_field in Hsz by lia.
    rewrite <- (field_values_length snap FMass n st total Hcomplete Hw
                  (mass_is_populated snap)) in Hsz.
    unfold array. rewrite (holds_sized _ _ _ Hh Hsz). reflexivity. }
  rewrite <- Hc. apply (load_snapshot_returns snap st mx s s1);
    try (rewrite Hc; first [lia | assumption]); [exact Hm|].
  intros i Hi. apply uniform_same_mass; rewrite Harr; [exact Hu|].
  rewrite (field_values_length snap FMass n st total Hcomplete Hw
             (mass_is_populated snap)).
  simpl. lia.
Qed.

(** C5, as the code has it. On a snapshot with 100 particles of the type
    whose blocks hold all 100, when the load of [0, 100) returns, it
    returns 100 particles; the loads of [0, 50) and of [50, 100) return
    too when their allocations are granted; and when they return, they
    return 50 particles each, and in every field the load fills from the
    snapshot the array of the single load is the array of the first page
    followed by the array of the second. *)
Theorem paged_loads_are_the_single_load snap s1 s2 s r p :
  GetNpart snap PARTTYPE = 100 ->
  complete snap 100 ->
  load_snapshot snap 0 100 s = Ok r p ->
  r = 100 /\
  (grants 50 ->
   exists p1 p2,
     load_snapshot snap 0 50 s1 = Ok 50 p1 /\
     load_snapshot snap 50 50 s2 = Ok 50 p2) /\
  (forall r1 p1 r2 p2,
      load_snapshot snap 0 50 s1 = Ok r1 p1 ->
      load_snapshot snap 50 50 s2 = Ok r2 p2 ->
      r1 = 50 /\ r2 = 50 /\
      forall f, In f (populated_fields snap) ->
                array f p = array f p1 ++ array f p2).
Proof.
  intros HN Hc H.
  assert (C1 : resolve_count snap 0 50 = 50)
    by (unfold resolve_count; rewrite HN; reflexivity).
  assert (C2 : resolve_count snap 50 50 = 50)
    by (unfold resolve_count; rewrite HN; reflexivity).
  assert (C : resolve_count snap 0 100 = 100)
    by (unfold resolve_count; rewrite HN; reflexivity).
  apply load_snapshot_Ok in H as (-> & _ & _ & L). rewrite C in *.
  specialize (L ltac:(lia)).
  assert (Hfull : forall f, In f (populated_fields snap) ->
             array f p = field_values snap f 100 0).
  { intros f Hf. apply (loaded_array snap 100 0 s p f 100 L Hc);
      unfold INT_MAX; first [lia | exact Hf]. }
  assert (Hsplit : forall f, In f (populated_fields snap) ->
             field_values snap f 100 0 =
             field_values snap f 50 0 ++ field_values snap f 50 50).
  { intros f Hf.
    apply (field_values_split snap f 50 50 0 100 Hc); first [lia | exact Hf]. }
  split; [reflexivity|]. split.
  - intros Hg.
    assert (Hu : uniform (field_values snap FMass 50 0 ++
                          field_values snap FMass 50 50)).
    { rewrite <- (Hsplit FMass (mass_is_populated snap)).
      rewrite <- (Hfull FMass (mass_is_populated snap)).
      apply (same_mass_uniform p 100); [|exact (ld_uniform _ _ _ _ _ L)].
      rewrite (Hfull FMass (mass_is_populated snap)).
      rewrite (field_values_length snap FMass 100 0 100 Hc ltac:(lia)
                 (mass_is_populated snap)).
      reflexivity. }
    apply uniform_app in Hu as [Hu1 Hu2].
    destruct (window_returns snap 0 50 50 100 s1 C1 Hc) as (p1 & H1);
      try (unfold INT_MAX; lia); try assumption.
    destruct (window_returns snap 50 50 50 100 s2 C2 Hc) as (p2 & H2);
      try (unfold INT_MAX; lia); try assumption.
    exists p1, p2. split; assumption.
  - intros r1 p1 r2 p2 H1 H2.
    apply load_snapshot_Ok in H1 as (-> & _ & _ & L1).
    apply load_snapshot_Ok in H2 as (-> & _ & _ & L2).
    rewrite C1 in *. rewrite C2 in *.
    specialize (L1 ltac:(lia)). specialize (L2 ltac:(lia)).
    split; [reflexivity|]. split; [reflexivity|].
    intros f Hf.
    rewrite (Hfull f Hf), (Hsplit f Hf).
    rewrite (loaded_array snap 50 0 s1 p1 f 100 L1 Hc)
      by (unfold INT_MAX; first [lia | exact Hf]).
    rewrite (loaded_array snap 50 50 s2 p2 f 100 L2 Hc)
      by (unfold INT_MAX; first [lia | exact Hf]).
    reflexivity.
Qed.

(* =============================================================== *)
(** ** The steps of an allocation *)

Lemma fresh_array_of_trace s1 s2 size :
  trace s1 = trace s2 -> fresh_array s1 size = fresh_array s2 size.
Proof. unfold fresh_array. intros ->. reflexivity. Qed.

(** A chain that succeeds made every request in order, each granted
    after the ones before it, and touched no other field. *)
Lemma alloc_chain_true l :
  NoDup (map fst l) ->
  forall s s',
    alloc_chain l s = Ok true s' ->
    out s' = out s /\
    trace s' = trace s ++ map granted l /\
    (forall g, ~ In g (map fst l) -> get_field g (P s') = get_field g (P s)) /\
    (forall pre f size post,
        l = pre ++ (f, size) :: post ->
        exists init,
          allocator (trace s ++ map granted pre) size = Some init /\
          get_field f (P s') = Some (map init (seq 0 (cells size)))).
Proof.
  induction l as [|[f size] l IH]; intros Hnd s s' H.
  - simpl in H. unfold ret in H. injection H as <-.
    split; [reflexivity|]. split; [symmetry; apply app_nil_r|].
    split; [reflexivity|]. intros [|? ?] ? ? ? Habs; discriminate.
  - inversion Hnd as [|? ? Hnotin Hnd']; subst.
    simpl in H. unfold and_then at 1 in H.
    rewrite (bind_Ok_intro _ _ _ _ _ (alloc_field_eq f size s)) in H.
    unfold fresh_array in H.
    destruct (allocator (trace s) size) as [init|] eqn:Ha; simpl in H;
      [|discriminate].
    apply IH in H as (Ho & Ht & Hf & Hfresh); [|exact Hnd']. simpl in *.
    split; [exact Ho|]. split; [rewrite Ht, <- app_assoc; reflexivity|].
    split.
    + intros g Hg. rewrite Hf by tauto. apply get_set_other.
      intros ->. tauto.
    + intros [|[g z] pre] f' size' post Heq; simpl in Heq.
      * injection Heq as <- <- <-. exists init. rewrite app_nil_r.
        split; [exact Ha|]. rewrite Hf by exact Hnotin. apply get_set_same.
      * injection Heq as <- <- ->.
        destruct (Hfresh pre f' size' post eq_refl) as (init' & Hi & Hg).
        exists init'. split; [|exact Hg].
        simpl. rewrite <- app_assoc in Hi. exact Hi.
Qed.

(** A chain that fails stopped at its first refused request: the
    requests before it were granted, the field of the refused one is
    null, and no later field was touched. *)
Lemma alloc_chain_false l :
  NoDup (map fst l) ->
  forall s s',
    alloc_chain l s = Ok false s' ->
    exists pre f size post,
      l = pre ++ (f, size) :: post /\
      out s' = out s /\
      trace s' = trace s ++ map granted pre ++ [Malloc size false] /\
      allocator (trace s ++ map granted pre) size = None /\
      get_field f (P s') = None /\
      (forall g z, In (g, z) pre -> sized g (cells z) s') /\
      (forall g, ~ In g (map fst pre) -> g <> f ->
                 get_field g (P s') = get_field g (P s)).
Proof.
  induction l as [|[f size] l IH]; intros Hnd s s' H.
  - discriminate.
  - inversion Hnd as [|? ? Hnotin Hnd']; subst.
    simpl in H. unfold and_then at 1 in H.
    rewrite (bind_Ok_intro _ _ _ _ _ (alloc_field_eq f size s)) in H.
    unfold fresh_array in H.
    destruct (allocator (trace s) size) as [init|] eqn:Ha; simpl in H.
    + apply IH in H
        as (pre & g & z & post & -> & Ho & Ht & Hno & Hnull & Hpre & Hrest);
        [|exact Hnd'].
      simpl in *.
      exists ((f, size) :: pre), g, z, post.
      split; [reflexivity|]. split; [exact Ho|].
      split; [rewrite Ht, <- app_assoc; reflexivity|].
      split; [simpl; rewrite <- app_assoc in Hno; exact Hno|].
      split; [exact Hnull|]. split.
      * intros g' z' [Heq|Hin]; [|apply Hpre, Hin].
        injection Heq as <- <-.
        exists (map init (seq 0 (cells size))).
        split; [|rewrite length_map; apply length_seq].
        rewrite Hrest.
        -- apply get_set_same.
        -- intros Hin. apply Hnotin. rewrite map_app. apply in_or_app. tauto.
        -- intros ->. apply Hnotin. rewrite map_app. apply in_or_app. right.
           left. reflexivity.
      * intros g' Hg' Hne. simpl in Hg'. rewrite Hrest by tauto.
        apply get_set_other. intros ->. tauto.
    + unfold ret in H. injection H as <-.
      exists [], f, size, l. simpl. rewrite app_nil_r.
      split; [reflexivity|]. split; [reflexivity|]. split; [reflexivity|].
      split; [exact Ha|]. split; [apply get_set_same|].
      split; [intros ? ? []|].
      intros g _ Hne. apply get_set_other. exact Hne.
Qed.

Lemma requested_fields np :
  map fst (map (fun f => (f, field_size np f)) required_fields) =
  required_fields.
Proof. rewrite map_map. apply map_id. Qed.

Lemma requested_NoDup np :
  NoDup (map fst (map (fun f => (f, field_size np f)) required_fields)).
Proof. rewrite requested_fields. apply required_fields_NoDup. Qed.

Lemma map_eq_app_cons {A B} (h : A -> B) l pre y post :
  map h l = pre ++ y :: post ->
  exists pre' x post',
    l = pre' ++ x :: post' /\ pre = map h pre' /\ y = h x /\ post = map h post'.
Proof.
  revert pre. induction l as [|a l IH]; intros [|b pre] H; simpl in H;
    try discriminate.
  - injection H as <- <-. exists [], a, l. auto.
  - injection H as <- H.
    apply IH in H as (pre' & x & post' & -> & -> & -> & ->).
    exists (a :: pre'), x, post'. auto.
Qed.

(** [alloc_parts] that reports failure, in terms of its fields. *)
Lemma alloc_parts_false np s s' :
  alloc_parts np s = Ok false s' ->
  exists pre f post,
    required_fields = pre ++ f :: post /\
    out s' = out s /\
    trace s' =
      trace s ++ map (fun g => Malloc (field_size np g) true) pre ++
      [Malloc (field_size np f) false] /\
    allocator
      (trace s ++ map (fun g => Malloc (field_size np g) true) pre)
      (field_size np f) = None /\
    get_field f (P s') = None /\
    (forall g, In g pre -> sized g (cells (field_size np g)) s') /\
    (forall g, ~ In g pre -> g <> f ->
               get_field g (P s') = get_field g (P s)).
Proof.
  rewrite alloc_parts_chain. intros H.
  apply alloc_chain_false in H
    as (pre & f & size & post & Hl & Ho & Ht & Hno & Hnull & Hpre & Hrest);
    [|apply requested_NoDup].
  apply map_eq_app_cons in Hl as (pre' & f' & post' & Hreq & -> & Hf & ->).
  injection Hf as -> ->.
  assert (Hg : map granted (map (fun f => (f, field_size np f)) pre') =
               map (fun g => Malloc (field_size np g) true) pre').
  { rewrite map_map. reflexivity. }
  rewrite Hg in Ht, Hno. rewrite map_map in Hrest. simpl in Hrest.
  rewrite map_id in Hrest.
  exists pre', f', post'.
  split; [exact Hreq|]. split; [exact Ho|]. split; [exact Ht|].
  split; [exact Hno|]. split; [exact Hnull|]. split; [|exact Hrest].
  intros g Hin. apply Hpre. apply in_map_iff. exists g. auto.
Qed.

Lemma requests_before_split np f pre post :
  ~ In f pre ->
  requests_before np f (pre ++ f :: post) =
  map (fun g => Malloc (field_size np g) true) pre.
Proof.
  induction pre as [|g pre IH]; intros Hnot; simpl.
  - destruct (field_eq_dec f f); [reflexivity | contradiction].
  - destruct (field_eq_dec f g) as [->|_]; [simpl in Hnot; tauto|].
    rewrite IH by (simpl in Hnot; tauto). reflexivity.
Qed.

(** [alloc_parts] that reports success, in terms of its fields. *)
Lemma alloc_parts_true np s s' :
  alloc_parts np s = Ok true s' ->
  out s' = out s /\
  trace s' =
    trace s ++ map (fun g => Malloc (field_size np g) true) required_fields /\
  (forall g, ~ In g required_fields ->
             get_field g (P s') = get_field g (P s)) /\
  (forall f, In f required_fields ->
     exists init,
       allocator (trace s ++ requests_before np f required_fields)
                 (field_size np f) = Some init /\
       get_field f (P s') = Some (map init (seq 0 (cells (field_size np f))))).
Proof.
  rewrite alloc_parts_chain. intros H.
  apply alloc_chain_true in H as (Ho & Ht & Hrest & Hfresh);
    [|apply requested_NoDup].
  rewrite requested_fields in Hrest. rewrite map_map in Ht. simpl in Ht.
  split; [exact Ho|]. split; [exact Ht|]. split; [exact Hrest|].
  intros f Hin. apply in_split in Hin as (pre & post & Heq).
  assert (Hnot : ~ In f pre).
  { pose proof required_fields_NoDup as Hnd. rewrite Heq in Hnd.
    apply NoDup_remove_2 in Hnd. intros Hin. apply Hnd, in_or_app. tauto. }
  destruct (Hfresh (map (fun f => (f, field_size np f)) pre) f (field_size np f)
              (map (fun f => (f, field_size np f)) post))
    as (init & Hi & Hg).
  { rewrite Heq, map_app. reflexivity. }
  exists init. rewrite Heq at 1. rewrite requests_before_split by exact Hnot.
  rewrite map_map in Hi. split; assumption.
Qed.

Lemma allocate_refused n s c s' :
  allocate n s = Exited c s' ->
  c = 1 /\ alloc_parts (int32 n) s = Ok false s'.
Proof.
  unfold allocate. intros H.
  destruct (alloc_parts_spec (int32 n) s) as (b & s1 & evs & Hrun & _).
  rewrite (bind_Ok_intro _ _ _ _ _ Hrun) in H.
  destruct b; [discriminate|]. unfold exit in H. injection H as <- <-.
  split; [reflexivity | exact Hrun].
Qed.

Lemma allocate_granted n s s' :
  allocate n s = Ok tt s' -> alloc_parts (int32 n) s = Ok true s'.
Proof.
  unfold allocate. intros H.
  destruct (alloc_parts_spec (int32 n) s) as (b & s1 & evs & Hrun & _).
  rewrite (bind_Ok_intro _ _ _ _ _ Hrun) in H.
  destruct b; [|discriminate]. unfold ret in H. injection H as <-. exact Hrun.
Qed.

(* =============================================================== *)
(** ** The ways a load ends *)

(** The stages of a load that reads particles, one after the other. *)
Lemma load_snapshot_stages snap st mx s :
  resolve_count snap st mx <> 0 ->
  load_snapshot snap st mx s =
  (allocate (resolve_count snap st mx) ;;
   read_kinematics snap (resolve_count snap st mx) st ;;
   resolve_mass snap (resolve_count snap st mx) st ;;
   check_mass (resolve_count snap st mx) ;;
   baryon_fraction snap ;;
   read_gas snap (resolve_count snap st mx) st ;;
   ret (resolve_count snap st mx))
    (mk_state (P s)
       (mk_outputs (time (GetHeader snap)) (redshift (GetHeader snap))
          (hubble (HubbleParam (GetHeader snap)) (time (GetHeader snap))
             (Omega0 (GetHeader snap)) (OmegaLambda (GetHeader snap)))
          (BoxSize (GetHeader snap)) (HubbleParam (GetHeader snap))
          (o_omegab (out s)))
       (trace s)).
Proof.
  intros Hn. unfold load_snapshot.
  rewrite (bind_Ok_intro _ _ _ _ _ (read_header_eq snap s)).
  apply Z.eqb_neq in Hn. rewrite Hn. reflexivity.
Qed.

Lemma load_snapshot_exit snap st mx s c s' :
  load_snapshot snap st mx s = Exited c s' ->
  resolve_count snap st mx <> 0 /\
  header_written snap s' /\
  o_omegab (out s') = o_omegab (out s) /\
  ((c = 1 /\
    exists s0,
      out s0 = out s' /\ trace s0 = trace s /\
      alloc_parts (int32 (resolve_count snap st mx)) s0 = Ok false s') \/
   (c = 0 /\
    (exists i,
        (i < Z.to_nat (resolve_count snap st mx))%nat /\ other_mass s' i) /\
    trace s' =
      trace s ++
      map (fun f =>
             Malloc (field_size (int32 (resolve_count snap st mx)) f) true)
          required_fields ++
      [GetBlockCall "POS " (resolve_count snap st mx) st other_types;
       GetBlockCall "VEL " (resolve_count snap st mx) st other_types] ++
      mass_events snap (resolve_count snap st mx) st)).
Proof.
  intros H.
  assert (Hn : resolve_count snap st mx <> 0).
  { intros Hz. unfold load_snapshot in H.
    rewrite (bind_Ok_intro _ _ _ _ _ (read_header_eq snap s)), Hz in H.
    discriminate. }
  split; [exact Hn|].
  rewrite (load_snapshot_stages _ _ _ _ Hn) in H.
  set (n := resolve_count snap st mx) in *. set (s0 := mk_state _ _ _) in H.
  apply bind_Exited in H as [H|([] & s1 & H1 & H)].
  { apply allocate_refused in H as (-> & H).
    pose proof H as Hf.
    apply alloc_parts_false in Hf as (_ & _ & _ & _ & Ho & _).
    split; [|split].
    - unfold header_written. rewrite Ho. unfold s0. simpl. auto 6.
    - rewrite Ho. reflexivity.
    - left. split; [reflexivity|].
      exists s0. split; [symmetry; exact Ho|]. split; [reflexivity | exact H]. }
  apply allocate_Ok in H1 as (E1 & S1).
  apply bind_Exited in H as [H|([] & s2 & H2 & H)];
    [destruct (read_kinematics_not_Exited _ _ _ _ _ _ H)|].
  apply read_kinematics_Ok in H2 as (E2 & K2 & _).
  apply bind_Exited in H as [H|([] & s3 & H3 & H)];
    [destruct (resolve_mass_not_Exited _ _ _ _ _ _ H)|].
  apply resolve_mass_Ok in H3 as (E3 & _).
  2:{ destruct (K2 FMass _ (S1 FMass (core_fields_required FMass
                                        ltac:(simpl; tauto))))
        as (l & Hl & _). congruence. }
  assert (Ho : out s3 = out s0).
  { rewrite (eff_out _ _ _ _ E3), (eff_out _ _ _ _ E2).
    apply (eff_out _ _ _ _ E1). }
  apply bind_Exited in H as [H|([] & s4 & _ & H)].
  - apply check_mass_Exited in H as (-> & -> & Hex).
    split; [|split].
    + unfold header_written. rewrite Ho. unfold s0. simpl. auto 6.
    + rewrite Ho. reflexivity.
    + right. split; [reflexivity|]. split; [exact Hex|].
      rewrite (eff_trace _ _ _ _ E3), (eff_trace _ _ _ _ E2),
        (eff_trace _ _ _ _ E1).
      unfold s0. simpl trace. rewrite <- !app_assoc. reflexivity.
  - apply bind_Exited in H as [H|([] & s5 & _ & H)];
      [destruct (baryon_fraction_not_Exited _ _ _ _ H)|].
    apply bind_Exited in H as [H|([] & s6 & _ & H)];
      [destruct (read_gas_not_Exited _ _ _ _ _ _ H) | discriminate].
Qed.

Lemma read_gas_leaves_unfilled snap n st s s' f :
  read_gas snap n st s = Ok tt s' ->
  In f required_fields -> ~ In f (populated_fields snap) ->
  get_field f (P s') = get_field f (P s).
Proof.
  intros H Hreq Hnot. pose proof (read_gas_Ok _ _ _ _ _ H) as (E & _).
  unfold read_gas in H. unfold populated_fields in Hnot.
  destruct (Nat.eqb PARTTYPE 0).
  - destruct (flag_cooling (GetHeader snap) =? 0).
    + apply bind_Ok in H as ([] & s1 & H1 & H).
      apply bind_Ok in H as ([] & s2 & H2 & H3).
      unfold ret in H2. injection H2 as <-.
      apply GetBlock_Ok in H1 as (E1 & _). apply GetBlock_Ok in H3 as (E3 & _).
      rewrite (eff_fields _ _ _ _ E3), (eff_fields _ _ _ _ E1);
        [reflexivity| |]; intros [<-|[]]; apply Hnot; simpl; tauto.
    + exfalso. apply Hnot. unfold required_fields in Hreq.
      destruct HELIUM; simpl in *; tauto.
  - unfold ret in H. injection H as <-. reflexivity.
Qed.

(** A load that reads particles, by the memory its allocation left. *)
Lemma load_snapshot_trail snap st mx s r s' :
  load_snapshot snap st mx s = Ok r s' ->
  r <> 0 ->
  exists s0 s1,
    P s0 = P s /\ trace s0 = trace s /\
    alloc_parts (int32 r) s0 = Ok true s1 /\
    (forall f, In f required_fields -> ~ In f (populated_fields snap) ->
               get_field f (P s') = get_field f (P s1)) /\
    (forall f, ~ In f required_fields ->
               get_field f (P s') = get_field f (P s)).
Proof.
  intros H Hr.
  assert (Hc : r = resolve_count snap st mx)
    by (apply load_snapshot_Ok in H as [-> _]; reflexivity).
  rewrite load_snapshot_stages in H by congruence. rewrite <- Hc in H.
  set (s0 := mk_state _ _ _) in H.
  apply bind_Ok in H as ([] & s1 & H1 & H).
  apply bind_Ok in H as ([] & s2 & H2 & H).
  apply bind_Ok in H as ([] & s3 & H3 & H).
  apply bind_Ok in H as ([] & s4 & H4 & H).
  apply bind_Ok in H as ([] & s5 & H5 & H).
  apply bind_Ok in H as ([] & s6 & H6 & H).
  unfold ret in H. injection H as <-.
  pose proof (allocate_Ok _ _ _ H1) as (E1 & S1).
  apply allocate_granted in H1.
  apply read_kinematics_Ok in H2 as (E2 & K2 & _).
  apply resolve_mass_Ok in H3 as (E3 & _).
  2:{ destruct (K2 FMass _ (S1 FMass (core_fields_required FMass
                                        ltac:(simpl; tauto))))
        as (l & Hl & _). congruence. }
  apply check_mass_Ok in H4 as (-> & _).
  apply baryon_fraction_Ok in H5 as (m0 & _ & ->).
  exists s0, s1. split; [reflexivity|]. split; [reflexivity|].
  split; [exact H1|]. split.
  - intros f Hreq Hnot.
    rewrite (read_gas_leaves_unfilled _ _ _ _ _ f H6 Hreq Hnot). simpl.
    assert (Hcore : ~ In f [FPos; FVel; FMass]).
    { intros Hin. apply Hnot. unfold populated_fields. apply in_or_app. tauto. }
    rewrite (eff_fields _ _ _ _ E3) by (simpl in *; tauto).
    apply (eff_fields _ _ _ _ E2). simpl in *. tauto.
  - intros f Hnot.
    assert (Hh : HELIUM = false /\ f = FNHep).
    { unfold required_fields in Hnot.
      destruct HELIUM, f; simpl in Hnot; tauto. }
    destruct Hh as (Hh & ->).
    assert (Hgas : get_field FNHep (P s6) = get_field FNHep (P s3)).
    { clear - H6 Hh. unfold read_gas in H6.
      destruct (Nat.eqb PARTTYPE 0);
        [|unfold ret in H6; injection H6 as <-; reflexivity].
      apply bind_Ok in H6 as ([] & t1 & G1 & H6).
      apply bind_Ok in H6 as ([] & t2 & G2 & G3).
      apply GetBlock_Ok in G1 as (F1 & _). apply GetBlock_Ok in G3 as (F3 & _).
      rewrite (eff_fields _ _ _ _ F3) by (intros [Habs|[]]; discriminate).
      transitivity (get_field FNHep (P t1));
        [|exact (eff_fields _ _ _ _ F1 FNHep
                   ltac:(intros [Habs|[]]; discriminate))].
      destruct (flag_cooling (GetHeader snap) =? 0);
        [unfold ret in G2; injection G2 as <-; reflexivity|].
      unfold read_cooling in G2. rewrite Hh in G2.
      apply bind_Ok in G2 as ([] & u1 & C1 & G2).
      apply bind_Ok in G2 as ([] & u2 & C2 & C3).
      unfold ret in C2. injection C2 as <-.
      apply electron_Ok in C1 as (F & _). apply GetBlock_Ok in C3 as (F' & _).
      rewrite (eff_fields _ _ _ _ F') by (intros [Habs|[]]; discriminate).
      apply (eff_fields _ _ _ _ F). intros [Habs|[Habs|[]]]; discriminate. }
    rewrite Hgas.
    rewrite (eff_fields _ _ _ _ E3) by (intros [Habs|[]]; discriminate).
    rewrite (eff_fields _ _ _ _ E2) by (intros [Habs|[Habs|[]]]; discriminate).
    rewrite (eff_fields _ _ _ _ E1) by exact Hnot. reflexivity.
Qed.

(* =============================================================== *)
(** ** Memories a load cannot tell apart *)

Lemma blind_ret {A} (a : A) : blind (ret a).
Proof. intros s1 s2 R. simpl. auto. Qed.

Lemma blind_exit {A} c : blind (@exit A c).
Proof. intros s1 s2 R. simpl. auto. Qed.

Lemma blind_undefined {A} : blind (@undefined A).
Proof. intros s1 s2 R. exact I. Qed.

Lemma blind_bind {A B} (m : M A) (k : A -> M B) :
  blind m -> (forall a, blind (k a)) -> blind (bind m k).
Proof.
  intros Hm Hk s1 s2 R. unfold bind. specialize (Hm s1 s2 R).
  destruct (m s1) as [a t1|c t1|], (m s2) as [b t2|c' t2|]; simpl in Hm;
    try contradiction; try exact I.
  - destruct Hm as [<- R']. apply Hk, R'.
  - exact Hm.
Qed.

Lemma blind_log e : blind (log e).
Proof.
  intros s1 s2 (Ht & Hf & Ho). unfold log. simpl. split; [reflexivity|].
  split; [simpl; rewrite Ht; reflexivity|]. split; [exact Hf | exact Ho].
Qed.

Lemma blind_get_P f : In f required_fields -> blind (get_P f).
Proof.
  intros Hin s1 s2 R. unfold get_P. simpl. split; [|exact R].
  destruct R as (_ & Hf & _). apply Hf, Hin.
Qed.

Lemma blind_set_P f b : blind (set_P f b).
Proof.
  intros s1 s2 (Ht & Hf & Ho). unfold set_P. simpl. split; [reflexivity|].
  split; [exact Ht|]. split; [|exact Ho].
  intros g Hg. simpl. destruct (field_eq_dec g f) as [->|Hne].
  - rewrite !get_set_same. reflexivity.
  - rewrite !get_set_other by exact Hne. apply Hf, Hg.
Qed.

Lemma blind_set_omegab v : blind (set_out (set_omegab v)).
Proof.
  intros s1 s2 (Ht & Hf & Ho). unfold set_out. simpl. split; [reflexivity|].
  split; [exact Ht|]. split; [exact Hf | exact Ho].
Qed.

Lemma blind_load f i : In f required_fields -> blind (load f i).
Proof.
  intros Hin. unfold load. apply blind_bind; [apply blind_get_P, Hin|].
  intros [l|]; [|apply blind_undefined].
  destruct (nth_error l i); [apply blind_ret | apply blind_undefined].
Qed.

Lemma blind_store f i v : In f required_fields -> blind (store f i v).
Proof.
  intros Hin. unfold store. apply blind_bind; [apply blind_get_P, Hin|].
  intros [l|]; [|apply blind_undefined].
  destruct (update l i v); [apply blind_set_P | apply blind_undefined].
Qed.

Lemma blind_for_range body :
  (forall i, blind (body i)) -> forall n from, blind (for_range from n body).
Proof.
  intros Hb n. induction n as [|n IH]; intros from; simpl.
  - apply blind_ret.
  - apply blind_bind; [apply Hb | intros _; apply IH].
Qed.

Lemma blind_GetBlock snap tag dest c st k :
  In dest required_fields -> blind (GetBlock snap tag dest c st k).
Proof.
  intros Hin. unfold GetBlock. apply blind_bind; [apply blind_log|].
  intros _. apply blind_bind; [apply blind_get_P, Hin|].
  intros [l|]; [|apply blind_undefined].
  destruct (overwrite _ l); [apply blind_set_P | apply blind_undefined].
Qed.

Lemma blind_accumulate n scale : blind (accumulate n scale).
Proof.
  unfold accumulate. apply blind_for_range. intros k.
  apply blind_bind; [apply blind_load, core_fields_required; simpl; tauto|].
  intros ne.
  apply blind_bind; [apply blind_load, core_fields_required; simpl; tauto|].
  intros hk. apply blind_store, core_fields_required. simpl. tauto.
Qed.

Lemma blind_read_cooling snap n st : blind (read_cooling snap n st).
Proof.
  assert (Hcore : forall tag dest k,
             In dest [FVel; FPos; FMass; FU; FNH0; FNe; Fh] ->
             blind (GetBlock snap tag dest n st k)).
  { intros tag dest k Hin. apply blind_GetBlock, core_fields_required, Hin. }
  unfold read_cooling.
  apply blind_bind; [|intros _; apply blind_bind; [|intros _]].
  - destruct GADGET3; [apply Hcore; simpl; tauto|].
    apply blind_bind; [apply Hcore; simpl; tauto | intros _].
    apply blind_bind; [apply Hcore; simpl; tauto | intros _].
    apply blind_bind; [apply blind_accumulate | intros _].
    apply blind_bind; [apply Hcore; simpl; tauto | intros _].
    apply blind_accumulate.
  - destruct HELIUM eqn:Hh; [|apply blind_ret].
    apply blind_GetBlock. unfold required_fields. rewrite Hh. simpl. tauto.
  - apply Hcore. simpl. tauto.
Qed.

Lemma blind_read_gas snap n st : blind (read_gas snap n st).
Proof.
  unfold read_gas. destruct (Nat.eqb PARTTYPE 0); [|apply blind_ret].
  apply blind_bind;
    [apply blind_GetBlock, core_fields_required; simpl; tauto | intros _].
  apply blind_bind; [|intros _].
  - destruct (flag_cooling (GetHeader snap) =? 0);
      [apply blind_ret | apply blind_read_cooling].
  - apply blind_GetBlock, core_fields_required. simpl. tauto.
Qed.

Lemma blind_check_mass n : blind (check_mass n).
Proof.
  unfold check_mass. apply blind_for_range. intros i. unfold check_entry.
  apply blind_bind; [apply blind_load, core_fields_required; simpl; tauto|].
  intros mi.
  apply blind_bind; [apply blind_load, core_fields_required; simpl; tauto|].
  intros m0. destruct (Fmt.neb mi m0); [apply blind_exit | apply blind_ret].
Qed.

(** Everything a load does once its arrays are allocated. *)
Lemma blind_after_allocation snap n st :
  blind (read_kinematics snap n st ;;
         resolve_mass snap n st ;;
         check_mass n ;;
         baryon_fraction snap ;;
         read_gas snap n st ;;
         ret n).
Proof.
  apply blind_bind; [|intros _].
  { unfold read_kinematics.
    apply blind_bind; [|intros _];
      apply blind_GetBlock, core_fields_required; simpl; tauto. }
  apply blind_bind; [|intros _].
  { unfold resolve_mass.
    destruct (Double.truthy (mass (GetHeader snap) PARTTYPE)).
    - apply blind_for_range. intros i.
      apply blind_store, core_fields_required. simpl. tauto.
    - apply blind_GetBlock, core_fields_required. simpl. tauto. }
  apply blind_bind; [apply blind_check_mass | intros _].
  apply blind_bind; [|intros _].
  { unfold baryon_fraction.
    apply blind_bind; [apply blind_load, core_fields_required; simpl; tauto|].
    intros m0. apply blind_set_omegab. }
  apply blind_bind; [apply blind_read_gas | intros _]. apply blind_ret.
Qed.

(** Two allocations after the same calls get the same answers. *)
Lemma alloc_chain_blind l :
  NoDup (map fst l) ->
  forall s1 s2,
    trace s1 = trace s2 ->
    exists b t1 t2,
      alloc_chain l s1 = Ok b t1 /\ alloc_chain l s2 = Ok b t2 /\
      trace t1 = trace t2 /\ out t1 = out s1 /\ out t2 = out s2 /\
      (b = true ->
       forall f, In f (map fst l) -> get_field f (P t1) = get_field f (P t2)).
Proof.
  induction l as [|[f size] l IH]; intros Hnd s1 s2 Ht.
  - exists true, s1, s2. simpl.
    repeat (split; [first [reflexivity | exact Ht]|]). intros _ f [].
  - inversion Hnd as [|? ? Hnotin Hnd']; subst. simpl.
    unfold and_then at 1 2.
    rewrite (bind_Ok_intro _ _ _ _ _ (alloc_field_eq f size s1)).
    rewrite (bind_Ok_intro _ _ _ _ _ (alloc_field_eq f size s2)).
    rewrite (fresh_array_of_trace s1 s2 size Ht).
    destruct (fresh_array s2 size) as [a|]; simpl.
    + set (u1 := mk_state _ _ _). set (u2 := mk_state _ _ _).
      destruct (IH Hnd' u1 u2)
        as (b & t1 & t2 & H1 & H2 & Ht' & Ho1 & Ho2 & Hf).
      { unfold u1, u2. simpl. rewrite Ht. reflexivity. }
      exists b, t1, t2. split; [exact H1|]. split; [exact H2|].
      split; [exact Ht'|]. split; [exact Ho1|]. split; [exact Ho2|].
      intros -> g [<-|Hin]; [|apply Hf; [reflexivity | exact Hin]].
      apply alloc_chain_true in H1 as (_ & _ & F1 & _); [|exact Hnd'].
      apply alloc_chain_true in H2 as (_ & _ & F2 & _); [|exact Hnd'].
      rewrite F1, F2 by exact Hnotin. unfold u1, u2. simpl.
      rewrite !get_set_same. reflexivity.
    + do 3 eexists. split; [reflexivity|]. split; [reflexivity|]. simpl.
      split; [rewrite Ht; reflexivity|]. split; [reflexivity|].
      split; [reflexivity | discriminate].
Qed.

Lemma allocate_blind n s1 s2 :
  trace s1 = trace s2 ->
  match allocate n s1, allocate n s2 with
  | Ok _ t1, Ok _ t2 =>
      trace t1 = trace t2 /\ out t1 = out s1 /\ out t2 = out s2 /\
      forall f, In f required_fields -> get_field f (P t1) = get_field f (P t2)
  | Exited c t1, Exited c' t2 =>
      c = 1 /\ c' = 1 /\
      trace t1 = trace t2 /\ out t1 = out s1 /\ out t2 = out s2
  | _, _ => False
  end.
Proof.
  intros Ht. unfold allocate, bind. rewrite !alloc_parts_chain.
  destruct (alloc_chain_blind _ (requested_NoDup (int32 n)) s1 s2 Ht)
    as (b & t1 & t2 & H1 & H2 & Ht' & Ho1 & Ho2 & Hf).
  rewrite H1, H2.
  rewrite requested_fields in Hf.
  destruct b; simpl; auto 6.
Qed.

(** A load that reads particles behaves the same whatever the buffer and
    the baryon fraction held before. *)
Lemma load_snapshot_blind snap st mx s1 s2 :
  resolve_count snap st mx <> 0 ->
  trace s1 = trace s2 ->
  match load_snapshot snap st mx s1, load_snapshot snap st mx s2 with
  | Ok r1 p1, Ok r2 p2 => r1 = r2 /\ same_buffer p1 p2
  | Exited c1 p1, Exited c2 p2 => c1 = c2 /\ trace p1 = trace p2
  | Undefined, Undefined => True
  | _, _ => False
  end.
Proof.
  intros Hn Ht. rewrite !load_snapshot_stages by exact Hn.
  set (n := resolve_count snap st mx).
  set (s01 := mk_state (P s1) _ _). set (s02 := mk_state (P s2) _ _).
  pose proof (allocate_blind n s01 s02 Ht) as Ha.
  destruct (allocate n s01) as [[] t1|c t1|] eqn:A1;
    destruct (allocate n s02) as [[] t2|c' t2|] eqn:A2;
    try contradiction.
  - rewrite (bind_Ok_intro _ _ _ _ _ A1), (bind_Ok_intro _ _ _ _ _ A2).
    destruct Ha as (Ht' & Ho1 & Ho2 & Hf).
    assert (R : same_buffer t1 t2).
    { split; [exact Ht'|]. split; [exact Hf|]. rewrite Ho1, Ho2.
      unfold s01, s02. simpl. auto 6. }
    pose proof (blind_after_allocation snap n st t1 t2 R) as Hb.
    match type of Hb with
    | alike _ ?a ?b =>
        destruct a as [r1 p1|c1 p1|]; destruct b as [r2 p2|c2 p2|]
    end; simpl in Hb; try contradiction; try exact I.
    + exact Hb.
    + destruct Hb as (-> & Hp & _). split; [reflexivity | exact Hp].
  - rewrite (bind_Exited_intro _ _ _ _ _ A1), (bind_Exited_intro _ _ _ _ _ A2).
    destruct Ha as (-> & -> & Ht' & _). split; [reflexivity | exact Ht'].
Qed.

(* =============================================================== *)
(** ** Released and dangling pointers *)

Lemma dangles_In f d : dangles f d = true <-> In f d.
Proof.
  unfold dangles. destruct (in_dec field_eq_dec f d); split; auto; discriminate.
Qed.

Lemma free_eq f d s :
  free f d s =
  if is_null (get_field f (P s)) then Ok (tt, d) s
  else if dangles f d then Undefined
  else Ok (tt, f :: d) s.
Proof.
  unfold free, bind, get_P. destruct (is_null (get_field f (P s)));
    [reflexivity|]. destruct (dangles f d); reflexivity.
Qed.

Lemma not_null_iff (b : buffer) : is_null b = false <-> b <> None.
Proof. destruct b; simpl; split; congruence. Qed.

Lemma bind_L_ext {A B} (a : L A) (k k' : A -> L B) :
  (forall x d s, k x d s = k' x d s) ->
  forall d s, bind_L a k d s = bind_L a k' d s.
Proof.
  intros H d s. unfold bind_L, bind. destruct (a d s) as [[x d'] s'| |]; auto.
Qed.

Lemma bind_L_ret (a : L unit) d s : (a ;;; ret_L tt) d s = a d s.
Proof.
  unfold bind_L, bind, ret_L, ret.
  destruct (a d s) as [[[] d'] s'| |]; reflexivity.
Qed.

Lemma free_parts_chain d s : free_parts d s = free_chain released_fields d s.
Proof.
  unfold free_parts, released_fields. revert d s.
  destruct HELIUM; cbn [app free_chain];
    repeat (apply bind_L_ext; intros ?); intros d s;
    [symmetry; apply bind_L_ret | reflexivity].
Qed.

Lemma released_NoDup : NoDup released_fields.
Proof.
  unfold released_fields.
  destruct HELIUM; simpl; repeat constructor; simpl; intuition discriminate.
Qed.

(** [free_parts] releases the fields [alloc_parts] allocates. *)
Lemma released_required f : In f released_fields <-> In f required_fields.
Proof.
  unfold released_fields, required_fields. destruct HELIUM; simpl; tauto.
Qed.

Lemma free_chain_step f l d s :
  free_chain (f :: l) d s =
  if is_null (get_field f (P s)) then free_chain l d s
  else if dangles f d then Undefined
  else free_chain l (f :: d) s.
Proof.
  simpl. unfold bind_L, bind. rewrite free_eq.
  destruct (is_null (get_field f (P s))); [reflexivity|].
  destruct (dangles f d); reflexivity.
Qed.

(** Releasing null pointers does nothing. *)
Lemma free_chain_null l d s :
  (forall f, In f l -> get_field f (P s) = None) ->
  free_chain l d s = Ok (tt, d) s.
Proof.
  induction l as [|f l IH]; intros Hnull; [reflexivity|].
  rewrite free_chain_step, (Hnull f (or_introl eq_refl)). simpl.
  apply IH. intros g Hg. apply Hnull. right. exact Hg.
Qed.

(** Releasing pointers none of which dangles returns, leaves the memory
    as it is, and leaves every pointer that was not null dangling. *)
Lemma free_chain_Ok l :
  NoDup l ->
  forall d s,
    (forall f, In f l -> get_field f (P s) <> None -> ~ In f d) ->
    exists d',
      free_chain l d s = Ok (tt, d') s /\
      forall g, In g d' <-> In g d \/ (In g l /\ get_field g (P s) <> None).
Proof.
  induction l as [|f l IH]; intros Hnd d s Hfree.
  - exists d. split; [reflexivity|]. simpl. tauto.
  - inversion Hnd as [|? ? Hnotin Hnd']; subst. rewrite free_chain_step.
    destruct (is_null (get_field f (P s))) eqn:Hn.
    + destruct (IH Hnd' d s) as (d' & Hrun & Hd').
      { intros g Hg. apply Hfree. right. exact Hg. }
      exists d'. split; [exact Hrun|]. intros g. rewrite Hd'. simpl.
      destruct (get_field f (P s)) eqn:Hf; [discriminate|].
      split; [tauto|]. intros [H|[[<-|H] Hg]]; [tauto | congruence | tauto].
    + apply not_null_iff in Hn.
      destruct (dangles f d) eqn:Hd;
        [apply dangles_In in Hd; destruct (Hfree f (or_introl eq_refl) Hn Hd)|].
      destruct (IH Hnd' (f :: d) s) as (d' & Hrun & Hd').
      { intros g Hg Hgn [<-|Hin]; [contradiction|].
        exact (Hfree g (or_intror Hg) Hgn Hin). }
      exists d'. split; [exact Hrun|]. intros g. rewrite Hd'. simpl.
      split; [intros [[<-|H]|H]; tauto | intros [H|[[<-|H] Hg]]; tauto].
Qed.

(** Releasing a pointer that dangles is undefined. *)
Lemma free_chain_Undefined l :
  forall d s f,
    In f l -> get_field f (P s) <> None -> In f d ->
    free_chain l d s = Undefined.
Proof.
  induction l as [|g l IH]; intros d s f Hin Hn Hd; [destruct Hin|].
  rewrite free_chain_step. destruct Hin as [->|Hin].
  - apply not_null_iff in Hn. rewrite Hn.
    apply dangles_In in Hd. rewrite Hd. reflexivity.
  - destruct (is_null (get_field g (P s))); [exact (IH d s f Hin Hn Hd)|].
    destruct (dangles g d); [reflexivity|].
    apply (IH (g :: d) s f Hin Hn). right. exact Hd.
Qed.

(** Whatever [free] is given, it leaves the memory as it is and no
    pointer stops dangling. *)
Lemma free_chain_inv l :
  forall d s d' s',
    free_chain l d s = Ok (tt, d') s' ->
    s' = s /\
    forall g, In g d \/ (In g l /\ get_field g (P s) <> None) -> In g d'.
Proof.
  induction l as [|f l IH]; intros d s d' s' H.
  - simpl in H. unfold ret_L, ret in H. injection H as <- <-.
    split; [reflexivity|]. intros g [Hg|[[] _]]. exact Hg.
  - rewrite free_chain_step in H.
    destruct (is_null (get_field f (P s))) eqn:Hn.
    + apply IH in H as (-> & Hd). split; [reflexivity|].
      intros g [Hg|[[<-|Hg] Hgn]]; [apply Hd; tauto | | apply Hd; tauto].
      apply not_null_iff in Hgn. congruence.
    + destruct (dangles f d); [discriminate|].
      apply IH in H as (-> & Hd). split; [reflexivity|].
      intros g [Hg|[[<-|Hg] Hgn]]; apply Hd; simpl; tauto.
Qed.

Lemma alloc_field_L_eq f size d s :
  alloc_field_L f size d s =
  Ok (negb (is_null (fresh_array s size)), remove field_eq_dec f d)
     (mk_state (set_field f (fresh_array s size) (P s)) (out s)
               (trace s ++ [Malloc size (negb (is_null (fresh_array s size)))])).
Proof.
  unfold alloc_field_L.
  rewrite (bind_Ok_intro _ _ _ _ _ (alloc_field_eq f size s)).
  reflexivity.
Qed.

Lemma and_then_L_ext (a b b' : L bool) :
  (forall d s, b d s = b' d s) ->
  forall d s, (a <&&&> b) d s = (a <&&&> b') d s.
Proof.
  intros H. unfold and_then_L. apply bind_L_ext. intros [|] d s; auto.
Qed.

Lemma and_then_L_true (a : L bool) d s : (a <&&&> ret_L true) d s = a d s.
Proof.
  unfold and_then_L, bind_L, bind, ret_L, ret.
  destruct (a d s) as [[[|] d'] s'| |]; reflexivity.
Qed.

Lemma alloc_parts_L_chain np d s :
  alloc_parts_L np d s =
  alloc_chain_L (map (fun f => (f, field_size np f)) required_fields) d s.
Proof.
  unfold alloc_parts_L, required_fields. revert d s.
  destruct HELIUM; cbn [map app alloc_chain_L field_size];
    repeat (apply and_then_L_ext; intros ? ?);
    symmetry; apply and_then_L_true.
Qed.

Lemma alloc_chain_L_step f size l d s :
  alloc_chain_L ((f, size) :: l) d s =
  match fresh_array s size with
  | Some a =>
      alloc_chain_L l (remove field_eq_dec f d)
        (mk_state (set_field f (Some a) (P s)) (out s)
           (trace s ++ [Malloc size true]))
  | None =>
      Ok (false, remove field_eq_dec f d)
         (mk_state (set_field f None (P s)) (out s)
            (trace s ++ [Malloc size false]))
  end.
Proof.
  simpl. unfold and_then_L, bind_L.
  rewrite (bind_Ok_intro _ _ _ _ _ (alloc_field_L_eq f size d s)).
  destruct (fresh_array s size); reflexivity.
Qed.

Lemma alloc_chain_step f size l s :
  alloc_chain ((f, size) :: l) s =
  match fresh_array s size with
  | Some a =>
      alloc_chain l
        (mk_state (set_field f (Some a) (P s)) (out s)
           (trace s ++ [Malloc size true]))
  | None =>
      Ok false
         (mk_state (set_field f None (P s)) (out s)
            (trace s ++ [Malloc size false]))
  end.
Proof.
  simpl. unfold and_then.
  rewrite (bind_Ok_intro _ _ _ _ _ (alloc_field_eq f size s)).
  destruct (fresh_array s size); reflexivity.
Qed.

(** The allocation with lifetimes is the allocation, with the same
    result in the same memory. *)
Lemma alloc_chain_L_erase l :
  forall d s, exists b d' s',
    alloc_chain_L l d s = Ok (b, d') s' /\ alloc_chain l s = Ok b s'.
Proof.
  induction l as [|[f size] l IH]; intros d s.
  - exists true, d, s. split; reflexivity.
  - rewrite alloc_chain_L_step, alloc_chain_step.
    destruct (fresh_array s size); [apply IH|].
    do 3 eexists. split; reflexivity.
Qed.

Lemma in_remove_iff (g f : field) d :
  In g (remove field_eq_dec f d) <-> In g d /\ g <> f.
Proof.
  split; [apply in_remove|]. intros [Hin Hne]. apply in_in_remove; assumption.
Qed.

(** After a chain that succeeds none of its fields dangles. *)
Lemma alloc_chain_L_true l :
  forall d s d' s',
    alloc_chain_L l d s = Ok (true, d') s' ->
    forall g, In g d' <-> In g d /\ ~ In g (map fst l).
Proof.
  induction l as [|[f size] l IH]; intros d s d' s' H g.
  - simpl in H. unfold ret_L, ret in H. injection H as <- <-. simpl. tauto.
  - rewrite alloc_chain_L_step in H.
    destruct (fresh_array s size); [|discriminate].
    rewrite (IH _ _ _ _ H g), in_remove_iff. simpl.
    split; [intros [[Hg Hne] Hl]|intros [Hg Hl]].
    + split; [exact Hg|]. intros [<-|Hin]; [apply Hne; reflexivity | tauto].
    + split; [split; [exact Hg | intros ->; tauto] | tauto].
Qed.

(** After a chain that fails, the field of the refused request is null
    and the fields after it are as they were: their pointers, and whether
    they dangle. *)
Lemma alloc_chain_L_false l :
  NoDup (map fst l) ->
  forall d s d' s',
    alloc_chain_L l d s = Ok (false, d') s' ->
    exists pre f size post,
      l = pre ++ (f, size) :: post /\
      get_field f (P s') = None /\
      forall g, In g (map fst post) ->
                get_field g (P s') = get_field g (P s) /\ (In g d' <-> In g d).
Proof.
  induction l as [|[f size] l IH]; intros Hnd d s d' s' H.
  - discriminate.
  - inversion Hnd as [|? ? Hnotin Hnd']; subst.
    rewrite alloc_chain_L_step in H.
    destruct (fresh_array s size) as [a|].
    + apply IH in H as (pre & g & z & post & -> & Hnull & Hpost); [|exact Hnd'].
      exists ((f, size) :: pre), g, z, post. split; [reflexivity|].
      split; [exact Hnull|].
      intros g' Hg'. destruct (Hpost g' Hg') as (Hp & Hd). simpl in Hp.
      assert (Hne : g' <> f).
      { intros ->. apply Hnotin. rewrite map_app. apply in_or_app. right.
        right. exact Hg'. }
      rewrite get_set_other in Hp by exact Hne. split; [exact Hp|].
      rewrite Hd, in_remove_iff. tauto.
    + injection H as <- <-. exists [], f, size, l. split; [reflexivity|].
      split; [apply get_set_same|].
      intros g Hg. simpl.
      assert (Hne : g <> f) by (intros ->; contradiction).
      rewrite get_set_other by exact Hne. split; [reflexivity|].
      rewrite in_remove_iff. tauto.
Qed.

(* =============================================================== *)
(** ** Values that are not numbers *)

Lemma shr_1_nonneg mrs : 0 <= shr_m mrs -> 0 <= shr_m (shr_1 mrs).
Proof. destruct mrs as [[|[p|p|]|p] r s]; simpl; lia. Qed.

Lemma iter_shr_1_nonneg p :
  forall mrs, 0 <= shr_m mrs -> 0 <= shr_m (iter_pos shr_1 p mrs).
Proof.
  induction p as [p IH|p IH|]; intros mrs H; simpl;
    auto using shr_1_nonneg.
Qed.

Lemma shr_fexp_nonneg prec emax m e l :
  0 <= m -> 0 <= shr_m (fst (shr_fexp prec emax m e l)).
Proof.
  intros H. unfold shr_fexp, shr.
  assert (H0 : 0 <= shr_m (shr_record_of_loc m l))
    by (destruct l as [|[| |]]; exact H).
  destruct (fexp prec emax (Zdigits2 m + e) - e); simpl;
    [exact H0 | apply iter_shr_1_nonneg, H0 | exact H0].
Qed.

Lemma round_nearest_even_nonneg m l : 0 <= m -> 0 <= round_nearest_even m l.
Proof.
  intros H. unfold round_nearest_even.
  destruct l as [|[| |]]; try destruct (Z.even m); lia.
Qed.

(** Rounding a number gives a number. *)
Lemma binary_round_number prec emax sx mx ex :
  binary_round prec emax sx mx ex <> S754_nan.
Proof.
  unfold binary_round.
  destruct (shl_align mx ex _) as [mz ez]. unfold binary_round_aux.
  pose proof (shr_fexp_nonneg prec emax (Z.pos mz) ez loc_Exact ltac:(lia))
    as H1.
  destruct (shr_fexp prec emax (Z.pos mz) ez loc_Exact) as [mrs1 e1].
  simpl in H1.
  pose proof (shr_fexp_nonneg prec emax
                (round_nearest_even (shr_m mrs1) (loc_of_shr_record mrs1)) e1
                loc_Exact (round_nearest_even_nonneg _ _ H1)) as H2.
  destruct (shr_fexp prec emax _ e1 loc_Exact) as [mrs2 e2]. simpl in H2.
  destruct (shr_m mrs2) as [|m|m]; [discriminate | | lia].
  destruct (e2 <=? emax - prec); discriminate.
Qed.

Lemma cast_number prec emax x :
  x <> S754_nan -> Fmt.cast prec emax x <> S754_nan.
Proof.
  destruct x as [sx|sx| |sx m e]; simpl; auto. intros _.
  apply binary_round_number.
Qed.

(** Only what is not a number compares different from itself. *)
Lemma neb_self v : Fmt.neb v v = true <-> v = S754_nan.
Proof.
  unfold Fmt.neb. destruct v as [[]|[]| |[] m e];
    try rewrite SFeqb_finite_refl; simpl; split; congruence.
Qed.

Lemma neb_number v : v <> S754_nan -> Fmt.neb v v = false.
Proof.
  intros Hv. destruct (Fmt.neb v v) eqn:E; [|reflexivity].
  apply neb_self in E. contradiction.
Qed.

(* =============================================================== *)
(** ** The data of one particle type *)

(** The mask of the position and velocity reads leaves the data of
    [PARTTYPE] only. *)
Lemma block_data_own snap tag :
  (PARTTYPE < 6)%nat ->
  block_data snap tag other_types = block snap tag PARTTYPE.
Proof.
  intros Hp. unfold block_data, other_types.
  change types with [0; 1; 2; 3; 4; 5]%nat.
  destruct PARTTYPE as [|[|[|[|[|[|p]]]]]]; try lia;
    cbn; rewrite ?app_nil_r; reflexivity.
Qed.

(* =============================================================== *)
(** ** Sizes *)

Lemma int32_small n : 0 <= n -> 3 * n <= INT_MAX -> int32 n = n.
Proof.
  unfold INT_MAX, int32, wrap_signed. intros H0 H3. rewrite Z.mod_small; lia.
Qed.

Lemma field_size_bytes n f :
  0 <= n -> 3 * n <= INT_MAX ->
  field_size (int32 n) f = 4 * Z.of_nat (width f) * n.
Proof.
  intros H0 H3. rewrite (int32_small n H0 H3). unfold INT_MAX in H3.
  assert (Hn3 : int32 (n * 3) = n * 3).
  { unfold int32, wrap_signed. rewrite Z.mod_small; lia. }
  assert (Hv : vector_size n = 12 * n).
  { unfold vector_size, size_t, sizeof_float. rewrite Hn3.
    rewrite (Z.mod_small (n * 3)) by lia. rewrite Z.mod_small by lia. lia. }
  assert (Hs : scalar_size n = 4 * n).
  { unfold scalar_size, size_t, sizeof_float.
    rewrite (Z.mod_small n) by lia. rewrite Z.mod_small by lia. lia. }
  destruct f; simpl field_size; simpl width; lia.
Qed.

Lemma bytes_requested_app evs evs' :
  bytes_requested (evs ++ evs') = bytes_requested evs + bytes_requested evs'.
Proof.
  induction evs as [|[size ok|tag c b k] evs IH]; simpl; [reflexivity| |];
    fold (bytes_requested (evs ++ evs')); fold (bytes_requested evs); lia.
Qed.

Lemma bytes_requested_reads (l : list (string * Z)) n st :
  bytes_requested (map (fun b => GetBlockCall (fst b) n st (snd b)) l) = 0.
Proof. induction l as [|b l IH]; simpl; [reflexivity | exact IH]. Qed.

(** The calls of a load: its allocations, then its reads. *)
Lemma load_events_eq snap n st :
  load_events snap n st =
  map (fun f => Malloc (field_size (int32 n) f) true) required_fields ++
  map (fun b => GetBlockCall (fst b) n st (snd b)) (blocks_read snap).
Proof.
  unfold load_events, blocks_read, mass_events, gas_events, cooling_events.
  f_equal. split_flags snap; reflexivity.
Qed.

Lemma load_inside f i s :
  (i < length (array f s))%nat ->
  load f i s = Ok (nth i (array f s) Single.zero) s.
Proof.
  unfold array. intros Hi.
  destruct (get_field f (P s)) as [l|] eqn:Hl; [|simpl in Hi; lia].
  apply (load_in_range f i s l); [exact Hl|]. apply nth_error_nth'. exact Hi.
Qed.

Lemma sized_length f n s : sized f n s -> length (array f s) = n.
Proof. intros (l & Hl & Hn). unfold array. rewrite Hl. exact Hn. Qed.

Lemma last_required pre f post :
  required_fields = pre ++ f :: post -> f <> Fh -> In Fh post.
Proof.
  unfold required_fields. intros H Hne.
  destruct HELIUM; simpl in H;
    repeat (destruct pre as [|? pre]; simpl in H;
            [injection H as <- <-; simpl; tauto | injection H as <- H]);
    destruct pre; discriminate.
Qed.

Lemma alloc_chain_L_refused l :
  forall d s d' s',
    alloc_chain_L l d s = Ok (false, d') s' ->
    alloc_chain l s = Ok false s'.
Proof.
  intros d s d' s' H.
  destruct (alloc_chain_L_erase l d s) as (b & d1 & s1 & HL & HM).
  rewrite H in HL. injection HL as <- <- <-. exact HM.
Qed.

(* =============================================================== *)
(** ** Further properties of the loader *)

(** X1. A load of a positive count [n] with [3 n] in the range of [int],
    whose allocations are granted, runs lines 35-116 to the [return] or
    to the [exit] of the mass check: no allocation fails, no array is
    accessed through a null pointer or outside its bounds, and the load
    returns [n] or ends the process with status 0 because the mass of a
    particle of the window differs from the mass of the first. The reads
    of the closing diagnostics are not part of this statement. *)
Theorem granted_load_returns_or_rejects snap st mx s :
  0 < resolve_count snap st mx ->
  3 * resolve_count snap st mx <= INT_MAX ->
  grants (resolve_count snap st mx) ->
  (exists s', load_snapshot snap st mx s = Ok (resolve_count snap st mx) s') \/
  (exists s' i,
      load_snapshot snap st mx s = Exited 0 s' /\
      (i < Z.to_nat (resolve_count snap st mx))%nat /\ other_mass s' i).
Proof.
  intros Hn H3 Hg.
  destruct (load_masses_runs snap st mx s ltac:(lia) H3 Hg) as (s1 & Hm & F).
  destruct (mass_check_decides _ _ F) as [Hall|(i & Hi & Hother)].
  - left. eapply load_snapshot_returns; eassumption.
  - right. exists s1, i. split; [|split; assumption].
    rewrite load_snapshot_split by lia.
    rewrite (bind_Ok_intro _ _ _ _ _ Hm). apply bind_Exited_intro.
    eapply check_mass_fatal; eassumption.
Qed.

(** X2. A load ends the process in two ways only. With status 1 when
    [alloc_parts] fails: after the requests up to the first refused one,
    whose field is left null, and before any block is read. With status
    0 when the mass of a particle of the window differs from the mass of
    the first: after the allocations and the reads of the positions,
    velocities and masses, and before any gas block is read. Either way
    the five header scalars are written and the baryon fraction is
    not. *)
Theorem exits_of_a_load snap st mx s c s' :
  load_snapshot snap st mx s = Exited c s' ->
  header_written snap s' /\
  o_omegab (out s') = o_omegab (out s) /\
  ((c = 1 /\
    exists pre f post,
      required_fields = pre ++ f :: post /\
      get_field f (P s') = None /\
      trace s' =
        trace s ++
        map (fun g =>
               Malloc (field_size (int32 (resolve_count snap st mx)) g) true)
            pre ++
        [Malloc (field_size (int32 (resolve_count snap st mx)) f) false]) \/
   (c = 0 /\
    (exists i,
        (i < Z.to_nat (resolve_count snap st mx))%nat /\ other_mass s' i) /\
    trace s' =
      trace s ++
      map (fun g =>
             Malloc (field_size (int32 (resolve_count snap st mx)) g) true)
          required_fields ++
      [GetBlockCall "POS " (resolve_count snap st mx) st other_types;
       GetBlockCall "VEL " (resolve_count snap st mx) st other_types] ++
      mass_events snap (resolve_count snap st mx) st)).
Proof.
  intros H. apply load_snapshot_exit in H as (_ & Hw & Hb & [Hone|Hzero]).
  - split; [exact Hw|]. split; [exact Hb|]. left.
    destruct Hone as (-> & s0 & _ & Ht & Ha). split; [reflexivity|].
    apply alloc_parts_false in Ha
      as (pre & f & post & Hreq & _ & Htr & _ & Hnull & _).
    exists pre, f, post. rewrite <- Ht. auto.
  - split; [exact Hw|]. split; [exact Hb|]. right. exact Hzero.
Qed.

(** X3. [alloc_parts] that reports failure stopped at the first request
    [malloc] refused: the requests before it were granted and their
    arrays stay allocated, the field of the refused request is null, no
    further request was made, and every other field holds what it held
    before the call. *)
Theorem alloc_parts_stops_at_the_first_refusal np s s' :
  alloc_parts np s = Ok false s' ->
  exists pre f post,
    required_fields = pre ++ f :: post /\
    trace s' =
      trace s ++ map (fun g => Malloc (field_size np g) true) pre ++
      [Malloc (field_size np f) false] /\
    get_field f (P s') = None /\
    (forall g, In g pre -> sized g (cells (field_size np g)) s') /\
    (forall g, ~ In g pre -> g <> f ->
               get_field g (P s') = get_field g (P s)) /\
    out s' = out s.
Proof.
  intros H. apply alloc_parts_false in H
    as (pre & f & post & Hreq & Ho & Ht & _ & Hnull & Hpre & Hrest).
  exists pre, f, post. auto 7.
Qed.

(** X4. A load that reads particles does not read what the buffer
    pointed to or the out-parameters held before the call, and
    overwrites them: from two memories with the same history of calls it
    returns the same count, with the same arrays in every field
    [alloc_parts] allocates, the same six out-parameters and the same
    calls; a field [alloc_parts] does not allocate keeps what it
    held. *)
Theorem load_ignores_what_the_buffer_held snap st mx s1 s2 r p1 :
  trace s1 = trace s2 ->
  load_snapshot snap st mx s1 = Ok r p1 ->
  r <> 0 ->
  exists p2,
    load_snapshot snap st mx s2 = Ok r p2 /\
    trace p2 = trace p1 /\
    out p2 = out p1 /\
    (forall f, In f required_fields ->
               get_field f (P p2) = get_field f (P p1)) /\
    (forall f, ~ In f required_fields ->
               get_field f (P p2) = get_field f (P s2)).
Proof.
  intros Ht H1 Hr.
  pose proof (load_snapshot_Ok _ _ _ _ _ _ H1) as (Hc & _ & _ & L1).
  assert (Hn : resolve_count snap st mx <> 0) by congruence.
  pose proof (load_snapshot_blind snap st mx s1 s2 Hn Ht) as Hb.
  rewrite H1 in Hb.
  destruct (load_snapshot snap st mx s2) as [r2 p2| |] eqn:H2;
    try contradiction.
  destruct Hb as (<- & Htr & Hf & Ha & Hz & HH & Hbox & Hh).
  exists p2. split; [reflexivity|]. split; [symmetry; exact Htr|].
  pose proof (load_snapshot_Ok _ _ _ _ _ _ H2) as (_ & _ & _ & L2).
  destruct (ld_omegab _ _ _ _ _ (L1 Hn)) as (m1 & Hm1 & Ho1).
  destruct (ld_omegab _ _ _ _ _ (L2 Hn)) as (m2 & Hm2 & Ho2).
  assert (Hm : m1 = m2).
  { unfold array in Hm1, Hm2.
    rewrite (Hf FMass (core_fields_required FMass ltac:(simpl; tauto))) in Hm1.
    congruence. }
  split; [|split].
  - destruct (out p1), (out p2). simpl in *. congruence.
  - intros f Hin. symmetry. apply Hf, Hin.
  - destruct (load_snapshot_trail _ _ _ _ _ _ H2 Hr)
      as (t0 & t1 & _ & _ & _ & _ & Hk).
    exact Hk.
Qed.

(** A field the load allocates and does not fill, as it returns it. *)
Lemma load_leaves_unfilled snap st mx s r s' f :
  load_snapshot snap st mx s = Ok r s' ->
  r <> 0 ->
  In f required_fields ->
  ~ In f (populated_fields snap) ->
  exists init,
    allocator (trace s ++ requests_before (int32 r) f required_fields)
              (field_size (int32 r) f) = Some init /\
    get_field f (P s') =
      Some (map init (seq 0 (cells (field_size (int32 r) f)))).
Proof.
  intros H Hr Hreq Hnot.
  destruct (load_snapshot_trail _ _ _ _ _ _ H Hr)
    as (s0 & s1 & _ & Ht & Ha & Hkeep & _).
  apply alloc_parts_true in Ha as (_ & _ & _ & Hfresh).
  destruct (Hfresh f Hreq) as (init & Hi & Hg).
  exists init. rewrite <- Ht. split; [exact Hi|].
  rewrite (Hkeep f Hreq Hnot). exact Hg.
Qed.

(** X5. A field [alloc_parts] allocates and the load does not fill
    (every gas field for another particle type, the ionisation fractions
    without cooling) is returned as [malloc] left it: the load allocates
    it and never initialises it. *)
Theorem unfilled_fields_are_as_malloc_left_them snap st mx s r s' f :
  load_snapshot snap st mx s = Ok r s' ->
  r <> 0 ->
  In f required_fields ->
  ~ In f (populated_fields snap) ->
  exists init,
    allocator (trace s ++ requests_before (int32 r) f required_fields)
              (field_size (int32 r) f) = Some init /\
    get_field f (P s') =
      Some (map init (seq 0 (cells (field_size (int32 r) f)))).
Proof.
  intros H Hr Hreq Hnot.
  destruct (load_leaves_unfilled _ _ _ _ _ _ f H Hr Hreq Hnot)
    as (init & Hi & Hg).
  exists init. split; [exact Hi | exact Hg].
Qed.

(** X6. A load that returns a positive count [r] with [3 r] in the range
    of [int] leaves in every field [alloc_parts] allocates an array of
    exactly [r] particles, three floats each for positions and
    velocities and one for the others, and has asked [malloc] for 44
    bytes per particle in all, 48 with [HELIUM]. *)
Theorem buffer_of_a_load snap st mx s r s' :
  load_snapshot snap st mx s = Ok r s' ->
  0 < r ->
  3 * r <= INT_MAX ->
  (forall f, In f required_fields ->
             length (array f s') = (width f * Z.to_nat r)%nat) /\
  exists evs,
    trace s' = trace s ++ evs /\
    bytes_requested evs = (if HELIUM then 48 else 44) * r.
Proof.
  intros H Hr H3. apply load_snapshot_Ok in H as (-> & _ & _ & L).
  specialize (L ltac:(lia)). set (n := resolve_count snap st mx) in *.
  split.
  - intros f Hf. apply sized_length. rewrite <- cells_of_field by lia.
    exact (ld_sized _ _ _ _ _ L f Hf).
  - exists (load_events snap n st). split; [exact (ld_trace _ _ _ _ _ L)|].
    rewrite load_events_eq, bytes_requested_app, bytes_requested_reads.
    unfold required_fields.
    destruct HELIUM; cbn [app map bytes_requested fold_right];
      rewrite !field_size_bytes by lia; cbn [width]; lia.
Qed.

(** X7. The calls of a load that reads particles: one [malloc] for each
    field of [alloc_parts] in its order, all before the first read; then
    one read of each block the build and the header call for, each for
    the window of the load, and no block twice. *)
Theorem calls_of_a_load snap st mx s r s' :
  load_snapshot snap st mx s = Ok r s' ->
  r <> 0 ->
  trace s' =
    trace s ++
    map (fun f => Malloc (field_size (int32 r) f) true) required_fields ++
    map (fun b => GetBlockCall (fst b) r st (snd b)) (blocks_read snap) /\
  NoDup (map fst (blocks_read snap)).
Proof.
  intros H Hr. apply load_snapshot_Ok in H as (-> & _ & _ & L).
  specialize (L Hr). split.
  - rewrite <- load_events_eq. exact (ld_trace _ _ _ _ _ L).
  - unfold blocks_read. split_flags snap; simpl;
      repeat constructor; simpl; intuition discriminate.
Qed.

(** X8. Paging by the returned count never steps past the end: from a
    start index inside [0, available] the resolved count is not negative,
    start plus count is again inside [0, available], the count is 0
    exactly at the end, and it reaches the end when [MaxRead] is not
    positive or not smaller than what is left. *)
Theorem stepping_by_the_count_stays_inside snap st mx :
  0 <= GetNpart snap PARTTYPE <= INT64_MAX ->
  0 <= st <= GetNpart snap PARTTYPE ->
  0 <= resolve_count snap st mx /\
  st + resolve_count snap st mx <= GetNpart snap PARTTYPE /\
  (resolve_count snap st mx = 0 <-> st = GetNpart snap PARTTYPE) /\
  (mx <= 0 \/ GetNpart snap PARTTYPE - st <= mx ->
   st + resolve_count snap st mx = GetNpart snap PARTTYPE) /\
  (forall s r s',
      load_snapshot snap st mx s = Ok r s' ->
      0 <= r /\ 0 <= st + r <= GetNpart snap PARTTYPE).
Proof.
  intros Ha Hs.
  assert (Hr : int64 (GetNpart snap PARTTYPE - st) = GetNpart snap PARTTYPE - st).
  { apply int64_small. unfold in_int64, INT64_MAX in *. lia. }
  assert (Hc : 0 <= resolve_count snap st mx /\
               st + resolve_count snap st mx <= GetNpart snap PARTTYPE /\
               (resolve_count snap st mx = 0 <-> st = GetNpart snap PARTTYPE) /\
               (mx <= 0 \/ GetNpart snap PARTTYPE - st <= mx ->
                st + resolve_count snap st mx = GetNpart snap PARTTYPE)).
  { unfold resolve_count. rewrite Hr. destruct (Z.gtb_spec mx 0); lia. }
  destruct Hc as (H0 & H1 & H2 & H3).
  repeat (split; [assumption|]).
  intros s r s' H. apply load_snapshot_Ok in H as (-> & _). lia.
Qed.

(** X9. A mass that is not a number is always rejected: when the first
    mass of the window, from the header or from the MASS block, is NaN,
    the load ends the process with status 0, even for a window of one
    particle, since NaN differs from itself. *)
Theorem nan_mass_is_rejected snap st mx s :
  0 < resolve_count snap st mx ->
  3 * resolve_count snap st mx <= INT_MAX ->
  grants (resolve_count snap st mx) ->
  nth_error (mass_values snap (resolve_count snap st mx) st) 0
  = Some S754_nan ->
  exists s', load_snapshot snap st mx s = Exited 0 s'.
Proof.
  intros Hn H3 Hg Hnan.
  destruct (load_masses_runs snap st mx s ltac:(lia) H3 Hg) as (s1 & Hm & F).
  destruct (load_masses_Ok _ _ _ _ _ Hm) as (_ & Hh).
  pose proof (holds_nth _ _ _ _ _ Hh Hnan) as H0.
  exists s1. rewrite load_snapshot_split by lia.
  rewrite (bind_Ok_intro _ _ _ _ _ Hm). apply bind_Exited_intro.
  apply (check_mass_fatal _ _ 0%nat); [lia|].
  exists S754_nan, S754_nan. auto.
Qed.

(** X10. When the header gives the mass of the type (a non-zero entry
    that is a number), the mass check never fails: a load of a positive
    count with [3 n] in the range of [int], whose allocations are
    granted, returns the count. *)
Theorem header_mass_is_accepted snap st mx s :
  0 < resolve_count snap st mx ->
  3 * resolve_count snap st mx <= INT_MAX ->
  grants (resolve_count snap st mx) ->
  Double.truthy (mass (GetHeader snap) PARTTYPE) = true ->
  mass (GetHeader snap) PARTTYPE <> S754_nan ->
  exists s', load_snapshot snap st mx s = Ok (resolve_count snap st mx) s'.
Proof.
  intros Hn H3 Hg Htruthy Hnum.
  destruct (load_masses_runs snap st mx s ltac:(lia) H3 Hg) as (s1 & Hm & F).
  destruct (load_masses_Ok _ _ _ _ _ Hm) as (_ & Hh).
  unfold mass_values in Hh. rewrite Htruthy in Hh.
  apply (load_snapshot_returns snap st mx s s1 Hn Hm F).
  intros i Hi.
  set (v := Single.of_double (mass (GetHeader snap) PARTTYPE)) in *.
  assert (Hv : forall k, (k < Z.to_nat (resolve_count snap st mx))%nat ->
                         nth_error (array FMass s1) k = Some v).
  { intros k Hk. apply (holds_nth _ _ _ _ _ Hh). apply nth_error_repeat, Hk. }
  exists v, v. split; [apply Hv, Hi|]. split; [apply Hv; lia|].
  apply neb_number. apply cast_number, Hnum.
Qed.

(** X11. Positions and velocities come from the particles of the type
    only: for a particle type below 6 the mask of both reads skips every
    other type, so the arrays start with the entries
    [3 StartPart, 3 (StartPart + r)) of the type's own data. *)
Theorem kinematics_of_the_type_only snap st mx s r s' :
  (PARTTYPE < 6)%nat ->
  load_snapshot snap st mx s = Ok r s' ->
  r <> 0 ->
  (forall t, (t < 6)%nat ->
             Z.testbit other_types (Z.of_nat t) = negb (Nat.eqb t PARTTYPE)) /\
  holds FPos
    (firstn (3 * Z.to_nat r)
       (skipn (3 * Z.to_nat st) (block snap "POS " PARTTYPE))) s' /\
  holds FVel
    (firstn (3 * Z.to_nat r)
       (skipn (3 * Z.to_nat st) (block snap "VEL " PARTTYPE))) s'.
Proof.
  intros Hp H Hr. apply load_snapshot_Ok in H as (-> & _ & _ & L).
  specialize (L Hr). split; [|split].
  - intros t Ht. unfold other_types.
    destruct PARTTYPE as [|[|[|[|[|[|p]]]]]]; try lia;
      destruct t as [|[|[|[|[|[|t]]]]]]; try lia; reflexivity.
  - pose proof (ld_pos _ _ _ _ _ L) as H. unfold block_range in H.
    rewrite block_data_own in H by exact Hp. exact H.
  - pose proof (ld_vel _ _ _ _ _ L) as H. unfold block_range in H.
    rewrite block_data_own in H by exact Hp. exact H.
Qed.

(** X12. For gas, the internal energy and the smoothing length are the
    U and HSML blocks of the window; with the cooling flag the neutral
    hydrogen fraction is the NH block, in the [GADGET3] format the
    electron fraction is the NE block as it is, and with [HELIUM] the
    helium field is the NHE block; without the cooling flag no
    ionisation block is read. *)
Theorem gas_fields_from_their_blocks snap st mx s r s' :
  PARTTYPE = 0%nat ->
  load_snapshot snap st mx s = Ok r s' ->
  r <> 0 ->
  holds FU (block_range snap "U   " r st 0) s' /\
  holds Fh (block_range snap "HSML" r st 0) s' /\
  (flag_cooling (GetHeader snap) <> 0 ->
   holds FNH0 (block_range snap "NH  " r st 0) s' /\
   (GADGET3 = true -> holds FNe (block_range snap "NE  " r st 0) s') /\
   (HELIUM = true -> holds FNHep (block_range snap "NHE " r st 0) s')) /\
  (flag_cooling (GetHeader snap) = 0 ->
   forall tag c b k,
     In (GetBlockCall tag c b k) (trace s') ->
     In (GetBlockCall tag c b k) (trace s) \/
     In tag ["POS "; "VEL "; "MASS"; "U   "; "HSML"]%string).
Proof.
  intros Hp H Hr. apply load_snapshot_Ok in H as (-> & _ & _ & L).
  specialize (L Hr). destruct (ld_gas _ _ _ _ _ L Hp) as (HU & Hh & Hcool).
  split; [exact HU|]. split; [exact Hh|]. split.
  - intros Hc. destruct (Hcool Hc) as (HNe & HNH & HHe).
    split; [exact HNH|]. split; [|exact HHe].
    intros Hg. unfold electron_values in HNe. rewrite Hg in HNe. exact HNe.
  - intros Hc tag c b k Hin. rewrite (ld_trace _ _ _ _ _ L) in Hin.
    apply in_app_or in Hin as [Hin|Hin]; [left; exact Hin|]. right.
    rewrite load_events_eq in Hin. apply in_app_or in Hin as [Hin|Hin].
    + apply in_map_iff in Hin as (f & Habs & _). discriminate.
    + apply in_map_iff in Hin as ([tag' k'] & Heq & Hin). simpl in Heq.
      injection Heq as <- _ _ _. unfold blocks_read in Hin.
      apply Z.eqb_eq in Hc. rewrite Hc, Hp in Hin.
      destruct (Double.truthy (mass (GetHeader snap) 0)); simpl in Hin;
        repeat (destruct Hin as [Hin|Hin];
                [injection Hin as <- _; simpl; tauto|]);
        destruct Hin.
Qed.

Lemma nth_of_fresh (init : nat -> float) n i :
  (i < n)%nat -> nth i (map init (seq 0 n)) Single.zero = init i.
Proof.
  intros Hi.
  rewrite (nth_indep _ Single.zero (init 0%nat))
    by (rewrite length_map, length_seq; exact Hi).
  rewrite map_nth, seq_nth by exact Hi. reflexivity.
Qed.

(** The closing diagnostics index inside the arrays. *)
Lemma report_reads_inside snap st mx s r s' :
  load_snapshot snap st mx s = Ok r s' ->
  0 < r ->
  3 * r <= INT_MAX ->
  Forall (fun e => 0 <= snd e < Z.of_nat (length (array (fst e) s')))
         (printed_entries r) /\
  exists vals,
    report r st s' = Ok vals s' /\
    (st = 0 ->
     vals = map (fun e => nth (Z.to_nat (snd e)) (array (fst e) s') Single.zero)
                (printed_entries r)) /\
    (st <> 0 -> vals = []).
Proof.
  intros H Hr H3. apply load_snapshot_Ok in H as (-> & _ & _ & L).
  specialize (L ltac:(lia)). set (n := resolve_count snap st mx) in *.
  assert (Hlen : forall f, In f [FVel; FPos; FMass; FU; FNH0; FNe; Fh] ->
                           length (array f s') = (width f * Z.to_nat n)%nat).
  { intros f Hf. apply sized_length. rewrite <- cells_of_field by lia.
    exact (ld_sized _ _ _ _ _ L f (core_fields_required f Hf)). }
  pose proof (Hlen FPos ltac:(simpl; tauto)) as LPos.
  pose proof (Hlen FVel ltac:(simpl; tauto)) as LVel.
  pose proof (Hlen FMass ltac:(simpl; tauto)) as LMass.
  pose proof (Hlen FU ltac:(simpl; tauto)) as LU.
  pose proof (Hlen FNe ltac:(simpl; tauto)) as LNe.
  pose proof (Hlen FNH0 ltac:(simpl; tauto)) as LNH0.
  pose proof (Hlen Fh ltac:(simpl; tauto)) as Lh.
  simpl width in *. clear Hlen.
  assert (Hlast : int64 (n - 1) = n - 1).
  { apply int64_small. unfold in_int64, INT64_MAX, INT_MAX in *. lia. }
  split.
  - unfold printed_entries. repeat constructor; simpl; lia.
  - unfold report. destruct (Z.eqb_spec st 0) as [Hz|Hnz].
    + rewrite (bind_Ok_intro _ _ _ _ _ (load_inside FPos 0 s' ltac:(lia))).
      rewrite (bind_Ok_intro _ _ _ _ _ (load_inside FPos 1 s' ltac:(lia))).
      rewrite (bind_Ok_intro _ _ _ _ _ (load_inside FPos 2 s' ltac:(lia))).
      rewrite (bind_Ok_intro _ _ _ _ _ (load_inside FVel 0 s' ltac:(lia))).
      rewrite (bind_Ok_intro _ _ _ _ _ (load_inside FVel 1 s' ltac:(lia))).
      rewrite (bind_Ok_intro _ _ _ _ _ (load_inside FVel 2 s' ltac:(lia))).
      rewrite (bind_Ok_intro _ _ _ _ _ (load_inside FMass 0 s' ltac:(lia))).
      unfold load_at. rewrite Hlast.
      destruct (Z.ltb_spec (n - 1) 0) as [Hneg|_]; [lia|].
      rewrite (bind_Ok_intro _ _ _ _ _
                 (load_inside FU (Z.to_nat (n - 1)) s' ltac:(lia))).
      rewrite (bind_Ok_intro _ _ _ _ _
                 (load_inside FNe (Z.to_nat (n - 1)) s' ltac:(lia))).
      rewrite (bind_Ok_intro _ _ _ _ _
                 (load_inside FNH0 (Z.to_nat (n - 1)) s' ltac:(lia))).
      rewrite (bind_Ok_intro _ _ _ _ _
                 (load_inside Fh (Z.to_nat (n - 1)) s' ltac:(lia))).
      eexists. split; [reflexivity|]. split; [reflexivity | contradiction].
    + exists []. split; [reflexivity|]. split; [contradiction | reflexivity].
Qed.

(** X13. The closing diagnostics index inside the arrays, and print
    cells the load never wrote. After a load that returns a positive
    count [r] with [3 r] in the range of [int], every entry they read
    (the first three positions and velocities, the first mass, and entry
    [r - 1] of the internal energy, electron fraction, neutral fraction
    and smoothing length) is inside its array, and nothing is read
    unless the window starts at particle 0. But of the last four,
    printed for every particle type and header, each one that the load
    does not fill (all four for a type other than gas, the electron and
    neutral fractions for gas without cooling) holds at entry [r - 1]
    what [malloc] left there: the diagnostics print a value that was
    never initialised. *)
Theorem closing_diagnostics_read_inside snap st mx s r s' :
  load_snapshot snap st mx s = Ok r s' ->
  0 < r ->
  3 * r <= INT_MAX ->
  Forall (fun e => 0 <= snd e < Z.of_nat (length (array (fst e) s')))
         (printed_entries r) /\
  (exists vals,
      report r st s' = Ok vals s' /\
      (st = 0 ->
       vals =
         map (fun e => nth (Z.to_nat (snd e)) (array (fst e) s') Single.zero)
             (printed_entries r)) /\
      (st <> 0 -> vals = [])) /\
  (forall f,
      In f [FU; FNe; FNH0; Fh] ->
      ~ In f (populated_fields snap) ->
      In (f, r - 1) (printed_entries r) /\
      exists init,
        allocator (trace s ++ requests_before (int32 r) f required_fields)
                  (field_size (int32 r) f) = Some init /\
        nth (Z.to_nat (r - 1)) (array f s') Single.zero =
        init (Z.to_nat (r - 1))).
Proof.
  intros H Hr H3.
  destruct (report_reads_inside _ _ _ _ _ _ H Hr H3) as (Hin & Hvals).
  split; [exact Hin|]. split; [exact Hvals|].
  intros f Hf Hnot.
  assert (Hreq : In f required_fields)
    by (apply core_fields_required; simpl in *; tauto).
  split.
  { unfold printed_entries.
    destruct Hf as [<-|[<-|[<-|[<-|[]]]]]; simpl; tauto. }
  destruct (load_leaves_unfilled _ _ _ _ _ _ f H ltac:(lia) Hreq Hnot)
    as (init & Hi & Hg).
  exists init. split; [exact Hi|]. unfold array. rewrite Hg.
  apply nth_of_fresh. rewrite cells_of_field by lia.
  destruct Hf as [<-|[<-|[<-|[<-|[]]]]]; simpl; lia.
Qed.

(** X14. [free_parts] releases what [alloc_parts] acquired: after an
    [alloc_parts] that succeeds every field it allocates points to a
    live array; [free_parts] then returns, has passed each of these
    arrays to [free] once and nothing else, and leaves the pointers in
    place, so that every one of them dangles. *)
Theorem free_parts_releases_what_alloc_parts_acquired np d s d1 s1 :
  alloc_parts_L np d s = Ok (true, d1) s1 ->
  alloc_parts np s = Ok true s1 /\
  (forall f, In f required_fields -> live f d1 s1) /\
  exists d2,
    free_parts d1 s1 = Ok (tt, d2) s1 /\
    (forall f, In f required_fields -> dangling f d2 s1) /\
    (forall f, ~ In f required_fields -> (In f d2 <-> In f d)).
Proof.
  intros H. rewrite alloc_parts_L_chain in H.
  assert (Ha : alloc_parts np s = Ok true s1).
  { destruct (alloc_chain_L_erase
                (map (fun f => (f, field_size np f)) required_fields) d s)
      as (b & d' & s' & HL & HM).
    rewrite H in HL. injection HL as <- <- <-.
    rewrite alloc_parts_chain. exact HM. }
  pose proof (alloc_chain_L_true _ _ _ _ _ H) as Hd1.
  rewrite requested_fields in Hd1.
  assert (Hnn : forall f, In f required_fields -> get_field f (P s1) <> None).
  { intros f Hf.
    destruct (alloc_parts_spec np s) as (b & s' & evs & Hrun & _ & _ & _ & Hs).
    rewrite Ha in Hrun. injection Hrun as <- <-.
    destruct Hs as [Hs _]. destruct (Hs eq_refl f Hf) as (l & Hl & _).
    congruence. }
  assert (Hlive : forall f, In f required_fields -> live f d1 s1).
  { intros f Hf. split; [apply Hnn, Hf|]. rewrite Hd1. tauto. }
  split; [exact Ha|]. split; [exact Hlive|].
  destruct (free_chain_Ok released_fields released_NoDup d1 s1)
    as (d2 & Hrun & Hd2).
  { intros f Hf _. apply released_required in Hf. apply (Hlive f Hf). }
  exists d2. rewrite free_parts_chain. split; [exact Hrun|]. split.
  - intros f Hf. split; [apply Hnn, Hf|]. apply Hd2. right.
    split; [apply released_required, Hf | apply Hnn, Hf].
  - intros f Hf. rewrite Hd2, Hd1, released_required. tauto.
Qed.

(** X15. [free_parts] does not reset the pointers it releases: after a
    call that returns, the memory is as it was, and a second call on a
    buffer with a non-null field is a double free. *)
Theorem free_parts_twice_is_a_double_free d s d1 s1 f :
  free_parts d s = Ok (tt, d1) s1 ->
  In f required_fields ->
  get_field f (P s) <> None ->
  s1 = s /\ dangling f d1 s1 /\ free_parts d1 s1 = Undefined.
Proof.
  intros H Hf Hn. rewrite free_parts_chain in H.
  apply free_chain_inv in H as (-> & Hd).
  assert (Hin : In f d1).
  { apply Hd. right. split; [apply released_required, Hf | exact Hn]. }
  split; [reflexivity|]. split; [split; assumption|].
  rewrite free_parts_chain.
  apply (free_chain_Undefined _ _ _ f); [apply released_required, Hf | | ];
    assumption.
Qed.

(** X16. On a buffer whose fields are all null [free_parts] does
    nothing, and this is the only buffer on which it does nothing: it
    returns with no pointer newly dangling exactly when every field
    [alloc_parts] allocates is null. *)
Theorem free_parts_of_a_null_buffer d s :
  free_parts d s = Ok (tt, d) s <->
  forall f, In f required_fields -> get_field f (P s) = None.
Proof.
  rewrite free_parts_chain. split.
  - intros H f Hf.
    destruct (get_field f (P s)) as [l|] eqn:Hl; [|reflexivity]. exfalso.
    assert (Hn : get_field f (P s) <> None) by congruence.
    apply released_required in Hf.
    destruct (in_dec field_eq_dec f d) as [Hin|Hout].
    + rewrite (free_chain_Undefined _ _ _ f Hf Hn Hin) in H. discriminate.
    + destruct (free_chain_Ok released_fields released_NoDup d s)
        as (d' & Hrun & Hd').
      * intros g Hg Hgn Hgd.
        rewrite (free_chain_Undefined _ _ _ g Hg Hgn Hgd) in H. discriminate.
      * rewrite H in Hrun. injection Hrun as <-. apply Hout, Hd'. tauto.
  - intros Hnull. apply free_chain_null.
    intros f Hf. apply Hnull, released_required, Hf.
Qed.

(** X17. [alloc_parts] that fails does not reset the fields after the
    refused request: on a buffer whose smoothing-length pointer dangles
    (as [free_parts] leaves it), an [alloc_parts] refused before its
    last request leaves that pointer dangling, and the [free_parts] that
    follows is a double free. *)
Theorem refused_reallocation_keeps_dangling_pointers np d s d1 s1 :
  dangling Fh d s ->
  alloc_parts_L np d s = Ok (false, d1) s1 ->
  get_field Fh (P s1) <> None ->
  alloc_parts np s = Ok false s1 /\
  dangling Fh d1 s1 /\
  free_parts d1 s1 = Undefined.
Proof.
  intros (Hn & Hd) H Hlast. rewrite alloc_parts_L_chain in H.
  split.
  { rewrite alloc_parts_chain. eapply alloc_chain_L_refused. exact H. }
  apply alloc_chain_L_false in H
    as (pre & f & size & post & Hl & Hnull & Hpost); [|apply requested_NoDup].
  apply map_eq_app_cons in Hl as (pre' & f' & post' & Hreq & -> & Hf & ->).
  injection Hf as Hf _. subst f.
  assert (Hne : f' <> Fh) by (intros ->; contradiction).
  pose proof (last_required _ _ _ Hreq Hne) as Hin.
  destruct (Hpost Fh) as (_ & Hd1).
  { rewrite map_map. simpl. rewrite map_id. exact Hin. }
  assert (HD : dangling Fh d1 s1) by (split; [exact Hlast | apply Hd1, Hd]).
  split; [exact HD|]. rewrite free_parts_chain.
  apply (free_chain_Undefined _ _ _ Fh);
    [apply released_required, core_fields_required; simpl; tauto | | ];
    apply HD.
Qed.

Lemma int32_period z j : int32 (z + j * 2 ^ 32) = int32 z.
Proof.
  unfold int32, wrap_signed.
  replace (z + j * 2 ^ 32 + 2 ^ (32 - 1)) with (z + 2 ^ (32 - 1) + j * 2 ^ 32)
    by lia.
  rewrite Z.mod_add by lia. reflexivity.
Qed.

(** X18. [alloc_parts] takes the count as an [int] and the load passes
    it its 64-bit count: counts that differ by a multiple of [2^32] get
    the same allocations, so that a count of [k + j 2^32] particles, with
    [3 k] in the range of [int], is given arrays of [k] particles. *)
Theorem count_is_truncated_to_int k j s :
  0 <= k ->
  3 * k <= INT_MAX ->
  allocate (k + j * 2 ^ 32) s = allocate k s /\
  forall f,
    cells (field_size (int32 (k + j * 2 ^ 32)) f) = (width f * Z.to_nat k)%nat.
Proof.
  intros H0 H3. split.
  - unfold allocate. rewrite int32_period. reflexivity.
  - intros f. rewrite int32_period. apply cells_of_field; assumption.
Qed.

(** X19. Every call a load makes to the reader is for the window of the
    load and for a block whose name has the four characters of a Gadget
    block tag; without [GADGET3] the name is one of those the reader was
    given (lines 30-31). *)
Theorem blocks_read_are_registered snap st mx s r s' tag c b k :
  load_snapshot snap st mx s = Ok r s' ->
  r <> 0 ->
  In (GetBlockCall tag c b k) (trace s') ->
  ~ In (GetBlockCall tag c b k) (trace s) ->
  String.length tag = 4%nat /\
  c = r /\ b = st /\
  (GADGET3 = false -> In tag BlockNames).
Proof.
  intros H Hr Hin Hold. apply load_snapshot_Ok in H as (-> & _ & _ & L).
  specialize (L Hr). rewrite (ld_trace _ _ _ _ _ L) in Hin.
  apply in_app_or in Hin as [Hin|Hin]; [contradiction|].
  rewrite load_events_eq in Hin. apply in_app_or in Hin as [Hin|Hin].
  - apply in_map_iff in Hin as (f & Habs & _). discriminate.
  - apply in_map_iff in Hin as ([tag' k'] & Heq & Hin). simpl in Heq.
    injection Heq as <- <- <- _. unfold blocks_read in Hin.
    split_flags snap; simpl in Hin;
      repeat (destruct Hin as [Hin|Hin];
              [injection Hin as <- _;
               repeat split; try reflexivity;
               first [discriminate | intros _; simpl; tauto]|]);
      destruct Hin.
Qed.

End Loader.

(* ================================================================= *)
(** ** The loader on concrete snapshots *)

(** In this part the loader is built for gas particles ([PARTTYPE] 0)
    without [GADGET3] and [HELIUM], and runs on the snapshots of
    [Example] from the caller's blank memory. *)

Lemma resolved_count_is_returned_witness :
  (0 < 1 ->
   resolve_count 0 Example.four 2 1 = Z.min 1 (GetNpart Example.four 0 - 2)) /\
  (1 <= 0 -> resolve_count 0 Example.four 2 1 = GetNpart Example.four 0 - 2) /\
  (forall s r s',
      load_snapshot 0 false false Example.square Example.allocator
        Example.four 2 1 s = Ok r s' ->
      r = resolve_count 0 Example.four 2 1).
Proof.
  apply (resolved_count_is_returned 0 false false Example.square
           Example.allocator Example.four 2 1); vm_compute; split; discriminate.
Defined.

Lemma zero_count_writes_header_scalars_only_witness :
  exists s',
    load_snapshot 0 false false Example.square Example.allocator
      Example.four 4 0 Example.blank = Ok 0 s' /\
    o_atime (out s') = Double.of_Z 1 /\
    o_redshift (out s') = Double.zero /\
    o_Hz (out s') =
      hubble Example.square (Double.dec 7 1) (Double.of_Z 1) (Double.dec 3 1)
        (Double.dec 7 1) /\
    o_box100 (out s') = Double.of_Z 60000 /\
    o_h100 (out s') = Double.dec 7 1 /\
    o_omegab (out s') = Double.zero /\
    P s' = P Example.blank /\
    trace s' = [].
Proof.
  apply (zero_count_writes_header_scalars_only 0 false false Example.square
           Example.allocator Example.four 4 0 Example.blank).
  reflexivity.
Defined.

Lemma start_past_the_end_witness :
  resolve_count 0 (Example.gas 100 Double.zero 0 []) 101 0 = -1 /\
  exists s',
    load_snapshot 0 false false Example.square Example.allocator
      (Example.gas 100 Double.zero 0 []) 101 0 Example.blank = Exited 1 s' /\
    trace s' = [Malloc (2 ^ 64 - 12) false].
Proof.
  destruct (start_past_the_end 0 false false Example.square Example.allocator
              (Example.gas 100 Double.zero 0 []) 0 Example.blank eq_refl)
    as (Hc & _ & Hx).
  split; [exact Hc | apply Hx; reflexivity].
Defined.

Lemma mass_from_header_or_block_witness :
  exists s' evs,
    load_snapshot 0 false false Example.square Example.allocator
      Example.four_uniform 0 0 Example.blank = Ok 4 s' /\
    trace s' = evs /\
    (forall i, (i < 4)%nat ->
               nth_error (array FMass s') i =
               Some (Single.of_double (Double.dec 1 1))) /\
    (forall c b k, ~ In (GetBlockCall "MASS" c b k) evs).
Proof.
  eexists.
  assert (H : load_snapshot 0 false false Example.square Example.allocator
                Example.four_uniform 0 0 Example.blank = Ok 4 _)
    by (vm_compute; reflexivity).
  destruct (mass_from_header_or_block 0 false false Example.square
              Example.allocator Example.four_uniform 0 0 Example.blank 4 _
              ltac:(lia) H ltac:(discriminate))
    as (evs & Ht & Hheader & _).
  exists evs. split; [exact H|]. split; [exact Ht|].
  apply Hheader. reflexivity.
Defined.

Lemma mass_uniformity_check_witness :
  exists s1,
    load_masses 0 false Example.square Example.allocator
      Example.two_masses 0 100 Example.blank = Ok tt s1 /\
    (load_snapshot 0 false false Example.square Example.allocator
       Example.two_masses 0 100 Example.blank = Exited 0 s1 <->
     exists i, (i < 100)%nat /\ other_mass s1 i) /\
    (forall c s',
        load_snapshot 0 false false Example.square Example.allocator
          Example.two_masses 0 100 Example.blank = Exited c s' ->
        c = 0 /\ s' = s1) /\
    (forall r s',
        load_snapshot 0 false false Example.square Example.allocator
          Example.two_masses 0 100 Example.blank = Ok r s' ->
        forall i, (i < Z.to_nat r)%nat -> same_mass s' i).
Proof.
  eexists.
  assert (H : load_masses 0 false Example.square Example.allocator
                Example.two_masses 0 100 Example.blank = Ok tt _)
    by (vm_compute; reflexivity).
  split; [exact H|].
  apply (mass_uniformity_check 0 false false Example.square Example.allocator
           Example.two_masses 0 100 Example.blank _ eq_refl H).
Defined.

Lemma hubble_rate_formula_witness :
  exists s',
    load_snapshot 0 false false Example.square Example.allocator
      Example.four 0 0 Example.blank = Ok 4 s' /\
    o_Hz (out s') =
      Double.div
        (Double.mul
           (Double.mul (Double.of_Z 100) (Double.dec 7 1))
           (Double.sqrt
              (Double.add
                 (Double.add (Double.of_Z 1)
                    (Double.mul (Double.dec 3 1)
                       (Double.sub
                          (Double.div (Double.of_Z 1) (Double.of_Z 1))
                          (Double.of_Z 1))))
                 (Double.mul (Double.dec 7 1)
                    (Double.sub
                       (Example.square (Double.of_Z 1) (Double.of_Z 2))
                       (Double.of_Z 1))))))
        (Double.of_Z 1) /\
    o_Hz (out s') = Double.of_Z 70.
Proof.
  eexists.
  assert (H : load_snapshot 0 false false Example.square Example.allocator
                Example.four 0 0 Example.blank = Ok 4 _)
    by (vm_compute; reflexivity).
  destruct (hubble_rate_formula 0 false false Example.square Example.allocator
              Example.four 0 0 Example.blank 4 _ H) as [Hs H70].
  split; [exact H|]. split; [exact Hs|]. apply H70; reflexivity.
Defined.

Lemma baryon_fraction_formula_witness :
  exists s',
    load_snapshot 0 false false Example.square Example.allocator
      Example.four 0 0 Example.blank = Ok 4 s' /\
    nth_error (array FMass s') 0 = Some (Single.dec 1 1) /\
    o_omegab (out s') = S754_finite false 8646911400515469 (-58) /\
    SFltb (Double.dec 3 2) (o_omegab (out s')) = true /\
    SFltb (o_omegab (out s')) (Double.add (Double.dec 3 2) (Double.dec 1 9))
    = true.
Proof.
  eexists.
  assert (H : load_snapshot 0 false false Example.square Example.allocator
                Example.four 0 0 Example.blank = Ok 4 _)
    by (vm_compute; reflexivity).
  destruct (baryon_fraction_formula 0 false false Example.square
              Example.allocator Example.four 0 0 Example.blank 4 _ H
              ltac:(lia))
    as (m0 & Hm0 & _ & Hvalue).
  split; [exact H|]. split; [reflexivity|].
  apply Hvalue; [|reflexivity|reflexivity].
  vm_compute in Hm0. injection Hm0 as <-. reflexivity.
Defined.

Lemma electron_fraction_from_species_witness :
  exists s',
    load_snapshot 0 false false Example.square Example.allocator
      Example.four 0 0 Example.blank = Ok 4 s' /\
    nth_error (array FNe s') 0 =
      Some (Single.add (Single.add (Single.dec 1 1) (Single.dec 5 2))
              (Single.mul (Single.of_Z 2) (Single.dec 2 2))) /\
    nth_error (array FNe s') 0 = Some (Single.dec 19 2).
Proof.
  eexists.
  assert (H : load_snapshot 0 false false Example.square Example.allocator
                Example.four 0 0 Example.blank = Ok 4 _)
    by (vm_compute; reflexivity).
  destruct (electron_fraction_from_species 0 false false Example.square
              Example.allocator Example.four 0 0 Example.blank 4 _ 0%nat
              (Single.dec 1 1) (Single.dec 5 2) (Single.dec 2 2)
              eq_refl eq_refl ltac:(discriminate) H eq_refl eq_refl eq_refl)
    as [Hk H19].
  split; [exact H|]. split; [exact Hk|]. apply H19; reflexivity.
Defined.

Lemma hundred_complete : complete 0 false false Example.hundred 100.
Proof.
  intros tag skip Hin. apply Nat.leb_le.
  cbv [blocks_read] in Hin. cbn in Hin.
  repeat (destruct Hin as [Hin|Hin];
          [injection Hin as <- <-; vm_compute; reflexivity|]).
  destruct Hin.
Qed.

Lemma paged_loads_are_the_single_load_witness :
  exists p,
    load_snapshot 0 false false Example.square Example.allocator
      Example.hundred 0 100 Example.blank = Ok 100 p /\
    exists p1 p2,
      load_snapshot 0 false false Example.square Example.allocator
        Example.hundred 0 50 Example.blank = Ok 50 p1 /\
      load_snapshot 0 false false Example.square Example.allocator
        Example.hundred 50 50 Example.blank = Ok 50 p2 /\
      forall f, In f [FPos; FVel; FMass; FU; Fh; FNe; FNH0] ->
                array f p = array f p1 ++ array f p2.
Proof.
  eexists.
  assert (H : load_snapshot 0 false false Example.square Example.allocator
                Example.hundred 0 100 Example.blank = Ok 100 _)
    by (vm_compute; reflexivity).
  split; [exact H|].
  destruct (paged_loads_are_the_single_load 0 false false Example.square
              Example.allocator Example.hundred Example.blank Example.blank
              Example.blank 100 _ eq_refl hundred_complete H)
    as (_ & Hpages & Hsame).
  destruct Hpages as (p1 & p2 & H1 & H2).
  { intros tr f Hf. cbv [required_fields app] in Hf.
    repeat (destruct Hf as [<-|Hf]; [discriminate|]). destruct Hf. }
  exists p1, p2. split; [exact H1|]. split; [exact H2|].
  apply (Hsame 50 p1 50 p2 H1 H2).
Defined.

(* ================================================================= *)
(** ** Where the specification and the code part *)

(** C5, against the statement: on a snapshot of 100 gas particles, fifty
    of mass 1 followed by fifty of mass 2, each page loads its 50
    particles and the single load of the 100 ends the process at the mass
    check. *)
Lemma paging_accepts_what_one_load_rejects :
  GetNpart Example.two_masses 0 = 100 /\
  complete 0 false false Example.two_masses 100 /\
  (exists p1,
      load_snapshot 0 false false Example.square Example.allocator
        Example.two_masses 0 50 Example.blank = Ok 50 p1) /\
  (exists p2,
      load_snapshot 0 false false Example.square Example.allocator
        Example.two_masses 50 50 Example.blank = Ok 50 p2) /\
  (exists s',
      load_snapshot 0 false false Example.square Example.allocator
        Example.two_masses 0 100 Example.blank = Exited 0 s') /\
  ~ pagination_as_stated 0 false false Example.square Example.allocator
      Example.two_masses Example.blank Example.blank Example.blank.
Proof.
  assert (Hx : exists s',
             load_snapshot 0 false false Example.square Example.allocator
               Example.two_masses 0 100 Example.blank = Exited 0 s')
    by (eexists; vm_compute; reflexivity).
  split; [reflexivity|].
  split.
  { intros tag skip Hin. apply Nat.leb_le.
    cbv [blocks_read] in Hin. cbn in Hin.
    repeat (destruct Hin as [Hin|Hin];
            [injection Hin as <- <-; vm_compute; reflexivity|]).
    destruct Hin. }
  split; [eexists; vm_compute; reflexivity|].
  split; [eexists; vm_compute; reflexivity|].
  split; [exact Hx|].
  intros (p1 & p2 & p & _ & _ & Hp & _). destruct Hx as (s' & Hx).
  rewrite Hx in Hp. discriminate.
Qed.

(** Pagination extends to the filled fields only: without cooling the
    electron-fraction array is allocated and never written, and with an
    allocator that does not zero its memory the three loads of a uniform
    snapshot return while that array of the single load is not the two
    pages in a row. *)
Lemma unfilled_fields_are_not_paged :
  exists p1 p2 p,
    load_snapshot 0 false false Example.square Example.stale
      Example.hundred_cold 0 50 Example.blank = Ok 50 p1 /\
    load_snapshot 0 false false Example.square Example.stale
      Example.hundred_cold 50 50 Example.blank = Ok 50 p2 /\
    load_snapshot 0 false false Example.square Example.stale
      Example.hundred_cold 0 100 Example.blank = Ok 100 p /\
    array FNe p <> array FNe p1 ++ array FNe p2.
Proof.
  do 3 eexists.
  split; [vm_compute; reflexivity|].
  split; [vm_compute; reflexivity|].
  split; [vm_compute; reflexivity|].
  vm_compute. discriminate.
Qed.

(** C3, against the statement: with 0.1 as header mass of the type, the
    masses a load returns are the [float] nearest 0.1, which is above the
    header value: the array does not hold the header value itself. A
    header mass of [1e-60] is stored as 0 and one of [1e300] as
    infinity. *)
Lemma header_mass_is_stored_rounded :
  exists s' m,
    load_snapshot 0 false false Example.square Example.allocator
      Example.four_uniform 0 0 Example.blank = Ok 4 s' /\
    Double.truthy (mass (GetHeader Example.four_uniform) 0) = true /\
    nth_error (array FMass s') 0 = Some m /\
    SFltb (mass (GetHeader Example.four_uniform) 0) (Double.of_float m)
    = true /\
    ~ header_fill_as_stated 0 Example.four_uniform 4 s' /\
    Single.of_double (Double.dec 1 60) = Single.zero /\
    Single.of_double (Double.of_Z (10 ^ 300)) = S754_infinity false.
Proof.
  do 2 eexists.
  split; [vm_compute; reflexivity|].
  split; [vm_compute; reflexivity|].
  split; [vm_compute; reflexivity|].
  split; [vm_compute; reflexivity|].
  split; [|split; vm_compute; reflexivity].
  intros Hs. specialize (Hs 0%nat ltac:(lia)). vm_compute in Hs.
  discriminate.
Qed.

(** C7, against the statement: with the mass 0.1 of the first particle,
    0.9 as header mass of type 1 and [Omega0 = 0.3], the baryon fraction
    the load returns compares different from 0.03. *)
Lemma baryon_fraction_is_not_exact :
  exists s',
    load_snapshot 0 false false Example.square Example.allocator
      Example.four 0 0 Example.blank = Ok 4 s' /\
    nth_error (array FMass s') 0 = Some (Single.dec 1 1) /\
    mass (GetHeader Example.four) 1 = Double.dec 9 1 /\
    Omega0 (GetHeader Example.four) = Double.dec 3 1 /\
    Fmt.neb (o_omegab (out s')) (Double.dec 3 2) = true.
Proof.
  eexists.
  split; [vm_compute; reflexivity|].
  split; [reflexivity|]. split; [reflexivity|]. split; [reflexivity|].
  vm_compute. reflexivity.
Qed.

(* ================================================================= *)
(** ** Further properties on concrete snapshots *)

Lemma granted_load_returns_or_rejects_witness :
  (exists s',
      load_snapshot 0 false false Example.square Example.allocator
        Example.four 0 0 Example.blank = Ok 4 s') \/
  (exists s' i,
      load_snapshot 0 false false Example.square Example.allocator
        Example.four 0 0 Example.blank = Exited 0 s' /\
      (i < 4)%nat /\ other_mass s' i).
Proof.
  apply (granted_load_returns_or_rejects 0 false false Example.square
           Example.allocator Example.four 0 0 Example.blank);
    [reflexivity | vm_compute; discriminate |].
  intros tr f Hf. cbv [required_fields app] in Hf.
  repeat (destruct Hf as [<-|Hf]; [discriminate|]). destruct Hf.
Defined.

Lemma exits_of_a_load_witness :
  exists s',
    load_snapshot 0 false false Example.square Example.allocator
      Example.two_masses 0 100 Example.blank = Exited 0 s' /\
    header_written Example.square Example.two_masses s' /\
    o_omegab (out s') = Double.zero /\
    exists i, (i < 100)%nat /\ other_mass s' i.
Proof.
  eexists.
  assert (H : load_snapshot 0 false false Example.square Example.allocator
                Example.two_masses 0 100 Example.blank = Exited 0 _)
    by (vm_compute; reflexivity).
  destruct (exits_of_a_load 0 false false Example.square Example.allocator
              Example.two_masses 0 100 Example.blank 0 _ H)
    as (Hw & Hb & [[Habs _]|(_ & Hi & _)]); [discriminate|].
  split; [exact H|]. split; [exact Hw|]. split; [exact Hb | exact Hi].
Defined.

Lemma alloc_parts_stops_at_the_first_refusal_witness :
  exists s',
    alloc_parts false (Example.budget 3) 4 Example.blank = Ok false s' /\
    exists pre f post,
      required_fields false = pre ++ f :: post /\
      trace s' =
        map (fun g => Malloc (field_size 4 g) true) pre ++
        [Malloc (field_size 4 f) false] /\
      get_field f (P s') = None /\
      (forall g, In g pre -> sized g (cells (field_size 4 g)) s') /\
      (forall g, ~ In g pre -> g <> f -> get_field g (P s') = None) /\
      out s' = out Example.blank.
Proof.
  eexists.
  assert (H : alloc_parts false (Example.budget 3) 4 Example.blank = Ok false _)
    by (vm_compute; reflexivity).
  split; [exact H|].
  destruct (alloc_parts_stops_at_the_first_refusal false (Example.budget 3) 4
              Example.blank _ H)
    as (pre & f & post & Hreq & Ht & Hnull & Hpre & Hrest & Ho).
  exists pre, f, post. split; [exact Hreq|]. split; [exact Ht|].
  split; [exact Hnull|]. split; [exact Hpre|]. split; [|exact Ho].
  intros g Hg Hne. rewrite (Hrest g Hg Hne). destruct g; reflexivity.
Defined.

Lemma load_ignores_what_the_buffer_held_witness :
  exists p1 p2,
    load_snapshot 0 false false Example.square Example.allocator
      Example.four 0 0 Example.blank = Ok 4 p1 /\
    load_snapshot 0 false false Example.square Example.allocator
      Example.four 0 0 Example.used = Ok 4 p2 /\
    trace p2 = trace p1 /\
    out p2 = out p1 /\
    (forall f, In f (required_fields false) ->
               get_field f (P p2) = get_field f (P p1)) /\
    (forall f, ~ In f (required_fields false) ->
               get_field f (P p2) = get_field f (P Example.used)).
Proof.
  eexists.
  assert (H : load_snapshot 0 false false Example.square Example.allocator
                Example.four 0 0 Example.blank = Ok 4 _)
    by (vm_compute; reflexivity).
  destruct (load_ignores_what_the_buffer_held 0 false false Example.square
              Example.allocator Example.four 0 0 Example.blank Example.used
              4 _ eq_refl H ltac:(discriminate))
    as (p2 & H2 & Hrest).
  exists p2. split; [exact H|]. split; [exact H2 | exact Hrest].
Defined.

Lemma unfilled_fields_are_as_malloc_left_them_witness :
  exists s' init,
    load_snapshot 0 false false Example.square Example.stale
      Example.hundred_cold 0 5 Example.blank = Ok 5 s' /\
    Example.stale
      (requests_before 5 FNe (required_fields false)) (field_size 5 FNe) =
      Some init /\
    get_field FNe (P s') = Some (map init (seq 0 (cells (field_size 5 FNe)))).
Proof.
  eexists.
  assert (H : load_snapshot 0 false false Example.square Example.stale
                Example.hundred_cold 0 5 Example.blank = Ok 5 _)
    by (vm_compute; reflexivity).
  destruct (unfilled_fields_are_as_malloc_left_them 0 false false
              Example.square Example.stale Example.hundred_cold 0 5
              Example.blank 5 _ FNe H ltac:(discriminate))
    as (init & Hi & Hg).
  - vm_compute. tauto.
  - vm_compute. intuition discriminate.
  - exists init. split; [exact H|]. split; [exact Hi | exact Hg].
Defined.

Lemma buffer_of_a_load_witness :
  exists s',
    load_snapshot 0 false false Example.square Example.allocator
      Example.four 0 0 Example.blank = Ok 4 s' /\
    (forall f, In f (required_fields false) ->
               length (array f s') = (width f * 4)%nat) /\
    exists evs, trace s' = evs /\ bytes_requested evs = 176.
Proof.
  eexists.
  assert (H : load_snapshot 0 false false Example.square Example.allocator
                Example.four 0 0 Example.blank = Ok 4 _)
    by (vm_compute; reflexivity).
  split; [exact H|].
  apply (buffer_of_a_load 0 false false Example.square Example.allocator
           Example.four 0 0 Example.blank 4 _ H);
    [reflexivity | vm_compute; discriminate].
Defined.

Lemma calls_of_a_load_witness :
  exists s',
    load_snapshot 0 false false Example.square Example.allocator
      Example.four 0 0 Example.blank = Ok 4 s' /\
    trace s' =
      map (fun f => Malloc (field_size 4 f) true) (required_fields false) ++
      map (fun b => GetBlockCall (fst b) 4 0 (snd b))
          (blocks_read 0 false false Example.four) /\
    NoDup (map fst (blocks_read 0 false false Example.four)).
Proof.
  eexists.
  assert (H : load_snapshot 0 false false Example.square Example.allocator
                Example.four 0 0 Example.blank = Ok 4 _)
    by (vm_compute; reflexivity).
  split; [exact H|].
  apply (calls_of_a_load 0 false false Example.square Example.allocator
           Example.four 0 0 Example.blank 4 _ H).
  discriminate.
Defined.

Lemma stepping_by_the_count_stays_inside_witness :
  0 <= resolve_count 0 Example.four 2 1 /\
  2 + resolve_count 0 Example.four 2 1 <= 4 /\
  (resolve_count 0 Example.four 2 1 = 0 <-> 2 = 4) /\
  (1 <= 0 \/ 4 - 2 <= 1 -> 2 + resolve_count 0 Example.four 2 1 = 4) /\
  (forall s r s',
      load_snapshot 0 false false Example.square Example.allocator
        Example.four 2 1 s = Ok r s' ->
      0 <= r /\ 0 <= 2 + r <= 4).
Proof.
  apply (stepping_by_the_count_stays_inside 0 false false Example.square
           Example.allocator Example.four 2 1);
    vm_compute; split; discriminate.
Defined.

Lemma nan_mass_is_rejected_witness :
  exists s',
    load_snapshot 0 false false Example.square Example.allocator
      Example.unweighable 0 1 Example.blank = Exited 0 s'.
Proof.
  apply (nan_mass_is_rejected 0 false false Example.square Example.allocator
           Example.unweighable 0 1 Example.blank);
    [reflexivity | vm_compute; discriminate | | reflexivity].
  intros tr f Hf. cbv [required_fields app] in Hf.
  repeat (destruct Hf as [<-|Hf]; [discriminate|]). destruct Hf.
Defined.

Lemma header_mass_is_accepted_witness :
  exists s',
    load_snapshot 0 false false Example.square Example.allocator
      Example.four_uniform 0 0 Example.blank = Ok 4 s'.
Proof.
  apply (header_mass_is_accepted 0 false false Example.square
           Example.allocator Example.four_uniform 0 0 Example.blank);
    [reflexivity | vm_compute; discriminate | | reflexivity
     | vm_compute; discriminate].
  intros tr f Hf. cbv [required_fields app] in Hf.
  repeat (destruct Hf as [<-|Hf]; [discriminate|]). destruct Hf.
Defined.

Lemma kinematics_of_the_type_only_witness :
  exists s',
    load_snapshot 0 false false Example.square Example.allocator
      Example.four 1 2 Example.blank = Ok 2 s' /\
    (forall t, (t < 6)%nat ->
               Z.testbit (other_types 0) (Z.of_nat t) = negb (Nat.eqb t 0)) /\
    holds FPos (firstn 6 (skipn 3 (block Example.four "POS " 0))) s' /\
    holds FVel (firstn 6 (skipn 3 (block Example.four "VEL " 0))) s'.
Proof.
  eexists.
  assert (H : load_snapshot 0 false false Example.square Example.allocator
                Example.four 1 2 Example.blank = Ok 2 _)
    by (vm_compute; reflexivity).
  split; [exact H|].
  apply (kinematics_of_the_type_only 0 false false Example.square
           Example.allocator Example.four 1 2 Example.blank 2 _
           ltac:(lia) H ltac:(discriminate)).
Defined.

Lemma gas_fields_from_their_blocks_witness :
  exists s',
    load_snapshot 0 true true Example.square Example.allocator
      Example.four 0 0 Example.blank = Ok 4 s' /\
    holds FU (block_range Example.four "U   " 4 0 0) s' /\
    holds Fh (block_range Example.four "HSML" 4 0 0) s' /\
    holds FNH0 (block_range Example.four "NH  " 4 0 0) s' /\
    holds FNe (block_range Example.four "NE  " 4 0 0) s' /\
    holds FNHep (block_range Example.four "NHE " 4 0 0) s'.
Proof.
  eexists.
  assert (H : load_snapshot 0 true true Example.square Example.allocator
                Example.four 0 0 Example.blank = Ok 4 _)
    by (vm_compute; reflexivity).
  destruct (gas_fields_from_their_blocks 0 true true Example.square
              Example.allocator Example.four 0 0 Example.blank 4 _
              eq_refl H ltac:(discriminate))
    as (HU & Hh & Hcool & _).
  destruct (Hcool ltac:(discriminate)) as (HNH & HNe & HHe).
  split; [exact H|]. split; [exact HU|]. split; [exact Hh|].
  split; [exact HNH|]. split; [apply HNe | apply HHe]; reflexivity.
Defined.

Lemma closing_diagnostics_read_inside_witness :
  exists s' vals init,
    load_snapshot 1 false false Example.square Example.stale
      Example.four 0 0 Example.blank = Ok 2 s' /\
    Forall (fun e => 0 <= snd e < Z.of_nat (length (array (fst e) s')))
           (printed_entries 2) /\
    report 2 0 s' = Ok vals s' /\
    vals = map (fun e => nth (Z.to_nat (snd e)) (array (fst e) s') Single.zero)
               (printed_entries 2) /\
    In (FU, 2 - 1) (printed_entries 2) /\
    Example.stale
      (trace Example.blank ++
       requests_before (int32 2) FU (required_fields false))
      (field_size (int32 2) FU) = Some init /\
    nth (Z.to_nat (2 - 1)) (array FU s') Single.zero
    = init (Z.to_nat (2 - 1)).
Proof.
  eexists.
  assert (H : load_snapshot 1 false false Example.square Example.stale
                Example.four 0 0 Example.blank = Ok 2 _)
    by (vm_compute; reflexivity).
  destruct (closing_diagnostics_read_inside 1 false false Example.square
              Example.stale Example.four 0 0 Example.blank 2 _ H
              eq_refl ltac:(vm_compute; discriminate))
    as (Hin & (vals & Hrun & Hvals & _) & Hraw).
  destruct (Hraw FU) as (Hp & init & Hi & Hn).
  - simpl. tauto.
  - vm_compute. intuition discriminate.
  - exists vals, init. split; [exact H|]. split; [exact Hin|].
    split; [exact Hrun|]. split; [apply Hvals; reflexivity|].
    split; [exact Hp|]. split; [exact Hi | exact Hn].
Defined.

Lemma free_parts_releases_what_alloc_parts_acquired_witness :
  exists d1 s1 d2,
    alloc_parts_L false Example.allocator 4 [Fh] Example.used
    = Ok (true, d1) s1 /\
    alloc_parts false Example.allocator 4 Example.used = Ok true s1 /\
    (forall f, In f (required_fields false) -> live f d1 s1) /\
    free_parts false d1 s1 = Ok (tt, d2) s1 /\
    (forall f, In f (required_fields false) -> dangling f d2 s1) /\
    (forall f, ~ In f (required_fields false) -> (In f d2 <-> In f [Fh])).
Proof.
  do 2 eexists.
  assert (H : alloc_parts_L false Example.allocator 4 [Fh] Example.used
              = Ok (true, _) _)
    by (vm_compute; reflexivity).
  destruct (free_parts_releases_what_alloc_parts_acquired false
              Example.allocator 4 [Fh] Example.used _ _ H)
    as (Ha & Hlive & d2 & Hfree & Hd & Hrest).
  exists d2. split; [exact H|]. split; [exact Ha|]. split; [exact Hlive|].
  split; [exact Hfree|]. split; [exact Hd | exact Hrest].
Defined.

Lemma free_parts_twice_is_a_double_free_witness :
  exists d1,
    free_parts false [] Example.used = Ok (tt, d1) Example.used /\
    dangling FVel d1 Example.used /\
    free_parts false d1 Example.used = Undefined.
Proof.
  eexists.
  assert (H : free_parts false [] Example.used = Ok (tt, _) Example.used)
    by (vm_compute; reflexivity).
  destruct (free_parts_twice_is_a_double_free false [] Example.used _ _ FVel H)
    as (_ & Hd & Hu).
  - simpl. tauto.
  - discriminate.
  - split; [exact H|]. split; [exact Hd | exact Hu].
Defined.

Lemma refused_reallocation_keeps_dangling_pointers_witness :
  exists d1 s1,
    alloc_parts_L false (Example.budget 2) 4 [Fh] Example.used
    = Ok (false, d1) s1 /\
    alloc_parts false (Example.budget 2) 4 Example.used = Ok false s1 /\
    dangling Fh d1 s1 /\
    free_parts false d1 s1 = Undefined.
Proof.
  do 2 eexists.
  assert (H : alloc_parts_L false (Example.budget 2) 4 [Fh] Example.used
              = Ok (false, _) _)
    by (vm_compute; reflexivity).
  split; [exact H|].
  apply (refused_reallocation_keeps_dangling_pointers false (Example.budget 2)
           4 [Fh] Example.used _ _);
    [split; [discriminate | left; reflexivity] | exact H | discriminate].
Defined.

Lemma count_is_truncated_to_int_witness :
  allocate false Example.allocator (1 + 1 * 2 ^ 32) Example.blank =
  allocate false Example.allocator 1 Example.blank /\
  forall f,
    cells (field_size (int32 (1 + 1 * 2 ^ 32)) f) = (width f * Z.to_nat 1)%nat.
Proof.
  apply (count_is_truncated_to_int false Example.allocator 1 1 Example.blank);
    [lia | vm_compute; discriminate].
Defined.

Lemma blocks_read_are_registered_witness :
  exists s',
    load_snapshot 0 false false Example.square Example.allocator
      Example.four 0 0 Example.blank = Ok 4 s' /\
    In (GetBlockCall "NHEQ" 4 0 0) (trace s') /\
    String.length "NHEQ" = 4%nat /\
    In "NHEQ"%string BlockNames.
Proof.
  assert (Hrun : exists s',
             load_snapshot 0 false false Example.square Example.allocator
               Example.four 0 0 Example.blank = Ok 4 s' /\
             In (GetBlockCall "NHEQ" 4 0 0) (trace s')).
  { eexists. split; [vm_compute; reflexivity | vm_compute; tauto]. }
  destruct Hrun as (s' & H & Hin). exists s'.
  destruct (blocks_read_are_registered 0 false false Example.square
              Example.allocator Example.four 0 0 Example.blank 4 _
              "NHEQ" 4 0 0 H ltac:(discriminate) Hin ltac:(simpl; tauto))
    as (Hlen & _ & _ & Hreg).
  split; [exact H|]. split; [exact Hin|]. split; [exact Hlen|].
  apply Hreg. reflexivity.
Defined.
